(** * AskQss: the retrieval-augmented question answering pipeline

    A shallow embedding of the three services of [backend/app/services]:

    - [document_processor.py] : [DocumentProcessor.chunk_text], with its
      cached text splitter;
    - [vector_store.py]       : [VectorStoreService], the access layer in
      front of the vector index;
    - [rag_service.py]        : [RAGService], the orchestrator (ingestion,
      query, deletion, listing).

    Python objects with mutable attributes become fields of one [World];
    a method is a function in the monad [M], which threads the world and
    may raise.  A Python [str] is a [string] (code points below 256), an
    [int] is a [Z], a [dict] with string keys is a [gmap string _], a
    retrieval distance is a rational (exact arithmetic). *)

From Stdlib Require Import QArith Ascii String Sorted.
From stdpp Require Import gmap strings list fin_maps pretty.


(** ** Python values and exceptions *)

(** The values a metadata dictionary holds. *)
Inductive PyVal :=
| PStr (s : string)
| PInt (z : Z)
| PNone.

#[global] Instance PyVal_eq_dec : EqDecision PyVal.
Proof. solve_decision. Defined.

Abbreviation Dict := (gmap string PyVal).

(** [{**base, **overrides}]: on a shared key the later entry wins. *)
Definition dict_merge (base overrides : Dict) : Dict := overrides ∪ base.

(** [d.get(key, default)] *)
Definition dict_get (d : Dict) (key : string) (default : PyVal) : PyVal :=
  match d !! key with
  | Some v => v
  | None => default
  end.

Inductive exn :=
| RuntimeError (msg : string)
| ValueError (msg : string)
| Exception (msg : string)
| IndexError (msg : string)
| AttributeError (msg : string)
| ServiceError (msg : string).

#[global] Instance exn_eq_dec : EqDecision exn.
Proof. solve_decision. Defined.

(** [str(e)] *)
Definition str_exn (e : exn) : string :=
  match e with
  | RuntimeError m | ValueError m | Exception m
  | IndexError m | AttributeError m | ServiceError m => m
  end.

Inductive result (A : Type) :=
| Ok (a : A)
| Raise (e : exn).
Arguments Ok {A} a.
Arguments Raise {A} e.

Definition is_ok {A} (r : result A) : bool :=
  match r with Ok _ => true | Raise _ => false end.

Definition result_bind {A B} (r : result A) (k : A -> result B) : result B :=
  match r with
  | Ok a => k a
  | Raise e => Raise e
  end.

(** [xs[i]] on a list *)
Definition index {A} (xs : list A) (i : nat) : result A :=
  match xs !! i with
  | Some x => Ok x
  | None => Raise (IndexError "list index out of range")
  end.

(** ** Characters and text *)

Definition newline : ascii := "010"%char.
Definition space : ascii := " "%char.
Definition dquote : string := String "034"%char EmptyString.

(** [len(s)] as a Python [int] *)
Definition len (s : string) : Z := Z.of_nat (String.length s).

(** [sep.join(parts)] *)
Fixpoint join (sep : string) (parts : list string) : string :=
  match parts with
  | [] => EmptyString
  | [p] => p
  | p :: rest => p +:+ sep +:+ join sep rest
  end.

(** ** Records of the pipeline *)

Abbreviation Embedding := (list Q).

(** What [process_file] returns. *)
Record DocData := {
  dd_text : string;
  dd_filename : string;
  dd_file_type : string;
  dd_size : Z;
  dd_pages : option Z
}.

(** One stored record of the vector index. *)
Record ChunkRecord := {
  rec_id : string;
  rec_document : string;
  rec_embedding : Embedding;
  rec_metadata : Dict
}.

(** The collection object the access layer keeps. *)
Record Collection := {
  coll_name : string;
  coll_metadata : Dict
}.

(** The persistent store behind the collection. *)
Record ChromaDB := {
  db_available : bool;
  db_records : list ChunkRecord
}.

(** The result dictionary of [collection.query], one inner list per query
    embedding; [qr_ids] is [None] when the key is absent. *)
Record QueryResult := {
  qr_ids : option (list (list string));
  qr_documents : list (list string);
  qr_metadatas : list (list Dict);
  qr_distances : list (list Q)
}.

(** The result dictionary of [collection.get]. *)
Record GetResult := {
  gr_ids : option (list string);
  gr_metadatas : list Dict
}.

(** One formatted retrieval result of [similarity_search]. *)
Record SearchHit := {
  hit_document : string;
  hit_metadata : Dict;
  hit_distance : Q;
  hit_id : option string
}.

(** One entry of the source list of an answer. *)
Record Source := {
  document_name : PyVal;
  content : string;
  relevance_score : Q
}.

Record QueryAnswer := {
  answer : string;
  sources : list Source;
  context_used : bool
}.

(** The text splitter object cached by the document processor. *)
Record Splitter := {
  _chunk_size : Z;
  _chunk_overlap : Z;
  _separators : list string
}.

Record Settings := {
  chroma_db_path : string;
  collection_name : string;
  chunk_size : Z;
  chunk_overlap : Z;
  top_k_results : nat
}.

(** ** Calls to the collaborators, as observed from outside *)

Inductive Event :=
| EvEmbedDocuments (texts : list string)
| EvEmbedQuery (question : string)
| EvInvoke (prompt : string)
| EvAdd (ids : list string)
| EvQuery (top_k : nat)
| EvGet (where_ : Dict)
| EvDelete (ids : list string)
| EvCount.

Definition is_invoke (e : Event) : bool :=
  match e with EvInvoke _ => true | _ => false end.

Definition is_add (e : Event) : bool :=
  match e with EvAdd _ => true | _ => false end.

(** ** The world: every mutable object of the three services *)

Record World := {
  (* RAGService *)
  rag_embeddings : option unit;
  rag_llm : option unit;
  rag_initialized : bool;
  documents_metadata : gmap string Dict;
  (* VectorStoreService *)
  vs_client : option unit;
  vs_collection : option Collection;
  vs_initialized : bool;
  (* DocumentProcessor *)
  text_splitter : option Splitter;
  (* outside the process *)
  chroma : ChromaDB;
  uuid_count : nat;
  clock : nat;
  calls : list Event
}.

Definition set_rag_embeddings (v : option unit) (w : World) : World :=
  {| rag_embeddings := v; rag_llm := rag_llm w;
     rag_initialized := rag_initialized w;
     documents_metadata := documents_metadata w;
     vs_client := vs_client w; vs_collection := vs_collection w;
     vs_initialized := vs_initialized w; text_splitter := text_splitter w;
     chroma := chroma w; uuid_count := uuid_count w; clock := clock w;
     calls := calls w |}.

Definition set_rag_llm (v : option unit) (w : World) : World :=
  {| rag_embeddings := rag_embeddings w; rag_llm := v;
     rag_initialized := rag_initialized w;
     documents_metadata := documents_metadata w;
     vs_client := vs_client w; vs_collection := vs_collection w;
     vs_initialized := vs_initialized w; text_splitter := text_splitter w;
     chroma := chroma w; uuid_count := uuid_count w; clock := clock w;
     calls := calls w |}.

Definition set_rag_initialized (v : bool) (w : World) : World :=
  {| rag_embeddings := rag_embeddings w; rag_llm := rag_llm w;
     rag_initialized := v;
     documents_metadata := documents_metadata w;
     vs_client := vs_client w; vs_collection := vs_collection w;
     vs_initialized := vs_initialized w; text_splitter := text_splitter w;
     chroma := chroma w; uuid_count := uuid_count w; clock := clock w;
     calls := calls w |}.

Definition set_documents_metadata (v : gmap string Dict) (w : World) : World :=
  {| rag_embeddings := rag_embeddings w; rag_llm := rag_llm w;
     rag_initialized := rag_initialized w;
     documents_metadata := v;
     vs_client := vs_client w; vs_collection := vs_collection w;
     vs_initialized := vs_initialized w; text_splitter := text_splitter w;
     chroma := chroma w; uuid_count := uuid_count w; clock := clock w;
     calls := calls w |}.

Definition set_vs_client (v : option unit) (w : World) : World :=
  {| rag_embeddings := rag_embeddings w; rag_llm := rag_llm w;
     rag_initialized := rag_initialized w;
     documents_metadata := documents_metadata w;
     vs_client := v; vs_collection := vs_collection w;
     vs_initialized := vs_initialized w; text_splitter := text_splitter w;
     chroma := chroma w; uuid_count := uuid_count w; clock := clock w;
     calls := calls w |}.

Definition set_vs_collection (v : option Collection) (w : World) : World :=
  {| rag_embeddings := rag_embeddings w; rag_llm := rag_llm w;
     rag_initialized := rag_initialized w;
     documents_metadata := documents_metadata w;
     vs_client := vs_client w; vs_collection := v;
     vs_initialized := vs_initialized w; text_splitter := text_splitter w;
     chroma := chroma w; uuid_count := uuid_count w; clock := clock w;
     calls := calls w |}.

Definition set_vs_initialized (v : bool) (w : World) : World :=
  {| rag_embeddings := rag_embeddings w; rag_llm := rag_llm w;
     rag_initialized := rag_initialized w;
     documents_metadata := documents_metadata w;
     vs_client := vs_client w; vs_collection := vs_collection w;
     vs_initialized := v; text_splitter := text_splitter w;
     chroma := chroma w; uuid_count := uuid_count w; clock := clock w;
     calls := calls w |}.

Definition set_text_splitter (v : option Splitter) (w : World) : World :=
  {| rag_embeddings := rag_embeddings w; rag_llm := rag_llm w;
     rag_initialized := rag_initialized w;
     documents_metadata := documents_metadata w;
     vs_client := vs_client w; vs_collection := vs_collection w;
     vs_initialized := vs_initialized w; text_splitter := v;
     chroma := chroma w; uuid_count := uuid_count w; clock := clock w;
     calls := calls w |}.

Definition set_chroma (v : ChromaDB) (w : World) : World :=
  {| rag_embeddings := rag_embeddings w; rag_llm := rag_llm w;
     rag_initialized := rag_initialized w;
     documents_metadata := documents_metadata w;
     vs_client := vs_client w; vs_collection := vs_collection w;
     vs_initialized := vs_initialized w; text_splitter := text_splitter w;
     chroma := v; uuid_count := uuid_count w; clock := clock w;
     calls := calls w |}.

Definition set_uuid_count (v : nat) (w : World) : World :=
  {| rag_embeddings := rag_embeddings w; rag_llm := rag_llm w;
     rag_initialized := rag_initialized w;
     documents_metadata := documents_metadata w;
     vs_client := vs_client w; vs_collection := vs_collection w;
     vs_initialized := vs_initialized w; text_splitter := text_splitter w;
     chroma := chroma w; uuid_count := v; clock := clock w;
     calls := calls w |}.

Definition set_clock (v : nat) (w : World) : World :=
  {| rag_embeddings := rag_embeddings w; rag_llm := rag_llm w;
     rag_initialized := rag_initialized w;
     documents_metadata := documents_metadata w;
     vs_client := vs_client w; vs_collection := vs_collection w;
     vs_initialized := vs_initialized w; text_splitter := text_splitter w;
     chroma := chroma w; uuid_count := uuid_count w; clock := v;
     calls := calls w |}.

Definition log_call (e : Event) (w : World) : World :=
  {| rag_embeddings := rag_embeddings w; rag_llm := rag_llm w;
     rag_initialized := rag_initialized w;
     documents_metadata := documents_metadata w;
     vs_client := vs_client w; vs_collection := vs_collection w;
     vs_initialized := vs_initialized w; text_splitter := text_splitter w;
     chroma := chroma w; uuid_count := uuid_count w; clock := clock w;
     calls := e :: calls w |}.

(** The services as the module import leaves them: the three [__init__]
    bodies, over a given store. *)
Definition fresh_world (db : ChromaDB) : World :=
  {| rag_embeddings := None; rag_llm := None; rag_initialized := false;
     documents_metadata := ∅;
     vs_client := None; vs_collection := None; vs_initialized := false;
     text_splitter := None;
     chroma := db; uuid_count := 0; clock := 0; calls := [] |}.

(** ** The monad of methods: state that survives a raise *)

Definition M (A : Type) : Type := World -> result A * World.

Definition ret {A} (a : A) : M A := fun w => (Ok a, w).

Definition raise {A} (e : exn) : M A := fun w => (Raise e, w).

Definition bind {A B} (m : M A) (k : A -> M B) : M B :=
  fun w =>
    match m w with
    | (Ok a, w') => k a w'
    | (Raise e, w') => (Raise e, w')
    end.

Definition lift {A} (r : result A) : M A := fun w => (r, w).

Definition gets {A} (f : World -> A) : M A := fun w => (Ok (f w), w).

Definition modify (f : World -> World) : M unit := fun w => (Ok tt, f w).

(** [try: body except Exception as e: handler(e)] *)
Definition try_except {A} (body : M A) (handler : exn -> M A) : M A :=
  fun w =>
    match body w with
    | (Ok a, w') => (Ok a, w')
    | (Raise e, w') => handler e w'
    end.

(** [if cond: body] *)
Definition when (cond : bool) (body : M unit) : M unit :=
  if cond then body else ret tt.

Declare Scope py_scope.
Delimit Scope py_scope with py.
Notation "x <- c1 ;; c2" := (bind c1 (fun x => c2))
  (at level 100, c1 at next level, right associativity) : py_scope.
Notation "c1 ;;; c2" := (bind c1 (fun _ => c2))
  (at level 100, right associativity) : py_scope.
Open Scope py_scope.

(** ** The collaborators *)

(** The services outside the repository, as functions: the text extractor
    over the file system ([process_file] reads the file at a path), the
    embedding client, the generative model client, the distance the index
    ranks by, the generator of document identifiers and the wall clock
    (both indexed by how often they were asked). *)
Class Collaborators := {
  settings : Settings;
  process_file : string -> result DocData;
  embed_documents : list string -> result (list Embedding);
  embed_query_vector : string -> result Embedding;
  llm_invoke : string -> result string;
  distance : Embedding -> Embedding -> Q;
  uuid4_str : nat -> string;
  isoformat_now : nat -> string
}.

(** ** The vector index behind the access layer *)

(** Modelled from the spec: the collection object of the vector database
    (its class is imported by [vector_store.py], not defined in the
    repository).  Section 4.2 gives its contract: [add] takes four
    sequences of one length and fails the whole batch when an id collides;
    [query] ranks the matching records by ascending distance and returns at
    most [top_k] of them, none (not an error) when nothing matches;
    [delete] removes the records with the given ids, an unknown id is not
    an error; [get] resolves the records matching a metadata filter.  A
    call fails when the storage is unavailable. *)
Module Chroma.

Definition unavailable {A} : result A :=
  Raise (ServiceError "vector index storage unavailable").

Definition matches_where (where_ : Dict) (r : ChunkRecord) : bool :=
  bool_decide (map_Forall (fun k v => rec_metadata r !! k = Some v) where_).

Definition make_records (documents : list string)
    (embeddings : list Embedding) (metadatas : list Dict)
    (ids : list string) : list ChunkRecord :=
  zip_with (fun '(i, d) '(e, m) =>
              {| rec_id := i; rec_document := d;
                 rec_embedding := e; rec_metadata := m |})
           (zip ids documents) (zip embeddings metadatas).

Definition same_lengths (documents : list string)
    (embeddings : list Embedding) (metadatas : list Dict)
    (ids : list string) : bool :=
  bool_decide (length documents = length ids)
  && bool_decide (length embeddings = length ids)
  && bool_decide (length metadatas = length ids).

Definition fresh_ids (ids : list string) (db : ChromaDB) : bool :=
  bool_decide (NoDup ids)
  && forallb (fun i => bool_decide (i ∉ rec_id <$> db_records db)) ids.

Definition add (documents : list string) (embeddings : list Embedding)
    (metadatas : list Dict) (ids : list string)
    (db : ChromaDB) : result ChromaDB :=
  if negb (db_available db) then unavailable
  else if negb (same_lengths documents embeddings metadatas ids)
  then Raise (ValueError "Unequal lengths of ids, embeddings, metadatas, documents")
  else if negb (fresh_ids ids db)
  then Raise (ValueError "Expected IDs to be unique")
  else Ok {| db_available := db_available db;
             db_records := db_records db
                ++ make_records documents embeddings metadatas ids |}.

Definition delete (ids : list string) (db : ChromaDB) : result ChromaDB :=
  if negb (db_available db) then unavailable
  else Ok {| db_available := db_available db;
             db_records :=
               filter (fun r => rec_id r ∉ ids) (db_records db) |}.

Definition get (where_ : Dict) (db : ChromaDB) : result GetResult :=
  if negb (db_available db) then unavailable
  else
    let found := List.filter (matches_where where_) (db_records db) in
    Ok {| gr_ids := Some (rec_id <$> found);
          gr_metadatas := rec_metadata <$> found |}.

Definition count (db : ChromaDB) : result Z :=
  if negb (db_available db) then unavailable
  else Ok (Z.of_nat (length (db_records db))).

(** Ranking: a stable insertion sort by distance, closest first. *)
Fixpoint insert_ranked (x : Q * ChunkRecord)
    (l : list (Q * ChunkRecord)) : list (Q * ChunkRecord) :=
  match l with
  | [] => [x]
  | y :: l' =>
      if Qle_bool (fst x) (fst y) then x :: y :: l'
      else y :: insert_ranked x l'
  end.

Definition rank (l : list (Q * ChunkRecord)) : list (Q * ChunkRecord) :=
  foldr insert_ranked [] l.

Section WithDistance.
Context `{Collaborators}.

Definition nearest (q : Embedding) (n_results : nat) (where_ : Dict)
    (db : ChromaDB) : list (Q * ChunkRecord) :=
  take n_results
    (rank ((fun r => (distance q (rec_embedding r), r))
             <$> List.filter (matches_where where_) (db_records db))).

Definition query (query_embeddings : list Embedding) (n_results : nat)
    (where_ : option Dict) (db : ChromaDB) : result QueryResult :=
  if negb (db_available db) then unavailable
  else
    let hits := (fun q => nearest q n_results (default ∅ where_) db)
                  <$> query_embeddings in
    Ok {| qr_ids := Some (fmap (fun h => rec_id (snd h)) <$> hits);
          qr_documents := fmap (fun h => rec_document (snd h)) <$> hits;
          qr_metadatas := fmap (fun h => rec_metadata (snd h)) <$> hits;
          qr_distances := fmap fst <$> hits |}.
End WithDistance.

(** [client.get_or_create_collection(name, metadata)] *)
Definition get_or_create_collection (name : string) (metadata : Dict)
    (db : ChromaDB) : result Collection :=
  if negb (db_available db) then unavailable
  else Ok {| coll_name := name; coll_metadata := metadata |}.

(** [chromadb.PersistentClient(path, settings)] *)
Definition persistent_client (path : string) (db : ChromaDB) : result unit :=
  if negb (db_available db) then unavailable else Ok tt.

(** A call that reads the store, and one that writes it; both are
    recorded in [calls]. *)
Definition read {A} (ev : Event) (op : ChromaDB -> result A) : M A :=
  fun w => (op (chroma w), log_call ev w).

Definition write (ev : Event) (op : ChromaDB -> result ChromaDB) : M unit :=
  fun w =>
    match op (chroma w) with
    | Ok db' => (Ok tt, log_call ev (set_chroma db' w))
    | Raise e => (Raise e, log_call ev w)
    end.

End Chroma.

(** ** vector_store.py *)

Module VectorStoreService.

Record CollectionInfo := {
  info_name : string;
  info_count : Z;
  info_metadata : Dict
}.

Definition not_initialized {A} : M A :=
  raise (RuntimeError "Vector store not initialized").

(** The guard [if not self.initialized or not self.collection], then the
    body with the collection at hand. *)
Definition with_collection {A} (body : Collection -> M A) : M A :=
  initialized <- gets vs_initialized ;;
  collection <- gets vs_collection ;;
  match initialized, collection with
  | true, Some c => body c
  | _, _ => not_initialized
  end.

(** [persist_directory] is created on the file system, which the model
    leaves out. *)
Definition initialize (persist_directory collection_name : string) : M unit :=
  initialized <- gets vs_initialized ;;
  if initialized then ret tt
  else
    client <- (fun w => (Chroma.persistent_client persist_directory (chroma w), w)) ;;
    modify (set_vs_client (Some client)) ;;;
    collection <- (fun w =>
        (Chroma.get_or_create_collection collection_name
           {[ "hnsw:space" := PStr "cosine" ]} (chroma w), w)) ;;
    modify (set_vs_collection (Some collection)) ;;;
    modify (set_vs_initialized true).

Definition add_documents (documents : list string)
    (embeddings : list Embedding) (metadatas : list Dict)
    (ids : list string) : M unit :=
  with_collection (fun _ =>
    Chroma.write (EvAdd ids) (Chroma.add documents embeddings metadatas ids)).

(** The loop [for i in range(len(results['documents'][0]))]. *)
Definition format_hit (results : QueryResult) (i : nat) : result SearchHit :=
  result_bind (index (qr_documents results) 0) (fun docs0 =>
  result_bind (index docs0 i) (fun document =>
  result_bind (index (qr_metadatas results) 0) (fun metas0 =>
  result_bind (index metas0 i) (fun metadata =>
  result_bind (index (qr_distances results) 0) (fun dists0 =>
  result_bind (index dists0 i) (fun dist =>
  result_bind
    (match qr_ids results with
     | Some ids =>
         result_bind (index ids 0) (fun ids0 =>
         result_bind (index ids0 i) (fun id => Ok (Some id)))
     | None => Ok None
     end) (fun id =>
  Ok {| hit_document := document; hit_metadata := metadata;
        hit_distance := dist; hit_id := id |}))))))).

Fixpoint format_loop (results : QueryResult) (range : list nat)
    (formatted_results : list SearchHit) : result (list SearchHit) :=
  match range with
  | [] => Ok formatted_results
  | i :: range' =>
      result_bind (format_hit results i) (fun hit =>
      format_loop results range' (formatted_results ++ [hit]))
  end.

Definition format_results (results : QueryResult) : result (list SearchHit) :=
  match qr_documents results with
  | docs0 :: _ =>
      if (0 <? length docs0)%nat
      then format_loop results (seq 0 (length docs0)) []
      else Ok []
  | [] => Ok []
  end.

Section WithCollaborators.
Context `{Collaborators}.

Definition similarity_search (query_embedding : Embedding) (top_k : nat)
    (filter_dict : option Dict) : M (list SearchHit) :=
  with_collection (fun _ =>
    results <- Chroma.read (EvQuery top_k)
                 (Chroma.query [query_embedding] top_k filter_dict) ;;
    lift (format_results results)).
End WithCollaborators.

Definition delete_documents (document_ids : list string) : M unit :=
  with_collection (fun _ =>
    try_except
      (Chroma.write (EvDelete document_ids) (Chroma.delete document_ids))
      (fun e => raise (Exception ("Error deleting documents: " +:+ str_exn e)))).

Definition get_collection_info : M CollectionInfo :=
  with_collection (fun c =>
    count <- Chroma.read EvCount Chroma.count ;;
    ret {| info_name := coll_name c; info_count := count;
           info_metadata := coll_metadata c |}).

Definition clear_collection : M unit :=
  with_collection (fun _ =>
    all_data <- Chroma.read (EvGet ∅) (Chroma.get ∅) ;;
    match gr_ids all_data with
    | Some ids =>
        when (0 <? length ids)%nat
          (Chroma.write (EvDelete ids) (Chroma.delete ids))
    | None => ret tt
    end).

Definition get_all_document_ids : M (list string) :=
  with_collection (fun _ =>
    all_data <- Chroma.read (EvGet ∅) (Chroma.get ∅) ;;
    ret (default [] (gr_ids all_data))).

Definition get_documents_by_source (source_filename : string) : M (list string) :=
  with_collection (fun _ =>
    let where_ : Dict := {[ "source" := PStr source_filename ]} in
    results <- Chroma.read (EvGet where_) (Chroma.get where_) ;;
    ret (default [] (gr_ids results))).

End VectorStoreService.

(** ** The text splitter *)

(** Modelled from the spec: the recursive character splitter is a class
    the document processor imports, not code of the repository.  Section
    4.1 gives its algorithm: split on the first separator of the priority
    list that occurs in the text, keep the pieces shorter than the chunk
    size, recurse with the remaining separators on a piece that is not, and
    merge the kept pieces into chunks of at most the chunk size that share
    about the overlap with their neighbour; the constraint is
    [0 < chunk_overlap < chunk_size].  What the section leaves open follows
    the options [chunk_text] constructs the splitter with and the defaults
    of that class: [len] measures length, a separator stays at the head of
    the piece that follows it, a merged chunk is stripped of surrounding
    white space and dropped when nothing remains. *)
Module TextSplitter.

Abbreviation chars := (list ascii).

#[local] Open Scope Z_scope.

(** [str.isspace] on the code points below 256 *)
Definition is_space (c : ascii) : bool :=
  let n := nat_of_ascii c in
  ((9 <=? n) && (n <=? 13) || (28 <=? n) && (n <=? 32)
   || (n =? 133) || (n =? 160))%nat.

Fixpoint lstrip (s : chars) : chars :=
  match s with
  | c :: s' => if is_space c then lstrip s' else s
  | [] => []
  end.

Definition rstrip (s : chars) : chars := rev (lstrip (rev s)).

Definition strip (s : chars) : chars := rstrip (lstrip s).

Definition clen (s : chars) : Z := Z.of_nat (length s).

Fixpoint starts_with (p s : chars) : bool :=
  match p, s with
  | [], _ => true
  | a :: p', b :: s' => bool_decide (a = b) && starts_with p' s'
  | _ :: _, [] => false
  end.

(** [re.search(re.escape(sep), text)] *)
Fixpoint contains (sep text : chars) : bool :=
  starts_with sep text
  || match text with
     | [] => false
     | _ :: text' => contains sep text'
     end.

(** [re.split] on the literal separator from left to right, every
    separator glued to the head of the piece after it; [skip] counts the
    characters of a separator already matched that are still to be
    copied. *)
Fixpoint split_scan (sep : chars) (skip : nat) (piece text : chars)
    : list chars :=
  match text with
  | [] => [piece]
  | c :: text' =>
      match skip with
      | S skip' => split_scan sep skip' (piece ++ [c]) text'
      | O =>
          if starts_with sep text
          then piece :: split_scan sep (length sep - 1)%nat [c] text'
          else split_scan sep 0 (piece ++ [c]) text'
      end
  end.

Definition nonempty (s : chars) : bool :=
  match s with [] => false | _ => true end.

(** [_split_text_with_regex(text, separator, keep_separator=True)] *)
Definition split_text_with_regex (text separator : chars) : list chars :=
  List.filter nonempty
    (match separator with
     | [] => (fun c => [c]) <$> text
     | _ => split_scan separator 0 [] text
     end).

(** [separator.join(docs)] *)
Fixpoint cjoin (separator : chars) (docs : list chars) : chars :=
  match docs with
  | [] => []
  | [d] => d
  | d :: docs' => d ++ separator ++ cjoin separator docs'
  end.

Definition join_docs (docs : list chars) (separator : chars) : option chars :=
  match strip (cjoin separator docs) with
  | [] => None
  | text => Some text
  end.

Definition append_doc (docs : list chars) (doc : option chars) : list chars :=
  match doc with
  | Some d => docs ++ [d]
  | None => docs
  end.

Section Sized.
Variables chunk_size chunk_overlap : Z.

Definition sep_if (b : bool) (separator_len : Z) : Z :=
  if b then separator_len else 0.

(** The inner [while] of [_merge_splits]: drop pieces from the front of
    [current_doc]; [current_doc[0]] on an empty list raises. *)
Fixpoint pop_front (separator_len _len : Z)
    (current_doc : list chars) (total : Z) : result (list chars * Z) :=
  if (chunk_overlap <? total)
     || (chunk_size <?
           total + _len + sep_if (0 <? length current_doc)%nat separator_len)
        && (0 <? total)
  then
    match current_doc with
    | [] => Raise (IndexError "list index out of range")
    | d0 :: rest =>
        pop_front separator_len _len rest
          (total - (clen d0
                     + sep_if (1 <? length current_doc)%nat separator_len))
    end
  else Ok (current_doc, total).

(** The [for d in splits] loop of [_merge_splits]. *)
Fixpoint merge_loop (separator : chars) (splits docs current_doc : list chars)
    (total : Z) : result (list chars) :=
  match splits with
  | [] => Ok (append_doc docs (join_docs current_doc separator))
  | d :: splits' =>
      let separator_len := clen separator in
      let _len := clen d in
      result_bind
        (if (chunk_size <?
               total + _len
               + sep_if (0 <? length current_doc)%nat separator_len)
            && (0 <? length current_doc)%nat
         then
           result_bind
             (pop_front separator_len _len current_doc total)
             (fun '(current_doc', total') =>
                Ok (append_doc docs (join_docs current_doc separator),
                    current_doc', total'))
         else Ok (docs, current_doc, total))
        (fun '(docs', current_doc', total') =>
           let current_doc'' := current_doc' ++ [d] in
           merge_loop separator splits' docs' current_doc''
             (total' + _len
              + sep_if (1 <? length current_doc'')%nat separator_len))
  end.

Definition _merge_splits (splits : list chars) (separator : chars)
    : result (list chars) :=
  merge_loop separator splits [] [] 0.

(** The [for s in splits] loop of [_split_text]; [recurse] is
    [_split_text] on the remaining separators. *)
Fixpoint split_loop (new_separators : list chars)
    (recurse : chars -> result (list chars))
    (splits _good_splits final_chunks : list chars)
    : result (list chars) :=
  match splits with
  | [] =>
      match _good_splits with
      | [] => Ok final_chunks
      | _ =>
          result_bind (_merge_splits _good_splits [])
            (fun merged_text => Ok (final_chunks ++ merged_text))
      end
  | s :: splits' =>
      if clen s <? chunk_size
      then split_loop new_separators recurse splits'
             (_good_splits ++ [s]) final_chunks
      else
        result_bind
          (match _good_splits with
           | [] => Ok final_chunks
           | _ =>
               result_bind (_merge_splits _good_splits [])
                 (fun merged_text => Ok (final_chunks ++ merged_text))
           end)
          (fun final_chunks' =>
             result_bind
               (match new_separators with
                | [] => Ok [s]
                | _ => recurse s
                end)
               (fun other_info =>
                  split_loop new_separators recurse splits' []
                    (final_chunks' ++ other_info)))
  end.

Definition split_with (separator : chars) (new_separators : list chars)
    (recurse : chars -> result (list chars)) (text : chars)
    : result (list chars) :=
  split_loop new_separators recurse
    (split_text_with_regex text separator) [] [].

(** With no separator left a piece is emitted as it is and
    [_split_text] is not called again. *)
Definition no_recursion (s : chars) : result (list chars) := Ok [s].

(** [_split_text(text, separators)]: the first separator that is empty
    or occurs in the text is used and the ones after it remain; when
    none does, the last one is used and none remains. *)
Fixpoint _split_text (separators : list chars) (text : chars)
    : result (list chars) :=
  match separators with
  | [] => Raise (IndexError "list index out of range")
  | _s :: rest =>
      if negb (nonempty _s)
      then split_with _s [] no_recursion text
      else if contains _s text
      then split_with _s rest (_split_text rest) text
      else
        match rest with
        | [] => split_with _s [] no_recursion text
        | _ => _split_text rest text
        end
  end.
End Sized.

(** The constructor, with the constraint of section 4.1. *)
Definition new (chunk_size chunk_overlap : Z) (separators : list string)
    : result Splitter :=
  if negb ((0 <? chunk_size) && (0 <? chunk_overlap))
  then Raise (ValueError "chunk_size and chunk_overlap must be positive")
  else if negb (chunk_overlap <? chunk_size)
  then Raise (ValueError "Got a larger chunk overlap than chunk size")
  else Ok {| _chunk_size := chunk_size; _chunk_overlap := chunk_overlap;
             _separators := separators |}.

Definition split_text (s : Splitter) (text : string) : result (list string) :=
  result_bind
    (_split_text (_chunk_size s) (_chunk_overlap s)
       (list_ascii_of_string <$> _separators s)
       (list_ascii_of_string text))
    (fun chunks => Ok (string_of_list_ascii <$> chunks)).

End TextSplitter.

(** ** document_processor.py *)

Module DocumentProcessor.

Definition separators : list string :=
  [String newline (String newline EmptyString);
   String newline EmptyString;
   String space EmptyString;
   EmptyString].

Section WithSplitter.
(** [RecursiveCharacterTextSplitter.split_text], on the attributes of
    the splitter object and the text. *)
Variable splitter_split_text : Splitter -> string -> result (list string).

Definition rebuild (chunk_size chunk_overlap : Z) : M unit :=
  s <- lift (TextSplitter.new chunk_size chunk_overlap separators) ;;
  modify (set_text_splitter (Some s)).

Definition chunk_text (text : string) (chunk_size chunk_overlap : Z)
    : M (list string) :=
  cached <- gets text_splitter ;;
  match cached with
  | None => rebuild chunk_size chunk_overlap
  | Some s =>
      when (bool_decide (_chunk_size s ≠ chunk_size)
            || bool_decide (_chunk_overlap s ≠ chunk_overlap))
        (rebuild chunk_size chunk_overlap)
  end ;;;
  cached <- gets text_splitter ;;
  match cached with
  | Some s => lift (splitter_split_text s text)
  | None => raise (AttributeError "'NoneType' object has no attribute 'split_text'")
  end.
End WithSplitter.

End DocumentProcessor.

(** ** rag_service.py *)

Module RAGService.

(** [enumerate(xs, start)] *)
Fixpoint enumerate {A} (start : nat) (xs : list A) : list (nat * A) :=
  match xs with
  | [] => []
  | x :: xs' => (start, x) :: enumerate (S start) xs'
  end.

(** [f"{doc_id}_chunk_{i}"] *)
Definition chunk_id (doc_id : string) (i : nat) : string :=
  doc_id +:+ "_chunk_" +:+ pretty i.

(** The dictionary literal built for every chunk; the caller's entries
    are spliced in last. *)
Definition chunk_metadata (doc_data : DocData) (doc_id : string)
    (i total_chunks : nat) (metadata : Dict) : Dict :=
  dict_merge
    (<[ "file_type" := PStr (dd_file_type doc_data) ]>
     (<[ "total_chunks" := PInt (Z.of_nat total_chunks) ]>
      (<[ "chunk_index" := PInt (Z.of_nat i) ]>
       (<[ "document_id" := PStr doc_id ]>
        (<[ "source" := PStr (dd_filename doc_data) ]> ∅)))))
    metadata.

(** The loop [for i, chunk in enumerate(chunks)] of [add_document]. *)
Fixpoint metadata_loop (doc_data : DocData) (doc_id : string)
    (total_chunks : nat) (metadata : Dict) (ichunks : list (nat * string))
    (chunk_ids : list string) (chunk_metadatas : list Dict)
    : list string * list Dict :=
  match ichunks with
  | [] => (chunk_ids, chunk_metadatas)
  | (i, _) :: ichunks' =>
      metadata_loop doc_data doc_id total_chunks metadata ichunks'
        (chunk_ids ++ [chunk_id doc_id i])
        (chunk_metadatas
           ++ [chunk_metadata doc_data doc_id i total_chunks metadata])
  end.

(** The registry entry of a document; the caller's entries are spliced
    in last. *)
Definition document_record (doc_data : DocData) (doc_id upload_date : string)
    (chunks_count : nat) (metadata : Dict) : Dict :=
  dict_merge
    (<[ "chunks_count" := PInt (Z.of_nat chunks_count) ]>
     (<[ "upload_date" := PStr upload_date ]>
      (<[ "size" := PInt (dd_size doc_data) ]>
       (<[ "file_type" := PStr (dd_file_type doc_data) ]>
        (<[ "filename" := PStr (dd_filename doc_data) ]>
         (<[ "id" := PStr doc_id ]> ∅))))))
    metadata.

Definition no_content_error : exn :=
  ValueError "No text content could be extracted from the document".

Definition insufficient_knowledge : string :=
  "I don't have enough information in the knowledge base to answer this question. Please upload relevant documents first.".

Definition insufficient_answer : QueryAnswer :=
  {| answer := insufficient_knowledge; sources := []; context_used := false |}.

(** [document[:200] + "..." if len(document) > 200 else document] *)
Definition preview (document : string) : string :=
  if (200 <? len document)%Z
  then String.substring 0 200 document +:+ "..."
  else document.

Definition source_entry (result : SearchHit) : Source :=
  {| document_name := dict_get (hit_metadata result) "source" (PStr "Unknown");
     content := preview (hit_document result);
     relevance_score := (1 - hit_distance result)%Q |}.

Definition context_part (i : nat) (result : SearchHit) : string :=
  "[Source " +:+ pretty i +:+ "]: " +:+ hit_document result.

(** The loop [for i, result in enumerate(search_results, 1)] of [query]. *)
Fixpoint context_loop (iresults : list (nat * SearchHit))
    (context_parts : list string) (sources : list Source)
    : list string * list Source :=
  match iresults with
  | [] => (context_parts, sources)
  | (i, result) :: iresults' =>
      context_loop iresults'
        (context_parts ++ [context_part i result])
        (sources ++ [source_entry result])
  end.

Definition nl : string := String newline EmptyString.

Definition prompt_head : string :=
  "You are a helpful AI assistant for QSS Technosoft. Answer the user's question based on the following context from the company documents."
  +:+ nl +:+ nl +:+ "Context:" +:+ nl.

Definition prompt_instructions : string :=
  "Instructions:" +:+ nl
  +:+ "- First, determine if the question is related to QSS Technosoft, the company's services, products, or business" +:+ nl
  +:+ "- If the question is NOT related to QSS Technosoft (e.g., general knowledge questions, unrelated topics), respond with: "
  +:+ dquote +:+ "This question is not related to QSS Technosoft. Please ask questions about our company, services, products, or business operations." +:+ dquote +:+ nl
  +:+ "- If the question IS related to QSS Technosoft but the context doesn't have the answer, respond with: "
  +:+ dquote +:+ "I don't have specific information about this in the available documents. Please contact QSS Technosoft directly for more details." +:+ dquote +:+ nl
  +:+ "- For valid company-related questions with available information:" +:+ nl
  +:+ "  - Provide a direct, clear and concise answer based on the context provided" +:+ nl
  +:+ "  - Format your answer using bullet points (using - or *) when listing multiple items or facts" +:+ nl
  +:+ "  - For single fact answers, you can respond in a sentence without bullets" +:+ nl
  +:+ "  - Do NOT mention sources, source numbers, or where the information came from" +:+ nl
  +:+ "  - Do NOT use phrases like " +:+ dquote +:+ "according to" +:+ dquote
  +:+ ", " +:+ dquote +:+ "mentioned in" +:+ dquote
  +:+ ", " +:+ dquote +:+ "as stated in" +:+ dquote
  +:+ ", " +:+ dquote +:+ "this document" +:+ dquote
  +:+ ", or similar references" +:+ nl
  +:+ "  - Answer naturally as if you are stating a fact" +:+ nl
  +:+ "- Maintain a professional and helpful tone" +:+ nl +:+ nl
  +:+ "Answer:".

Definition make_prompt (context question : string) : string :=
  prompt_head +:+ context +:+ nl +:+ nl
  +:+ "Question: " +:+ question +:+ nl +:+ nl
  +:+ prompt_instructions.

Record CollectionStats := {
  total_documents : nat;
  total_chunks : Z;
  stats_collection_name : string
}.

Section WithCollaborators.
Context `{Collaborators}.

Definition initialize : M unit :=
  initialized <- gets rag_initialized ;;
  if initialized then ret tt
  else
    modify (set_rag_embeddings (Some tt)) ;;;
    modify (set_rag_llm (Some tt)) ;;;
    VectorStoreService.initialize
      (chroma_db_path settings) (collection_name settings) ;;;
    modify (set_rag_initialized true).

(** [if not self.initialized: await self.initialize()] *)
Definition ensure_initialized : M unit :=
  initialized <- gets rag_initialized ;;
  when (negb initialized) initialize.

(** [self.embeddings.embed_documents(texts)] *)
Definition embeddings_embed_documents (texts : list string)
    : M (list Embedding) :=
  client <- gets rag_embeddings ;;
  match client with
  | Some _ =>
      fun w => (embed_documents texts, log_call (EvEmbedDocuments texts) w)
  | None =>
      raise (AttributeError "'NoneType' object has no attribute 'embed_documents'")
  end.

(** [self.embeddings.embed_query(question)] *)
Definition embeddings_embed_query (question : string) : M Embedding :=
  client <- gets rag_embeddings ;;
  match client with
  | Some _ =>
      fun w => (embed_query_vector question, log_call (EvEmbedQuery question) w)
  | None =>
      raise (AttributeError "'NoneType' object has no attribute 'embed_query'")
  end.

(** [self.llm.invoke(prompt).content] *)
Definition llm_invoke_content (prompt : string) : M string :=
  client <- gets rag_llm ;;
  match client with
  | Some _ => fun w => (llm_invoke prompt, log_call (EvInvoke prompt) w)
  | None =>
      raise (AttributeError "'NoneType' object has no attribute 'invoke'")
  end.

(** [str(uuid.uuid4())] *)
Definition uuid4 : M string :=
  fun w => (Ok (uuid4_str (uuid_count w)),
            set_uuid_count (S (uuid_count w)) w).

(** [datetime.now().isoformat()] *)
Definition datetime_now_isoformat : M string :=
  fun w => (Ok (isoformat_now (clock w)), set_clock (S (clock w)) w).

Definition document_processor_chunk_text
    : string -> Z -> Z -> M (list string) :=
  DocumentProcessor.chunk_text TextSplitter.split_text.

Definition add_document (document_path : string) (metadata : Dict)
    : M string :=
  ensure_initialized ;;;
  doc_data <- lift (process_file document_path) ;;
  chunks <- document_processor_chunk_text (dd_text doc_data)
              (chunk_size settings) (chunk_overlap settings) ;;
  match chunks with
  | [] => raise no_content_error
  | _ =>
      doc_id <- uuid4 ;;
      chunk_embeddings <- embeddings_embed_documents chunks ;;
      let '(chunk_ids, chunk_metadatas) :=
        metadata_loop doc_data doc_id (length chunks) metadata
          (enumerate 0 chunks) [] [] in
      VectorStoreService.add_documents
        chunks chunk_embeddings chunk_metadatas chunk_ids ;;;
      upload_date <- datetime_now_isoformat ;;
      modify (fun w =>
        set_documents_metadata
          (<[ doc_id := document_record doc_data doc_id upload_date
                          (length chunks) metadata ]>
             (documents_metadata w)) w) ;;;
      ret doc_id
  end.

Definition query (question : string) (top_k : nat) : M QueryAnswer :=
  ensure_initialized ;;;
  query_embedding <- embeddings_embed_query question ;;
  search_results <-
    VectorStoreService.similarity_search query_embedding top_k None ;;
  match search_results with
  | [] => ret insufficient_answer
  | _ =>
      let '(context_parts, sources) :=
        context_loop (enumerate 1 search_results) [] [] in
      let context := join (nl +:+ nl) context_parts in
      let prompt := make_prompt context question in
      answer <- try_except (llm_invoke_content prompt)
                  (fun e => raise (Exception
                     ("Error generating response: " +:+ str_exn e))) ;;
      ret {| answer := answer; sources := sources; context_used := true |}
  end.

(** [vector_store.collection.get(where={"document_id": document_id})] *)
Definition collection_get_by_document (document_id : string) : M GetResult :=
  collection <- gets vs_collection ;;
  let where_ : Dict := {[ "document_id" := PStr document_id ]} in
  match collection with
  | Some _ => Chroma.read (EvGet where_) (Chroma.get where_)
  | None => raise (AttributeError "'NoneType' object has no attribute 'get'")
  end.

Definition delete_document (document_id : string) : M unit :=
  ensure_initialized ;;;
  all_data <- collection_get_by_document document_id ;;
  match gr_ids all_data with
  | Some ids =>
      when (0 <? length ids)%nat (VectorStoreService.delete_documents ids)
  | None => ret tt
  end ;;;
  registry <- gets documents_metadata ;;
  when (bool_decide (is_Some (registry !! document_id)))
    (modify (fun w =>
       set_documents_metadata (delete document_id (documents_metadata w)) w)).

Definition get_all_documents : M (list Dict) :=
  ensure_initialized ;;;
  registry <- gets documents_metadata ;;
  ret (snd <$> map_to_list registry).

Definition get_document_by_id (document_id : string) : M (option Dict) :=
  ensure_initialized ;;;
  registry <- gets documents_metadata ;;
  ret (registry !! document_id).

Definition get_collection_stats : M CollectionStats :=
  ensure_initialized ;;;
  info <- VectorStoreService.get_collection_info ;;
  registry <- gets documents_metadata ;;
  ret {| total_documents := size registry;
         total_chunks := VectorStoreService.info_count info;
         stats_collection_name := VectorStoreService.info_name info |}.
End WithCollaborators.

End RAGService.

(** ** The text extractor *)

(** What the libraries under [process_file] give for a path: [pathlib] its
    name and suffix and the size of the file, [open] its text, the PDF
    reader the text of each page, the Word reader the text of each
    paragraph, the workbook reader its sheets in order, each with its name
    and its rows of cell values ([None] for an empty cell, otherwise what
    [str] prints for it), the CSV reader its rows.  A reader fails with the
    exception the library raises. *)
Record FileSystem := {
  path_name : string -> string;
  path_suffix : string -> string;
  st_size : string -> result Z;
  read_text : string -> result string;
  pdf_pages : string -> result (list string);
  docx_paragraphs : string -> result (list string);
  workbook_sheets :
    string -> result (list (string * list (list (option string))));
  csv_rows : string -> result (list (list string))
}.

Module FileExtraction.

(** [str.lower] on the code points below 256 *)
Definition lower_char (c : ascii) : ascii :=
  let n := nat_of_ascii c in
  if ((65 <=? n) && (n <=? 90)
      || (192 <=? n) && (n <=? 222) && negb (n =? 215))%nat
  then ascii_of_nat (n + 32) else c.

Fixpoint lower (s : string) : string :=
  match s with
  | EmptyString => EmptyString
  | String c s' => String (lower_char c) (lower s')
  end.

(** [bool(text.strip())] *)
Definition has_text (text : string) : bool :=
  match TextSplitter.strip (list_ascii_of_string text) with
  | [] => false
  | _ :: _ => true
  end.

Section WithFiles.
Variable fs : FileSystem.

Definition _process_pdf (file_path : string) : result (list string) :=
  result_bind (pdf_pages fs file_path) (fun pages =>
  Ok (List.filter has_text pages)).

Definition _process_docx (file_path : string) : result (list string) :=
  result_bind (docx_paragraphs fs file_path) (fun paragraphs =>
  let current_text := List.filter has_text paragraphs in
  Ok (match current_text with
      | [] => []
      | _ :: _ => [join RAGService.nl current_text]
      end)).

Definition _process_txt (file_path : string) : result (list string) :=
  result_bind (read_text fs file_path) (fun text =>
  Ok (if has_text text then [text] else [])).

(** [str(cell)] for a cell with a value, the empty string for [None] *)
Definition cell_text (cell : option string) : string :=
  match cell with
  | Some s => s
  | None => EmptyString
  end.

Definition sheet_text (sheet : string * list (list (option string)))
    : string :=
  let '(sheet_name, rows) := sheet in
  join RAGService.nl
    (("Sheet: " +:+ sheet_name)
     :: List.filter has_text
          ((fun row => join " | " (cell_text <$> row)) <$> rows)).

Definition _process_excel (file_path : string) : result (list string) :=
  result_bind (workbook_sheets fs file_path) (fun sheets =>
  Ok (sheet_text <$> sheets)).

Definition _process_csv (file_path : string) : result (list string) :=
  result_bind (csv_rows fs file_path) (fun csv_reader =>
  let rows := List.filter has_text (join " | " <$> csv_reader) in
  Ok [join RAGService.nl rows]).

Definition unsupported (file_extension : string) : exn :=
  ValueError ("Unsupported file format: " +:+ file_extension).

(** The dispatch on the extension. *)
Definition extract (file_path file_extension : string)
    : result (list string) :=
  if bool_decide (file_extension = ".pdf") then _process_pdf file_path
  else if bool_decide (file_extension = ".docx") then _process_docx file_path
  else if bool_decide (file_extension = ".txt") then _process_txt file_path
  else if bool_decide (file_extension ∈ [".xlsx"; ".xls"])
       then _process_excel file_path
  else if bool_decide (file_extension = ".csv") then _process_csv file_path
  else Raise (unsupported file_extension).

Definition processing_error (file_path : string) (e : exn) : exn :=
  Exception ("Error processing file " +:+ path_name fs file_path
             +:+ ": " +:+ str_exn e).

Definition process_file (file_path : string) : result DocData :=
  let file_extension := lower (path_suffix fs file_path) in
  match
    result_bind (extract file_path file_extension) (fun text_content =>
    let full_text := join (RAGService.nl +:+ RAGService.nl) text_content in
    result_bind (st_size fs file_path) (fun size =>
    Ok {| dd_text := full_text;
          dd_filename := path_name fs file_path;
          dd_file_type := file_extension;
          dd_size := size;
          dd_pages := if bool_decide (file_extension = ".pdf")
                      then Some (Z.of_nat (length text_content))
                      else None |}))
  with
  | Ok doc_data => Ok doc_data
  | Raise e => Raise (processing_error file_path e)
  end.

End WithFiles.

End FileExtraction.

(** * Vocabulary of the statements *)

(** The method raises "not initialized" and changes nothing. *)
Definition fails_not_initialized {A} (m : M A) (w : World) : Prop :=
  m w = (Raise (RuntimeError "Vector store not initialized"), w).

(** The prompts sent to the generative model so far, and the batches
    written to the index so far. *)
Definition llm_calls (w : World) : list Event := List.filter is_invoke (calls w).

Definition index_writes (w : World) : list Event := List.filter is_add (calls w).

(** What the two [initialize] methods establish before they set their
    flag: an initialized access layer holds its collection, an initialized
    orchestrator holds its two clients and an initialized access layer. *)
Definition consistent (w : World) : Prop :=
  (vs_initialized w = true -> is_Some (vs_collection w))
  /\ (rag_initialized w = true ->
      is_Some (rag_embeddings w) /\ is_Some (rag_llm w)
      /\ vs_initialized w = true).

(** One record is ranked before another. *)
Definition closer (a b : Q * ChunkRecord) : Prop := (fst a <= fst b)%Q.

(** The ranked retrieval results as [similarity_search] formats them. *)
Definition hit_of (h : Q * ChunkRecord) : SearchHit :=
  {| hit_document := rec_document (snd h); hit_metadata := rec_metadata (snd h);
     hit_distance := fst h; hit_id := Some (rec_id (snd h)) |}.

Section Vocabulary.
Context `{Collaborators}.

(** The retrieval steps of [query]: lazy initialization, the embedding of
    the question, the similarity search. *)
Definition retrieve (question : string) (top_k : nat) : M (list SearchHit) :=
  RAGService.ensure_initialized ;;;
  query_embedding <- RAGService.embeddings_embed_query question ;;
  VectorStoreService.similarity_search query_embedding top_k None.

(** The steps of [query] after a retrieval that found something. *)
Definition context_of (search_results : list SearchHit) : string :=
  join (RAGService.nl +:+ RAGService.nl)
    (imap (fun i => RAGService.context_part (S i)) search_results).

Definition prompt_of (question : string) (search_results : list SearchHit)
    : string :=
  RAGService.make_prompt (context_of search_results) question.

(** The steps of [add_document] up to the chunks. *)
Definition extract_and_chunk (document_path : string)
    : M (DocData * list string) :=
  RAGService.ensure_initialized ;;;
  doc_data <- lift (process_file document_path) ;;
  chunks <- RAGService.document_processor_chunk_text (dd_text doc_data)
              (chunk_size settings) (chunk_overlap settings) ;;
  ret (doc_data, chunks).

(** [get_by_filter({document_id})] on the store of a world. *)
Definition chunks_of_document (document_id : string) (w : World)
    : result GetResult :=
  Chroma.get {[ "document_id" := PStr document_id ]} (chroma w).
End Vocabulary.

(** The result dictionary of a query with one embedding. *)
Definition result_of (hits : list (Q * ChunkRecord)) : QueryResult :=
  {| qr_ids := Some [(fun h => rec_id (snd h)) <$> hits];
     qr_documents := [(fun h => rec_document (snd h)) <$> hits];
     qr_metadatas := [(fun h => rec_metadata (snd h)) <$> hits];
     qr_distances := [fst <$> hits] |}.

(** The records one ingestion hands to the index. *)
Definition ingested_records (doc_data : DocData) (doc_id : string)
    (metadata : Dict) (chunks : list string) (embeddings : list Embedding)
    : list ChunkRecord :=
  Chroma.make_records chunks embeddings
    (imap (fun i _ =>
             RAGService.chunk_metadata doc_data doc_id i (length chunks) metadata)
          chunks)
    (imap (fun i _ => RAGService.chunk_id doc_id i) chunks).

(** The ids [get] resolves for a filter. *)
Definition matching_ids (where_ : Dict) (db : ChromaDB) : list string :=
  rec_id <$> List.filter (Chroma.matches_where where_) (db_records db).

Definition no_records : GetResult := {| gr_ids := Some []; gr_metadatas := [] |}.

(** A text of white space only, the empty one included: [text.strip()] is
    empty. *)
Definition blank (s : list ascii) : Prop :=
  Forall (fun c => TextSplitter.is_space c = true) s.

Definition whitespace_only (text : string) : Prop :=
  blank (list_ascii_of_string text).

(** [text.strip()] *)
Definition stripped (text : string) : string :=
  string_of_list_ascii (TextSplitter.strip (list_ascii_of_string text)).

(** The states of the document processor: as [__init__] leaves it, and
    after any call of [chunk_text]. *)
Inductive processor_state
    (split : Splitter -> string -> result (list string)) : World -> Prop :=
| processor_new w :
    text_splitter w = None -> processor_state split w
| processor_chunked w text chunk_size chunk_overlap :
    processor_state split w ->
    processor_state split
      (snd (DocumentProcessor.chunk_text split text chunk_size chunk_overlap w)).

(** The cached splitter is one [chunk_text] constructed. *)
Definition cache_constructed (w : World) : Prop :=
  forall s,
    text_splitter w = Some s ->
    TextSplitter.new (_chunk_size s) (_chunk_overlap s)
      DocumentProcessor.separators = Ok s.

Definition valid_sizes (chunk_size chunk_overlap : Z) : Prop :=
  (0 < chunk_overlap /\ chunk_overlap < chunk_size)%Z.

(** ** Vocabulary of the further properties *)

(** The world a successful ingestion leaves, from the world left by
    extraction and chunking. *)
Definition ingested_world `{Collaborators} (doc_data : DocData)
    (chunks : list string) (metadata : Dict) (db' : ChromaDB) (w0 : World)
    : World :=
  let doc_id := uuid4_str (uuid_count w0) in
  let ids := imap (fun i _ => RAGService.chunk_id doc_id i) chunks in
  let w1 := log_call (EvEmbedDocuments chunks)
              (set_uuid_count (S (uuid_count w0)) w0) in
  let w2 := log_call (EvAdd ids) (set_chroma db' w1) in
  let w3 := set_clock (S (clock w2)) w2 in
  set_documents_metadata
    (<[ doc_id := RAGService.document_record doc_data doc_id
                    (isoformat_now (clock w2)) (length chunks) metadata ]>
       (documents_metadata w3)) w3.

(** The deletions asked of the index so far. *)
Definition is_delete (e : Event) : bool :=
  match e with EvDelete _ => true | _ => false end.

Definition index_deletes (w : World) : list Event :=
  List.filter is_delete (calls w).

(** What [xs[i]] raises past the end of a list. *)
Definition out_of_range : exn := IndexError "list index out of range".

(** The collaborators whose text extractor is [process_file] over a file
    system. *)
Definition reading (fs : FileSystem) (C : Collaborators) : Collaborators :=
  {| settings := @settings C;
     process_file := FileExtraction.process_file fs;
     embed_documents := @embed_documents C;
     embed_query_vector := @embed_query_vector C;
     llm_invoke := @llm_invoke C;
     distance := @distance C;
     uuid4_str := @uuid4_str C;
     isoformat_now := @isoformat_now C |}.

(** The extensions [process_file] has a reader for. *)
Definition supported_extensions : list string :=
  [".pdf"; ".docx"; ".txt"; ".xlsx"; ".xls"; ".csv"].

(** A file no reader finds text in: a text file of white space only, a
    PDF whose pages all are, a Word document whose paragraphs all are, a
    CSV file whose rows all are. *)
Definition without_text (fs : FileSystem) (file_path : string) : Prop :=
  let file_extension := FileExtraction.lower (path_suffix fs file_path) in
  (file_extension = ".txt"
   /\ exists text, read_text fs file_path = Ok text /\ whitespace_only text)
  \/ (file_extension = ".pdf"
      /\ exists pages,
           pdf_pages fs file_path = Ok pages /\ Forall whitespace_only pages)
  \/ (file_extension = ".docx"
      /\ exists paragraphs,
           docx_paragraphs fs file_path = Ok paragraphs
           /\ Forall whitespace_only paragraphs)
  \/ (file_extension = ".csv"
      /\ exists rows,
           csv_rows fs file_path = Ok rows
           /\ Forall (fun row => whitespace_only (join " | " row)) rows).

(** * A concrete deployment *)

(** Collaborators small enough to run: a file system with three files, an
    embedding that places a text on a line by its length, the absolute
    difference as distance, a model with one answer. *)
Module Scenario.

Definition handbook_text : string :=
  "alpha beta" +:+ RAGService.nl +:+ RAGService.nl
  +:+ "gamma delta" +:+ RAGService.nl +:+ RAGService.nl
  +:+ "epsilon zeta".

Definition files (path : string) : result DocData :=
  if bool_decide (path = "handbook.txt")
  then Ok {| dd_text := handbook_text; dd_filename := "handbook.txt";
             dd_file_type := ".txt"; dd_size := 37; dd_pages := None |}
  else if bool_decide (path = "blank.txt")
  then Ok {| dd_text := "   "; dd_filename := "blank.txt";
             dd_file_type := ".txt"; dd_size := 3; dd_pages := None |}
  else Raise (Exception "Error processing file").

Definition line_distance (a b : Embedding) : Q :=
  match a, b with
  | [x], [y] => if Qle_bool x y then (y - x)%Q else (x - y)%Q
  | _, _ => 2%Q
  end.

#[export] Instance collaborators : Collaborators :=
  {| settings :=
       {| chroma_db_path := "./chroma_db";
          collection_name := "company_documents";
          chunk_size := 16; chunk_overlap := 2; top_k_results := 5 |};
     process_file := files;
     embed_documents := fun texts => Ok ((fun t => [inject_Z (len t)]) <$> texts);
     embed_query_vector := fun _ => Ok [0%Q];
     llm_invoke := fun _ => Ok "Twenty days.";
     distance := line_distance;
     uuid4_str := fun n => "doc-" +:+ pretty n;
     isoformat_now := fun n => "2024-01-01T00:00:0" +:+ pretty n |}.

Definition empty_store : ChromaDB :=
  {| db_available := true; db_records := [] |}.

Definition long_text : string :=
  string_of_list_ascii (replicate 250 "x"%char).

Definition near : ChunkRecord :=
  {| rec_id := "doc-a_chunk_0"; rec_document := "Leave policy: twenty days.";
     rec_embedding := [0.1%Q];
     rec_metadata := {[ "source" := PStr "policy.txt" ]} |}.

Definition middle : ChunkRecord :=
  {| rec_id := "doc-a_chunk_1"; rec_document := "Remote work: two days a week.";
     rec_embedding := [0.3%Q];
     rec_metadata := {[ "source" := PStr "policy.txt" ]} |}.

Definition far : ChunkRecord :=
  {| rec_id := "doc-b_chunk_0"; rec_document := long_text;
     rec_embedding := [0.5%Q];
     rec_metadata := {[ "document_id" := PStr "doc-b" ]} |}.

Definition ranked_store : ChromaDB :=
  {| db_available := true; db_records := [middle; far; near] |}.

Definition question : string := "How many days of leave?".

Definition ranked_hits : list SearchHit :=
  [hit_of (0.1%Q, near); hit_of (0.3%Q, middle); hit_of (0.5%Q, far)].

Definition upload_metadata : Dict :=
  <[ "status" := PStr "active" ]>
    (<[ "upload_date" := PStr "2024-01-01T00:00:00" ]> ∅).

(** The world after the handbook has been uploaded. *)
Definition after_upload : World :=
  snd (RAGService.add_document "handbook.txt" upload_metadata
         (fresh_world empty_store)).

End Scenario.

(** A file system with five files. *)
Module Disk.

Definition missing {A} (path : string) : result A :=
  Raise (ServiceError ("[Errno 2] No such file or directory: " +:+ path)).

Definition suffixes : list (string * string) :=
  [("blank.TXT", ".TXT"); ("legacy.doc", ".doc"); ("empty.xlsx", ".xlsx");
   ("table.csv", ".csv"); ("scan.pdf", ".pdf")].

Definition disk : FileSystem :=
  {| path_name := fun path => path;
     path_suffix := fun path =>
       default EmptyString
         (snd <$> List.find (fun e => bool_decide (e.1 = path)) suffixes);
     st_size := fun path =>
       if bool_decide (path ∈ suffixes.*1) then Ok 3%Z else missing path;
     read_text := fun path =>
       if bool_decide (path = "blank.TXT")
       then Ok (" " +:+ RAGService.nl +:+ " ") else missing path;
     pdf_pages := fun path =>
       if bool_decide (path = "scan.pdf")
       then Ok ["page one"; "  "; "page three"] else missing path;
     docx_paragraphs := fun path => missing path;
     workbook_sheets := fun path =>
       if bool_decide (path = "empty.xlsx")
       then Ok [("Budget", [[None]; []])] else missing path;
     csv_rows := fun path =>
       if bool_decide (path = "table.csv")
       then Ok [["name"; "days"]; [EmptyString; EmptyString]; ["leave"; "20"]]
       else missing path |}.

#[export] Instance collaborators : Collaborators :=
  reading disk Scenario.collaborators.

End Disk.

(** The deployment of [Scenario] while the generative model is out of
    quota, and its store while the storage is unreachable. *)
Module Outage.

Definition quota_exceeded : exn := ServiceError "429 quota exceeded".

Definition collaborators : Collaborators :=
  {| settings := @settings Scenario.collaborators;
     process_file := Scenario.files;
     embed_documents := @embed_documents Scenario.collaborators;
     embed_query_vector := @embed_query_vector Scenario.collaborators;
     llm_invoke := fun _ => Raise quota_exceeded;
     distance := Scenario.line_distance;
     uuid4_str := @uuid4_str Scenario.collaborators;
     isoformat_now := @isoformat_now Scenario.collaborators |}.

Definition unreachable (w : World) : World :=
  set_chroma {| db_available := false;
                db_records := db_records (chroma w) |} w.

End Outage.

(** * Properties *)

(** ** Running a method *)

Lemma bind_ok {A B} (m : M A) (k : A -> M B) w a w' :
  m w = (Ok a, w') -> bind m k w = k a w'.
Proof. intros Hm. unfold bind. by rewrite Hm. Qed.

Lemma bind_raise {A B} (m : M A) (k : A -> M B) w e w' :
  m w = (Raise e, w') -> bind m k w = (Raise e, w').
Proof. intros Hm. unfold bind. by rewrite Hm. Qed.

Lemma bind_inv_ok {A B} (m : M A) (k : A -> M B) w b w' :
  bind m k w = (Ok b, w') ->
  exists a w1, m w = (Ok a, w1) /\ k a w1 = (Ok b, w').
Proof.
  unfold bind. destruct (m w) as [[a|e] w1]; intros Hk; [eauto | discriminate].
Qed.

Lemma result_bind_inv_ok {A B} (r : result A) (k : A -> result B) b :
  result_bind r k = Ok b -> exists a, r = Ok a /\ k a = Ok b.
Proof. destruct r as [a|e]; simpl; intros Hk; [eauto | discriminate]. Qed.

(** ** The access layer before [initialize] *)

Section AccessLayer.
Context `{Collaborators}.

Lemma with_collection_uninitialized {A} (body : Collection -> M A) w :
  vs_initialized w = false ->
  VectorStoreService.with_collection body w
  = (Raise (RuntimeError "Vector store not initialized"), w).
Proof.
  intros Hinit. unfold VectorStoreService.with_collection, bind, gets.
  rewrite Hinit. by destruct (vs_collection w).
Qed.

Lemma with_collection_no_collection {A} (body : Collection -> M A) w :
  vs_collection w = None ->
  VectorStoreService.with_collection body w
  = (Raise (RuntimeError "Vector store not initialized"), w).
Proof.
  intros Hcoll. unfold VectorStoreService.with_collection, bind, gets.
  rewrite Hcoll. by destruct (vs_initialized w).
Qed.

Lemma with_collection_ready {A} (body : Collection -> M A) w c :
  vs_initialized w = true -> vs_collection w = Some c ->
  VectorStoreService.with_collection body w = body c w.
Proof.
  intros Hinit Hcoll. unfold VectorStoreService.with_collection, bind, gets.
  by rewrite Hinit, Hcoll.
Qed.

(** The module import leaves the access layer uninitialized. *)
Lemma fresh_world_uninitialized db : vs_initialized (fresh_world db) = false.
Proof. reflexivity. Qed.

(** Only a completed [initialize] sets the flag. *)
Lemma initialize_sets_flag dir name w r w' :
  VectorStoreService.initialize dir name w = (r, w') ->
  vs_initialized w' = true -> vs_initialized w = true \/ r = Ok tt.
Proof.
  unfold VectorStoreService.initialize, bind, gets, modify.
  destruct (vs_initialized w) eqn:Hinit; [by left |].
  destruct (Chroma.persistent_client dir (chroma w)) as [[]|e]; simpl.
  - destruct (Chroma.get_or_create_collection _ _ _) as [c|e]; simpl;
      intros [= <- <-]; simpl; intros Hflag; [by right | congruence].
  - intros [= <- <-] Hflag. congruence.
Qed.

(** C9. Before [initialize] has completed, every operation of the vector
    index access layer (add, similarity search, delete, collection info
    with its count, clear, list ids, ids by source) raises the error
    "Vector store not initialized" and leaves the world, the index and
    the record of collaborator calls included, as it was. *)
Theorem operations_before_initialize_fail w :
  vs_initialized w = false ->
  (forall documents embeddings metadatas ids,
     fails_not_initialized
       (VectorStoreService.add_documents documents embeddings metadatas ids) w)
  /\ (forall query_embedding top_k filter_dict,
        fails_not_initialized
          (VectorStoreService.similarity_search
             query_embedding top_k filter_dict) w)
  /\ (forall document_ids,
        fails_not_initialized
          (VectorStoreService.delete_documents document_ids) w)
  /\ fails_not_initialized VectorStoreService.get_collection_info w
  /\ fails_not_initialized VectorStoreService.clear_collection w
  /\ fails_not_initialized VectorStoreService.get_all_document_ids w
  /\ (forall source_filename,
        fails_not_initialized
          (VectorStoreService.get_documents_by_source source_filename) w).
Proof.
  intros Hinit. unfold fails_not_initialized.
  repeat split; intros; by apply with_collection_uninitialized.
Qed.

End AccessLayer.

(** ** Lazy initialization *)

Section Initialization.
Context `{Collaborators}.

(** Whatever its outcome, initialization touches neither the store, the
    registry, the splitter cache, nor the record of calls. *)
Lemma ensure_initialized_frame w r w' :
  RAGService.ensure_initialized w = (r, w') ->
  chroma w' = chroma w /\ calls w' = calls w
  /\ documents_metadata w' = documents_metadata w
  /\ text_splitter w' = text_splitter w
  /\ uuid_count w' = uuid_count w /\ clock w' = clock w.
Proof.
  unfold RAGService.ensure_initialized, RAGService.initialize,
    VectorStoreService.initialize, when, bind, gets, modify, ret.
  destruct (rag_initialized w) eqn:Hrag; simpl.
  { by intros [= <- <-]. }
  rewrite Hrag. simpl.
  destruct (vs_initialized w) eqn:Hvs; simpl.
  { by intros [= <- <-]. }
  destruct (Chroma.persistent_client _ _) as [[]|e]; simpl.
  - destruct (Chroma.get_or_create_collection _ _ _) as [c|e]; simpl;
      by intros [= <- <-].
  - by intros [= <- <-].
Qed.

Lemma ensure_initialized_consistent w w' :
  consistent w ->
  RAGService.ensure_initialized w = (Ok tt, w') ->
  consistent w' /\ rag_initialized w' = true.
Proof.
  intros [Hvs Hrag].
  unfold RAGService.ensure_initialized, RAGService.initialize,
    VectorStoreService.initialize, when, bind, gets, modify, ret.
  destruct (rag_initialized w) eqn:Erag; simpl.
  { intros [= <-]. unfold consistent. rewrite Erag. intuition (eauto; congruence). }
  rewrite Erag. simpl.
  destruct (vs_initialized w) eqn:Evs; simpl.
  { intros [= <-]. unfold consistent. simpl. rewrite Evs. intuition (eauto; congruence). }
  destruct (Chroma.persistent_client _ _) as [[]|e]; simpl; [| done].
  destruct (Chroma.get_or_create_collection _ _ _) as [c|e]; simpl; [| done].
  intros [= <-]. unfold consistent. simpl. intuition (eauto; congruence).
Qed.

Lemma ensure_initialized_available w :
  consistent w -> db_available (chroma w) = true ->
  exists w', RAGService.ensure_initialized w = (Ok tt, w').
Proof.
  intros [Hvs Hrag] Hdb.
  unfold RAGService.ensure_initialized, RAGService.initialize,
    VectorStoreService.initialize, when, bind, gets, modify, ret,
    Chroma.persistent_client, Chroma.get_or_create_collection.
  destruct (rag_initialized w) eqn:Erag; simpl; [eauto |].
  rewrite Erag. simpl.
  destruct (vs_initialized w) eqn:Evs; simpl; [eauto |].
  rewrite Hdb. simpl. eauto.
Qed.

Lemma ensure_initialized_ready w :
  rag_initialized w = true -> RAGService.ensure_initialized w = (Ok tt, w).
Proof.
  intros Hrag. unfold RAGService.ensure_initialized, when, bind, gets.
  by rewrite Hrag.
Qed.

Lemma fresh_world_consistent db : consistent (fresh_world db).
Proof. split; simpl; intros; discriminate. Qed.

End Initialization.

(** ** Retrieval *)

Section Retrieval.
Context `{Collaborators}.

Lemma embed_query_calls question w r w' :
  RAGService.embeddings_embed_query question w = (r, w') ->
  llm_calls w' = llm_calls w /\ chroma w' = chroma w
  /\ documents_metadata w' = documents_metadata w.
Proof.
  unfold RAGService.embeddings_embed_query, bind, gets, raise.
  destruct (rag_embeddings w); by intros [= <- <-].
Qed.

Lemma similarity_search_calls query_embedding top_k filter_dict w r w' :
  VectorStoreService.similarity_search query_embedding top_k filter_dict w
  = (r, w') ->
  llm_calls w' = llm_calls w /\ chroma w' = chroma w
  /\ documents_metadata w' = documents_metadata w.
Proof.
  unfold VectorStoreService.similarity_search,
    VectorStoreService.with_collection, VectorStoreService.not_initialized,
    Chroma.read, bind, gets, raise, lift.
  destruct (vs_initialized w), (vs_collection w); simpl;
    try by intros [= <- <-].
  destruct (Chroma.query _ _ _ _); by intros [= <- <-].
Qed.

(** Retrieval never reaches the generative model and never writes. *)
Lemma retrieve_calls question top_k w r w' :
  retrieve question top_k w = (r, w') ->
  llm_calls w' = llm_calls w /\ chroma w' = chroma w
  /\ documents_metadata w' = documents_metadata w.
Proof.
  unfold retrieve, bind.
  destruct (RAGService.ensure_initialized w) as [r0 w0] eqn:Hinit.
  apply ensure_initialized_frame in Hinit as (Hdb0 & Hcalls0 & Hreg0 & _).
  assert (llm_calls w0 = llm_calls w) as Hllm0
    by (unfold llm_calls; by rewrite Hcalls0).
  destruct r0 as [[]|e0].
  2: { intros [= <- <-]. done. }
  destruct (RAGService.embeddings_embed_query question w0)
    as [r1 w1] eqn:Hembed.
  apply embed_query_calls in Hembed as (Hllm1 & Hdb1 & Hreg1).
  destruct r1 as [qe|e1].
  2: { intros [= <- <-]. repeat split; congruence. }
  intros Hsearch.
  apply similarity_search_calls in Hsearch as (Hllm2 & Hdb2 & Hreg2).
  repeat split; congruence.
Qed.

Lemma query_retrieve_raise question top_k w e w' :
  retrieve question top_k w = (Raise e, w') ->
  RAGService.query question top_k w = (Raise e, w').
Proof.
  unfold retrieve, RAGService.query, bind.
  destruct (RAGService.ensure_initialized w) as [[[]|e0] w0];
    [| by intros [= -> ->]].
  destruct (RAGService.embeddings_embed_query question w0)
    as [[qe|e1] w1]; [| by intros [= -> ->]].
  by intros ->.
Qed.

Lemma query_retrieve_empty question top_k w w' :
  retrieve question top_k w = (Ok [], w') ->
  RAGService.query question top_k w = (Ok RAGService.insufficient_answer, w').
Proof.
  unfold retrieve, RAGService.query, bind.
  destruct (RAGService.ensure_initialized w) as [[[]|e0] w0]; [| by intros [= -> ->]].
  destruct (RAGService.embeddings_embed_query question w0)
    as [[qe|e1] w1]; [| by intros [= -> ->]].
  by intros ->.
Qed.

End Retrieval.

Section EmptyRetrieval.
Context `{Collaborators}.

(** C1. When the retrieval steps of a query return an empty result
    sequence, [query] returns the fixed insufficient-knowledge answer,
    the text spelled out below, with no sources and
    [context_used = False], in the world the retrieval left, and the
    generative model has not been invoked: the prompts sent to it are
    those sent before the query. *)
Theorem query_empty_retrieval question top_k w w' :
  retrieve question top_k w = (Ok [], w') ->
  RAGService.query question top_k w
  = (Ok {| answer :=
             "I don't have enough information in the knowledge base to answer this question. Please upload relevant documents first.";
           sources := []; context_used := false |}, w')
  /\ llm_calls w' = llm_calls w.
Proof.
  intros Hret. split.
  - by apply query_retrieve_empty.
  - by apply retrieve_calls in Hret as [? _].
Qed.
End EmptyRetrieval.

(** ** Ranking *)


Lemma insert_ranked_sorted x l :
  Sorted closer l -> Sorted closer (Chroma.insert_ranked x l).
Proof.
  induction 1 as [|y l Hl IH Hy]; simpl.
  - by repeat constructor.
  - destruct (Qle_bool (fst x) (fst y)) eqn:Hle.
    + apply Qle_bool_iff in Hle. by repeat constructor.
    + assert (closer y x) as Hyx.
      { unfold closer. apply Qlt_le_weak, Qnot_le_lt.
        intros Hxy. apply Qle_bool_iff in Hxy. congruence. }
      constructor; [done |].
      destruct Hy as [|z l' Hyz]; simpl.
      * by constructor.
      * destruct (Qle_bool (fst x) (fst z)); by constructor.
Qed.

Lemma rank_sorted l : StronglySorted closer (Chroma.rank l).
Proof.
  apply Sorted_StronglySorted.
  - intros a b c. unfold closer. apply Qle_trans.
  - induction l as [|x l IH]; simpl; [constructor | by apply insert_ranked_sorted].
Qed.

Lemma StronglySorted_take {A} (R : A -> A -> Prop) n (l : list A) :
  StronglySorted R l -> StronglySorted R (take n l).
Proof.
  intros Hl. revert n. induction Hl as [|x l Hl IH Hx]; intros [|n]; simpl;
    try constructor; [apply IH | by apply Forall_take].
Qed.

Lemma StronglySorted_lookup {A} (R : A -> A -> Prop) (l : list A) i j x y :
  StronglySorted R l -> (i < j)%nat ->
  l !! i = Some x -> l !! j = Some y -> R x y.
Proof.
  intros Hl. revert i j. induction Hl as [|z l Hl IH Hz]; intros i j Hij Hi Hj.
  - done.
  - destruct j as [|j]; [lia |]. destruct i as [|i]; simpl in *.
    + injection Hi as ->. eapply Forall_lookup_1 in Hz; [exact Hz | exact Hj].
    + eapply (IH i j); [lia | done | done].
Qed.

Section Search.
Context `{Collaborators}.

Lemma nearest_sorted q n where_ db :
  StronglySorted closer (Chroma.nearest q n where_ db).
Proof. unfold Chroma.nearest. apply StronglySorted_take, rank_sorted. Qed.

Lemma format_hit_result hits i h :
  hits !! i = Some h ->
  VectorStoreService.format_hit (result_of hits) i = Ok (hit_of h).
Proof.
  intros Hi. unfold VectorStoreService.format_hit, result_of, index. simpl.
  rewrite !list_lookup_fmap, Hi. reflexivity.
Qed.

Lemma format_loop_result hits n i acc :
  (i + n <= length hits)%nat ->
  VectorStoreService.format_loop (result_of hits) (seq i n) acc
  = Ok (acc ++ (hit_of <$> take n (drop i hits))).
Proof.
  revert i acc. induction n as [|n IH]; intros i acc Hlen; simpl.
  - by rewrite app_nil_r.
  - destruct (lookup_lt_is_Some_2 hits i) as [h Hh]; [lia |].
    rewrite (format_hit_result _ _ _ Hh). simpl.
    rewrite IH by lia. f_equal.
    rewrite <- app_assoc. f_equal. simpl.
    rewrite (drop_S _ _ _ Hh). reflexivity.
Qed.

Lemma format_results_result hits :
  VectorStoreService.format_results (result_of hits) = Ok (hit_of <$> hits).
Proof.
  unfold VectorStoreService.format_results. simpl.
  rewrite length_fmap.
  destruct hits as [|h hits]; [done |].
  change (0 <? length (h :: hits))%nat with true. cbv iota.
  rewrite format_loop_result by (simpl; lia).
  by rewrite drop_0, firstn_all.
Qed.

Lemma query_result q n where_ db :
  db_available db = true ->
  Chroma.query [q] n where_ db
  = Ok (result_of (Chroma.nearest q n (default ∅ where_) db)).
Proof. intros Hdb. unfold Chroma.query. by rewrite Hdb. Qed.

(** What a similarity search returns, when it returns: the nearest
    matching records of the store, closest first. *)
Lemma similarity_search_inv query_embedding top_k filter_dict w hits w' :
  VectorStoreService.similarity_search query_embedding top_k filter_dict w
  = (Ok hits, w') ->
  hits = hit_of <$> Chroma.nearest query_embedding top_k
                      (default ∅ filter_dict) (chroma w)
  /\ w' = log_call (EvQuery top_k) w
  /\ db_available (chroma w) = true.
Proof.
  unfold VectorStoreService.similarity_search,
    VectorStoreService.with_collection, VectorStoreService.not_initialized,
    Chroma.read, bind, gets, raise, lift.
  destruct (vs_initialized w), (vs_collection w); simpl; try done.
  destruct (db_available (chroma w)) eqn:Hdb.
  - rewrite query_result by done. rewrite format_results_result.
    by intros [= <- <-].
  - unfold Chroma.query. rewrite Hdb. simpl. done.
Qed.

Lemma similarity_search_ready query_embedding top_k filter_dict w c :
  vs_initialized w = true -> vs_collection w = Some c ->
  db_available (chroma w) = true ->
  VectorStoreService.similarity_search query_embedding top_k filter_dict w
  = (Ok (hit_of <$> Chroma.nearest query_embedding top_k
                      (default ∅ filter_dict) (chroma w)),
     log_call (EvQuery top_k) w).
Proof.
  intros Hinit Hcoll Hdb.
  unfold VectorStoreService.similarity_search.
  rewrite (with_collection_ready _ _ _ Hinit Hcoll).
  unfold Chroma.read, bind, lift. simpl.
  rewrite query_result by done. by rewrite format_results_result.
Qed.

End Search.

(** ** Answers grounded in retrieved chunks *)

Lemma context_loop_spec iresults start search_results context_parts sources :
  iresults = RAGService.enumerate start search_results ->
  RAGService.context_loop iresults context_parts sources
  = (context_parts
       ++ imap (fun i => RAGService.context_part (start + i)) search_results,
     sources ++ (RAGService.source_entry <$> search_results)).
Proof.
  intros ->. revert start context_parts sources.
  induction search_results as [|hit hits IH]; intros start cp srcs; simpl.
  - by rewrite !app_nil_r.
  - rewrite IH, <- !app_assoc. simpl. rewrite Nat.add_0_r.
    do 3 f_equal. apply imap_ext. intros i x _. simpl. f_equal. lia.
Qed.

Lemma substring_prefix n s :
  (n <= String.length s)%nat ->
  exists rest, s = String.substring 0 n s +:+ rest
               /\ String.length (String.substring 0 n s) = n.
Proof.
  revert s. induction n as [|n IH]; intros s Hn.
  - exists s. by destruct s.
  - destruct s as [|c s]; simpl in Hn; [lia |].
    destruct (IH s) as (rest & Hs & Hlen); [lia |].
    exists rest. simpl. split; [| by rewrite Hlen].
    change (String c s = String c (String.substring 0 n s +:+ rest)).
    by f_equal.
Qed.

Section Grounded.
Context `{Collaborators}.

Lemma embed_query_inv question w qe w' :
  RAGService.embeddings_embed_query question w = (Ok qe, w') ->
  w' = log_call (EvEmbedQuery question) w
  /\ embed_query_vector question = Ok qe.
Proof.
  unfold RAGService.embeddings_embed_query, bind, gets, raise.
  destruct (rag_embeddings w); [| done]. by intros [= -> <-].
Qed.

Lemma retrieve_inv question top_k w hits w' :
  retrieve question top_k w = (Ok hits, w') ->
  exists w0 qe,
    RAGService.ensure_initialized w = (Ok tt, w0)
    /\ embed_query_vector question = Ok qe
    /\ hits = hit_of <$> Chroma.nearest qe top_k ∅ (chroma w)
    /\ w' = log_call (EvQuery top_k) (log_call (EvEmbedQuery question) w0).
Proof.
  intros Hret. unfold retrieve in Hret.
  apply bind_inv_ok in Hret as ([] & w0 & Hinit & Hret).
  apply bind_inv_ok in Hret as (qe & w1 & Hembed & Hsearch).
  apply embed_query_inv in Hembed as [-> Hqe].
  apply similarity_search_inv in Hsearch as (-> & -> & _).
  apply ensure_initialized_frame in Hinit as Hframe.
  destruct Hframe as (Hdb & _). simpl. rewrite Hdb. eauto 10.
Qed.

(** A query whose retrieval found chunks sends one prompt and returns
    what the model answers with one source per chunk, or the generation
    error. *)
Lemma query_grounded question top_k w hits w' :
  consistent w ->
  retrieve question top_k w = (Ok hits, w') ->
  hits <> [] ->
  RAGService.query question top_k w
  = (match llm_invoke (prompt_of question hits) with
     | Ok a =>
         Ok {| answer := a; sources := RAGService.source_entry <$> hits;
               context_used := true |}
     | Raise e =>
         Raise (Exception ("Error generating response: " +:+ str_exn e))
     end,
     log_call (EvInvoke (prompt_of question hits)) w').
Proof.
  intros Hw Hret Hhits.
  assert (is_Some (rag_llm w')) as [[] Hllm].
  { apply retrieve_inv in Hret as (w0 & qe & Hinit & _ & _ & ->).
    apply (ensure_initialized_consistent _ _ Hw) in Hinit as [[_ Hrag] Hready].
    simpl. by apply Hrag. }
  revert Hret. unfold retrieve, RAGService.query, bind.
  destruct (RAGService.ensure_initialized w) as [[[]|e0] w0]; [| done].
  destruct (RAGService.embeddings_embed_query question w0)
    as [[qe|e1] w1]; [| done].
  intros ->. destruct hits as [|hit hits]; [done |].
  rewrite (context_loop_spec _ 1 (hit :: hits)) by done.
  unfold try_except, RAGService.llm_invoke_content, bind, gets, ret, raise.
  rewrite Hllm. unfold prompt_of, context_of.
  change (fun i => RAGService.context_part (1 + i))
    with (fun i => RAGService.context_part (S i)).
  by destruct (llm_invoke _).
Qed.

End Grounded.

Section Scores.
Context `{Collaborators}.

(** C2. For a query whose retrieval is not empty and whose generation
    succeeds, the relevance score of every returned source is exactly
    [1 - distance] of the retrieved chunk at the same rank; the scores
    never increase along the ranks, the retrieval being ordered by
    ascending distance; and distances [0.1, 0.3, 0.5] give the scores
    [0.9, 0.7, 0.5]. *)
Theorem relevance_scores question top_k w hits w' a :
  consistent w ->
  retrieve question top_k w = (Ok hits, w') ->
  hits <> [] ->
  llm_invoke (prompt_of question hits) = Ok a ->
  exists r,
    RAGService.query question top_k w
    = (Ok r, log_call (EvInvoke (prompt_of question hits)) w')
    /\ relevance_score <$> sources r
       = (fun hit => (1 - hit_distance hit)%Q) <$> hits
    /\ (forall i j si sj,
          (i <= j)%nat ->
          (relevance_score <$> sources r) !! i = Some si ->
          (relevance_score <$> sources r) !! j = Some sj ->
          (sj <= si)%Q)
    /\ (hit_distance <$> hits = [0.1; 0.3; 0.5]%Q ->
        relevance_score <$> sources r = [0.9; 0.7; 0.5]%Q).
Proof.
  intros Hw Hret Hhits Hllm.
  pose proof (query_grounded _ _ _ _ _ Hw Hret Hhits) as Hq.
  rewrite Hllm in Hq. eexists. split; [exact Hq |]. simpl.
  assert (relevance_score <$> (RAGService.source_entry <$> hits)
          = (fun hit => (1 - hit_distance hit)%Q) <$> hits) as Hscores.
  { rewrite <- list_fmap_compose. reflexivity. }
  rewrite Hscores. split; [done |]. split.
  - intros i j si sj Hij Hi Hj.
    rewrite list_lookup_fmap in Hi, Hj.
    destruct (hits !! i) as [hi|] eqn:Ei; [| done].
    destruct (hits !! j) as [hj|] eqn:Ej; [| done].
    injection Hi as <-. injection Hj as <-.
    destruct (decide (i = j)) as [->|Hne].
    { assert (hi = hj) as -> by congruence. apply Qle_refl. }
    apply retrieve_inv in Hret as (w0 & qe & _ & _ & -> & _).
    rewrite list_lookup_fmap in Ei, Ej.
    destruct (Chroma.nearest qe top_k ∅ (chroma w) !! i) as [ri|] eqn:Ri;
      [| done].
    destruct (Chroma.nearest qe top_k ∅ (chroma w) !! j) as [rj|] eqn:Rj;
      [| done].
    injection Ei as <-. injection Ej as <-. simpl.
    assert (closer ri rj) as Hclose.
    { eapply (StronglySorted_lookup closer); [apply nearest_sorted | | done..].
      lia. }
    unfold closer in Hclose.
    unfold Qminus. apply Qplus_le_r. by apply Qopp_le_compat.
  - intros Hdist.
    rewrite (list_fmap_compose hit_distance (fun d => (1 - d)%Q)).
    unfold compose in *. by rewrite Hdist.
Qed.

End Scores.

Section Sources.
Context `{Collaborators}.

(** C6. For a query whose retrieval is not empty and whose generation
    succeeds, the source list has one entry per retrieved chunk, in
    retrieval order; the entry's document name is the [source] value of
    the chunk metadata, or "Unknown" when the key is absent; its content
    is the chunk text when that has at most 200 characters, and otherwise
    the first 200 characters of it followed by "...". *)
Theorem sources_follow_retrieval question top_k w hits w' a :
  consistent w ->
  retrieve question top_k w = (Ok hits, w') ->
  hits <> [] ->
  llm_invoke (prompt_of question hits) = Ok a ->
  exists r,
    RAGService.query question top_k w
    = (Ok r, log_call (EvInvoke (prompt_of question hits)) w')
    /\ length (sources r) = length hits
    /\ forall i hit,
         hits !! i = Some hit ->
         exists src,
           sources r !! i = Some src
           /\ document_name src
              = match hit_metadata hit !! "source" with
                | Some name => name
                | None => PStr "Unknown"
                end
           /\ ((len (hit_document hit) <= 200)%Z ->
               content src = hit_document hit)
           /\ ((200 < len (hit_document hit))%Z ->
               exists first rest,
                 hit_document hit = first +:+ rest
                 /\ String.length first = 200%nat
                 /\ content src = first +:+ "...").
Proof.
  intros Hw Hret Hhits Hllm.
  pose proof (query_grounded _ _ _ _ _ Hw Hret Hhits) as Hq.
  rewrite Hllm in Hq. eexists. split; [exact Hq |]. simpl.
  split; [by rewrite length_fmap |].
  intros i hit Hi. exists (RAGService.source_entry hit).
  split; [by rewrite list_lookup_fmap, Hi |].
  split; [done |]. simpl. unfold RAGService.preview, len. split.
  - intros Hshort.
    destruct (Z.ltb_spec 200 (Z.of_nat (String.length (hit_document hit))));
      [lia | done].
  - intros Hlong.
    destruct (Z.ltb_spec 200 (Z.of_nat (String.length (hit_document hit))));
      [| lia].
    destruct (substring_prefix 200 (hit_document hit)) as (rest & Hs & Hl);
      [lia |].
    eauto.
Qed.

End Sources.

(** ** Ingestion *)

Lemma metadata_loop_spec doc_data doc_id n metadata start chunks ids metas :
  RAGService.metadata_loop doc_data doc_id n metadata
    (RAGService.enumerate start chunks) ids metas
  = (ids ++ imap (fun i _ => RAGService.chunk_id doc_id (start + i)) chunks,
     metas ++ imap (fun i _ =>
                      RAGService.chunk_metadata doc_data doc_id (start + i) n
                        metadata) chunks).
Proof.
  revert start ids metas.
  induction chunks as [|c chunks IH]; intros start ids metas; simpl.
  - by rewrite !app_nil_r.
  - rewrite IH, <- !app_assoc. simpl. rewrite Nat.add_0_r.
    f_equal; do 2 f_equal; apply imap_ext; intros i x _; simpl;
      do 2 f_equal; lia.
Qed.

Lemma make_records_length documents embeddings metadatas ids :
  length documents = length ids -> length embeddings = length ids ->
  length metadatas = length ids ->
  length (Chroma.make_records documents embeddings metadatas ids) = length ids.
Proof.
  intros Hd He Hm. unfold Chroma.make_records.
  rewrite length_zip_with, !length_zip. lia.
Qed.

Lemma make_records_lookup documents embeddings metadatas ids i id d e m :
  ids !! i = Some id -> documents !! i = Some d ->
  embeddings !! i = Some e -> metadatas !! i = Some m ->
  Chroma.make_records documents embeddings metadatas ids !! i
  = Some {| rec_id := id; rec_document := d;
            rec_embedding := e; rec_metadata := m |}.
Proof.
  intros Hid Hd He Hm. unfold Chroma.make_records.
  apply lookup_zip_with_Some. exists (id, d), (e, m).
  split; [done |]. split; apply lookup_zip_with_Some; eauto.
Qed.

Lemma ingested_records_length doc_data doc_id metadata chunks embeddings :
  length embeddings = length chunks ->
  length (ingested_records doc_data doc_id metadata chunks embeddings)
  = length chunks.
Proof.
  intros He. unfold ingested_records.
  rewrite make_records_length; rewrite ?length_imap; done.
Qed.

Lemma ingested_records_lookup doc_data doc_id metadata chunks embeddings i :
  length embeddings = length chunks -> (i < length chunks)%nat ->
  exists chunk embedding,
    chunks !! i = Some chunk /\ embeddings !! i = Some embedding
    /\ ingested_records doc_data doc_id metadata chunks embeddings !! i
       = Some {| rec_id := RAGService.chunk_id doc_id i;
                 rec_document := chunk; rec_embedding := embedding;
                 rec_metadata :=
                   RAGService.chunk_metadata doc_data doc_id i
                     (length chunks) metadata |}.
Proof.
  intros He Hi.
  destruct (lookup_lt_is_Some_2 chunks i) as [c Hc]; [done |].
  destruct (lookup_lt_is_Some_2 embeddings i) as [e Hemb]; [lia |].
  exists c, e. split; [done |]. split; [done |].
  unfold ingested_records. apply make_records_lookup; try done.
  - by rewrite list_lookup_imap, Hc.
  - by rewrite list_lookup_imap, Hc.
Qed.

Lemma chroma_add_inv documents embeddings metadatas ids db db' :
  Chroma.add documents embeddings metadatas ids db = Ok db' ->
  length embeddings = length ids
  /\ db_records db'
     = db_records db ++ Chroma.make_records documents embeddings metadatas ids.
Proof.
  unfold Chroma.add.
  destruct (db_available db); simpl; [| done].
  destruct (Chroma.same_lengths _ _ _ _) eqn:Hlen; simpl; [| done].
  destruct (Chroma.fresh_ids _ _); simpl; [| done].
  intros [= <-]. simpl. split; [| done].
  unfold Chroma.same_lengths in Hlen.
  apply andb_prop in Hlen as [Hlen _]. apply andb_prop in Hlen as [_ Hlen].
  by apply bool_decide_eq_true in Hlen.
Qed.

Section Ingestion.
Context `{Collaborators}.

Lemma chunk_text_frame split text cs co w r w' :
  DocumentProcessor.chunk_text split text cs co w = (r, w') ->
  exists cached, w' = set_text_splitter cached w.
Proof.
  unfold DocumentProcessor.chunk_text, DocumentProcessor.rebuild, when,
    bind, gets, modify, lift, ret, raise.
  destruct w as [e l ri dm vc vcl vi ts db uc ck cl]. simpl.
  destruct ts as [s|]; simpl.
  - destruct (_ || _); simpl.
    + destruct (TextSplitter.new _ _ _) as [s'|err]; simpl;
        intros [= <- <-]; by eexists.
    + intros [= <- <-]. by exists (Some s).
  - destruct (TextSplitter.new _ _ _) as [s'|err]; simpl;
      intros [= <- <-]; by eexists.
Qed.

(** Extraction and chunking write nothing and call no collaborator. *)
Lemma extract_and_chunk_frame document_path w r w' :
  extract_and_chunk document_path w = (r, w') ->
  chroma w' = chroma w /\ calls w' = calls w
  /\ documents_metadata w' = documents_metadata w
  /\ uuid_count w' = uuid_count w /\ clock w' = clock w.
Proof.
  unfold extract_and_chunk, bind.
  destruct (RAGService.ensure_initialized w) as [r0 w0] eqn:Hinit.
  apply ensure_initialized_frame in Hinit as (Hdb & Hcalls & Hreg & _ & Hu & Hc).
  destruct r0 as [[]|e0]; [| by intros [= <- <-]].
  unfold lift. destruct (process_file document_path) as [d|e1];
    [| by intros [= <- <-]].
  unfold RAGService.document_processor_chunk_text.
  destruct (DocumentProcessor.chunk_text _ _ _ _ w0) as [r1 w1] eqn:Hchunk.
  apply chunk_text_frame in Hchunk as [cached ->].
  destruct r1; intros [= <- <-]; simpl; done.
Qed.

Lemma add_document_no_chunks document_path metadata w doc_data w' :
  extract_and_chunk document_path w = (Ok (doc_data, []), w') ->
  RAGService.add_document document_path metadata w
  = (Raise RAGService.no_content_error, w').
Proof.
  unfold extract_and_chunk, RAGService.add_document, bind.
  destruct (RAGService.ensure_initialized w) as [[[]|e0] w0]; [| done].
  unfold lift. destruct (process_file document_path) as [d|e1]; [| done].
  destruct (RAGService.document_processor_chunk_text _ _ _ w0)
    as [[chunks|e2] w1]; [| done].
  unfold ret. by intros [= -> -> ->].
Qed.

(** What a successful ingestion has done. *)
Lemma add_document_inv document_path metadata w doc_id w' :
  RAGService.add_document document_path metadata w = (Ok doc_id, w') ->
  exists doc_data chunks w0 embeddings,
    extract_and_chunk document_path w = (Ok (doc_data, chunks), w0)
    /\ chunks <> []
    /\ doc_id = uuid4_str (uuid_count w)
    /\ embed_documents chunks = Ok embeddings
    /\ length embeddings = length chunks
    /\ db_records (chroma w')
       = db_records (chroma w)
         ++ ingested_records doc_data doc_id metadata chunks embeddings
    /\ documents_metadata w'
       = <[ doc_id := RAGService.document_record doc_data doc_id
                        (isoformat_now (clock w)) (length chunks) metadata ]>
           (documents_metadata w).
Proof.
  unfold RAGService.add_document, bind.
  destruct (extract_and_chunk document_path w) as [r0 w0] eqn:Hchunk.
  pose proof (extract_and_chunk_frame _ _ _ _ Hchunk)
    as (Hdb & Hcalls & Hreg & Hu & Hc).
  revert Hchunk. unfold extract_and_chunk, bind.
  destruct (RAGService.ensure_initialized w) as [[[]|e0] wi]; [| done].
  unfold lift. destruct (process_file document_path) as [d|e1]; [| done].
  destruct (RAGService.document_processor_chunk_text _ _ _ wi)
    as [[chunks|e2] w1]; [| done].
  unfold ret. intros [= <- <-].
  destruct chunks as [|c chunks]; [done |].
  assert (c :: chunks <> []) as Hne by done.
  remember (c :: chunks) as cs eqn:Hcs. clear Hcs.
  unfold RAGService.uuid4.
  unfold RAGService.embeddings_embed_documents, bind, gets, raise.
  cbn [rag_embeddings set_uuid_count]. destruct (rag_embeddings w1); [| done].
  destruct (embed_documents cs) as [embs|e3] eqn:Hemb; [| done].
  rewrite (metadata_loop_spec _ _ _ _ 0 cs [] []). simpl app.
  unfold VectorStoreService.add_documents,
    VectorStoreService.with_collection, VectorStoreService.not_initialized,
    Chroma.write, bind, gets, raise.
  cbn [vs_initialized vs_collection chroma set_uuid_count log_call].
  destruct (vs_initialized w1), (vs_collection w1); try done.
  destruct (Chroma.add _ _ _ _ _) as [db'|e4] eqn:Hadd; [| done].
  unfold RAGService.datetime_now_isoformat, modify, ret. simpl.
  intros [= <- <-]. simpl.
  apply chroma_add_inv in Hadd as [Hlen Hrecs].
  rewrite length_imap in Hlen.
  exists d, cs, w1, embs. simpl in Hrecs.
  rewrite Hrecs, Hu, Hc, Hreg, Hdb. repeat split; done.
Qed.

End Ingestion.

Lemma dict_merge_override (base overrides : Dict) key value :
  overrides !! key = Some value ->
  dict_merge base overrides !! key = Some value.
Proof. intros Hk. unfold dict_merge. by apply lookup_union_Some_l. Qed.

Lemma dict_merge_keep (base overrides : Dict) key :
  overrides !! key = None ->
  dict_merge base overrides !! key = base !! key.
Proof. intros Hk. unfold dict_merge. by apply lookup_union_r. Qed.

Section IngestionClaims.
Context `{Collaborators}.

(** C3. When chunking yields no chunk, [add_document] raises the
    validation error "No text content could be extracted from the
    document"; the registry and the vector index are what they were
    before the call, and no collaborator, the index included, has been
    called. *)
Theorem ingestion_without_chunks_fails document_path metadata w doc_data w' :
  extract_and_chunk document_path w = (Ok (doc_data, []), w') ->
  RAGService.add_document document_path metadata w
  = (Raise (ValueError "No text content could be extracted from the document"),
     w')
  /\ documents_metadata w' = documents_metadata w
  /\ chroma w' = chroma w
  /\ index_writes w' = index_writes w
  /\ calls w' = calls w.
Proof.
  intros Hchunk. split; [by eapply add_document_no_chunks |].
  apply extract_and_chunk_frame in Hchunk as (Hdb & Hcalls & Hreg & _).
  unfold index_writes. rewrite Hcalls. done.
Qed.

(** C4, as amended. For every successful ingestion producing [n] chunks,
    whatever the caller metadata: the index gains exactly [n] records and
    the [i]-th has the id "{document_id}_chunk_{i}" and the chunk as its
    text, for every [i] in [0, n).  The [i]-th record has
    [chunk_index = i] when the caller metadata has no [chunk_index] key
    and [total_chunks = n] when it has no [total_chunks] key; the document
    registered under the returned id has [chunks_count = n] when the
    caller metadata has no [chunks_count] key. *)
Theorem ingestion_numbers_chunks document_path metadata w doc_id w' :
  RAGService.add_document document_path metadata w = (Ok doc_id, w') ->
  exists doc_data chunks w0 new,
    extract_and_chunk document_path w = (Ok (doc_data, chunks), w0)
    /\ (0 < length chunks)%nat
    /\ db_records (chroma w') = db_records (chroma w) ++ new
    /\ length new = length chunks
    /\ (forall i,
          (i < length chunks)%nat ->
          exists r,
            new !! i = Some r
            /\ rec_id r = doc_id +:+ "_chunk_" +:+ pretty i
            /\ chunks !! i = Some (rec_document r)
            /\ (metadata !! "chunk_index" = None ->
                rec_metadata r !! "chunk_index" = Some (PInt (Z.of_nat i)))
            /\ (metadata !! "total_chunks" = None ->
                rec_metadata r !! "total_chunks"
                = Some (PInt (Z.of_nat (length chunks)))))
    /\ exists document,
         documents_metadata w' !! doc_id = Some document
         /\ (metadata !! "chunks_count" = None ->
             document !! "chunks_count"
             = Some (PInt (Z.of_nat (length chunks)))).
Proof.
  intros Hadd.
  apply add_document_inv in Hadd
    as (d & chunks & w0 & embs & Hchunk & Hne & -> & Hemb & Hlen & Hrecs & Hreg).
  exists d, chunks, w0, (ingested_records d (uuid4_str (uuid_count w))
                           metadata chunks embs).
  split; [done |]. split; [destruct chunks; simpl; [done | lia] |].
  split; [done |]. split; [by apply ingested_records_length |]. split.
  - intros i Hi.
    destruct (ingested_records_lookup d (uuid4_str (uuid_count w)) metadata
                chunks embs i Hlen Hi) as (c & e & Hc & He & Hr).
    eexists. split; [exact Hr |]. simpl. split; [done |]. split; [done |].
    unfold RAGService.chunk_metadata.
    split; intros Hkey; rewrite dict_merge_keep by done; by simplify_map_eq.
  - eexists. rewrite Hreg. split; [apply lookup_insert_eq |].
    intros Hcount. unfold RAGService.document_record.
    rewrite dict_merge_keep by done. by simplify_map_eq.
Qed.

(** C10. In every successful ingestion, each entry of the caller's
    metadata is found unchanged in the metadata of every chunk record the
    ingestion stores, also under a key the orchestrator sets itself
    ([source], [document_id], [chunk_index], [total_chunks],
    [file_type]): the caller's value replaces the generated one.  In
    particular a caller's [document_id] is what the stored chunks carry,
    not the generated document id. *)
Theorem caller_metadata_overrides document_path metadata w doc_id w' :
  RAGService.add_document document_path metadata w = (Ok doc_id, w') ->
  exists new,
    db_records (chroma w') = db_records (chroma w) ++ new
    /\ new <> []
    /\ (forall r key value,
          r ∈ new -> metadata !! key = Some value ->
          rec_metadata r !! key = Some value)
    /\ (forall r value,
          r ∈ new -> metadata !! "document_id" = Some value ->
          rec_metadata r !! "document_id" = Some value
          /\ (value <> PStr doc_id ->
              rec_metadata r !! "document_id" <> Some (PStr doc_id))).
Proof.
  intros Hadd.
  apply add_document_inv in Hadd
    as (d & chunks & w0 & embs & Hchunk & Hne & -> & Hemb & Hlen & Hrecs & Hreg).
  set (doc_id := uuid4_str (uuid_count w)) in *.
  exists (ingested_records d doc_id metadata chunks embs).
  assert (forall r key value,
            r ∈ ingested_records d doc_id metadata chunks embs ->
            metadata !! key = Some value ->
            rec_metadata r !! key = Some value) as Hover.
  { intros r key value Hr Hkey.
    apply list_elem_of_lookup in Hr as [i Hi].
    assert (i < length chunks)%nat as Hlt.
    { rewrite <- (ingested_records_length d doc_id metadata chunks embs Hlen).
      by eapply lookup_lt_Some. }
    destruct (ingested_records_lookup d doc_id metadata chunks embs i Hlen Hlt)
      as (c & e & _ & _ & Hr).
    rewrite Hi in Hr. injection Hr as ->. simpl.
    by apply dict_merge_override. }
  split; [done |]. split.
  - intros Hnil.
    apply (f_equal length) in Hnil.
    rewrite ingested_records_length in Hnil by done.
    destruct chunks; [done | simpl in Hnil; lia].
  - split; [exact Hover |].
    intros r value Hr Hkey. rewrite (Hover r _ _ Hr Hkey).
    split; [done | congruence].
Qed.

End IngestionClaims.

(** ** Deletion *)

Lemma chroma_get_available where_ db :
  db_available db = true ->
  Chroma.get where_ db
  = Ok {| gr_ids := Some (matching_ids where_ db);
          gr_metadatas :=
            rec_metadata
              <$> List.filter (Chroma.matches_where where_) (db_records db) |}.
Proof. intros Hdb. unfold Chroma.get. by rewrite Hdb. Qed.

Lemma filter_matching_nil {A} (f : A -> bool) (P : A -> Prop)
    `{forall x, Decision (P x)} (l : list A) :
  (forall x, x ∈ l -> f x = true -> ~ P x) ->
  List.filter f (filter P l) = [].
Proof.
  intros Hf. induction l as [|x l IH]; [done |].
  rewrite filter_cons. destruct (decide (P x)) as [HP|HP].
  - simpl. destruct (f x) eqn:Hfx.
    + exfalso. eapply Hf; [left | done | done].
    + apply IH. intros y Hy. apply Hf. by right.
  - apply IH. intros y Hy. apply Hf. by right.
Qed.

(** After the ids a filter resolves are deleted, the filter resolves
    nothing. *)
Lemma delete_matching_get where_ db :
  db_available db = true ->
  exists db',
    Chroma.delete (matching_ids where_ db) db = Ok db'
    /\ db_available db' = true
    /\ Chroma.get where_ db' = Ok no_records.
Proof.
  intros Hdb. unfold Chroma.delete. rewrite Hdb. simpl.
  eexists. split; [done |]. split; [done |].
  rewrite chroma_get_available by done. unfold matching_ids. simpl.
  rewrite filter_matching_nil; [done |].
  intros r Hr Hmatch Hnot. apply Hnot.
  apply list_elem_of_fmap. exists r. split; [done |].
  apply list_elem_of_In, List.filter_In. split; [by apply list_elem_of_In | done].
Qed.

Lemma get_nothing_matching where_ db :
  db_available db = true -> matching_ids where_ db = [] ->
  Chroma.get where_ db = Ok no_records.
Proof.
  intros Hdb Hnone. rewrite chroma_get_available by done.
  rewrite Hnone. unfold matching_ids in Hnone.
  apply fmap_nil_inv in Hnone. by rewrite Hnone.
Qed.

Section Deletion.
Context `{Collaborators}.

Lemma delete_documents_available ids w c :
  vs_initialized w = true -> vs_collection w = Some c ->
  forall db',
    Chroma.delete ids (chroma w) = Ok db' ->
    VectorStoreService.delete_documents ids w
    = (Ok tt, log_call (EvDelete ids) (set_chroma db' w)).
Proof.
  intros Hinit Hcoll db' Hdel. unfold VectorStoreService.delete_documents.
  rewrite (with_collection_ready _ _ _ Hinit Hcoll).
  unfold try_except, Chroma.write. by rewrite Hdel.
Qed.

(** The underlying failure is propagated, wrapped, and the registry entry
    stays. *)
Lemma delete_documents_unavailable ids w c :
  vs_initialized w = true -> vs_collection w = Some c ->
  db_available (chroma w) = false ->
  VectorStoreService.delete_documents ids w
  = (Raise (Exception
       ("Error deleting documents: " +:+ "vector index storage unavailable")),
     log_call (EvDelete ids) w).
Proof.
  intros Hinit Hcoll Hdb. unfold VectorStoreService.delete_documents.
  rewrite (with_collection_ready _ _ _ Hinit Hcoll).
  unfold try_except, Chroma.write, Chroma.delete. by rewrite Hdb.
Qed.

Lemma delete_document_spec document_id w :
  consistent w -> db_available (chroma w) = true ->
  let where_ : Dict := {[ "document_id" := PStr document_id ]} in
  exists w',
    RAGService.delete_document document_id w = (Ok tt, w')
    /\ consistent w' /\ rag_initialized w' = true
    /\ db_available (chroma w') = true
    /\ EvGet where_ ∈ calls w'
    /\ Chroma.get where_ (chroma w') = Ok no_records
    /\ (matching_ids where_ (chroma w) = [] -> chroma w' = chroma w)
    /\ documents_metadata w' = delete document_id (documents_metadata w).
Proof.
  intros Hw Hdb where_.
  destruct (ensure_initialized_available w Hw Hdb) as [w0 Hinit].
  destruct (ensure_initialized_consistent _ _ Hw Hinit) as [Hw0 Hready].
  pose proof (ensure_initialized_frame _ _ _ Hinit) as (Hdb0 & _ & Hreg0 & _).
  destruct Hw0 as [Hvs0 Hrag0].
  destruct (Hrag0 Hready) as (Hemb & Hllm & Hvsi).
  destruct (Hvs0 Hvsi) as [c Hcoll].
  unfold RAGService.delete_document.
  rewrite (bind_ok _ _ _ _ _ Hinit).
  assert (RAGService.collection_get_by_document document_id w0
          = (Chroma.get where_ (chroma w0), log_call (EvGet where_) w0))
    as Hget.
  { unfold RAGService.collection_get_by_document, bind, gets.
    by rewrite Hcoll. }
  rewrite chroma_get_available in Hget by congruence.
  rewrite (bind_ok _ _ _ _ _ Hget). cbn [gr_ids].
  set (w1 := log_call (EvGet where_) w0).
  set (ids := matching_ids where_ (chroma w0)).
  assert (exists w2,
            when (0 <? length ids)%nat
              (VectorStoreService.delete_documents ids) w1 = (Ok tt, w2)
            /\ vs_initialized w2 = true /\ vs_collection w2 = Some c
            /\ rag_initialized w2 = true
            /\ rag_embeddings w2 = rag_embeddings w0
            /\ rag_llm w2 = rag_llm w0
            /\ db_available (chroma w2) = true
            /\ EvGet where_ ∈ calls w2
            /\ Chroma.get where_ (chroma w2) = Ok no_records
            /\ (ids = [] -> chroma w2 = chroma w)
            /\ documents_metadata w2 = documents_metadata w)
    as (w2 & Hdel & Hvs2 & Hcoll2 & Hrag2 & Hemb2 & Hllm2 & Hdb2 & Hev2
        & Hget2 & Hsame & Hreg2).
  { destruct ids as [|id ids'] eqn:Hids.
    - exists w1. simpl. unfold ret. repeat split; try done.
      + simpl. congruence.
      + simpl. left.
      + simpl. apply get_nothing_matching; [congruence | done].
    - destruct (delete_matching_get where_ (chroma w0)) as (db' & Hd & Ha & Hg);
        [congruence |].
      fold ids in Hd. rewrite Hids in Hd.
      exists (log_call (EvDelete (id :: ids')) (set_chroma db' w1)).
      split.
      { simpl. by apply (delete_documents_available _ _ c). }
      repeat split; try done. simpl. right. left. }
  rewrite (bind_ok _ _ _ _ _ Hdel).
  unfold bind, gets, when, modify, ret.
  assert (forall w3, rag_initialized w3 = true ->
            rag_embeddings w3 = rag_embeddings w0 ->
            rag_llm w3 = rag_llm w0 -> vs_initialized w3 = true ->
            vs_collection w3 = Some c -> consistent w3) as Hcons.
  { intros w3 E1 E2 E3 E4 E5. unfold consistent.
    rewrite E2, E3, E4, E5. eauto. }
  unfold ids in Hsame. rewrite Hdb0 in Hsame.
  destruct (bool_decide (is_Some (documents_metadata w2 !! document_id)))
    eqn:Hin.
  - eexists. split; [done |]. simpl.
    split; [by apply Hcons |]. repeat split; try done. by rewrite Hreg2.
  - exists w2. split; [done |].
    split; [by apply Hcons |]. repeat split; try done.
    apply bool_decide_eq_false in Hin.
    rewrite Hreg2 in *. symmetry. apply delete_id.
    by apply eq_None_not_Some.
Qed.

End Deletion.

Section DeletionClaim.
Context `{Collaborators}.

(** C5. On a consistent world over an available store, [delete_document]
    succeeds for every document id: it resolves the chunk ids with the
    filter [{"document_id": id}]; when the filter finds nothing it still
    succeeds and leaves the index as it was; and it removes the registry
    entry in both cases.  Afterwards the same filter resolves no record,
    the registry has no entry under the id ([get_document_by_id] returns
    [None]), and the other registry entries are untouched. *)
Theorem delete_document_complete document_id w :
  consistent w -> db_available (chroma w) = true ->
  exists w',
    RAGService.delete_document document_id w = (Ok tt, w')
    /\ EvGet {[ "document_id" := PStr document_id ]} ∈ calls w'
    /\ (chunks_of_document document_id w
        = Ok {| gr_ids := Some []; gr_metadatas := [] |} ->
        chroma w' = chroma w)
    /\ chunks_of_document document_id w'
       = Ok {| gr_ids := Some []; gr_metadatas := [] |}
    /\ documents_metadata w' !! document_id = None
    /\ RAGService.get_document_by_id document_id w' = (Ok None, w')
    /\ (forall other,
          other <> document_id ->
          documents_metadata w' !! other = documents_metadata w !! other).
Proof.
  intros Hw Hdb.
  destruct (delete_document_spec document_id w Hw Hdb)
    as (w' & Hdel & Hw' & Hready & Hdb' & Hev & Hget & Hsame & Hreg).
  exists w'. split; [done |]. split; [done |]. split.
  { unfold chunks_of_document. rewrite chroma_get_available by done.
    intros [= Hnone _]. by apply Hsame. }
  split; [done |].
  assert (documents_metadata w' !! document_id = None) as Hgone
    by (rewrite Hreg; apply lookup_delete_eq).
  split; [done |]. split.
  - unfold RAGService.get_document_by_id.
    rewrite (bind_ok _ _ _ _ _ (ensure_initialized_ready _ Hready)).
    unfold bind, gets, ret. by rewrite Hgone.
  - intros other Hother. rewrite Hreg. by apply lookup_delete_ne.
Qed.

End DeletionClaim.

(** ** The splitter on short and on blank texts *)

Module SplitterFacts.
Import TextSplitter.
#[local] Open Scope Z_scope.

Lemma clen_app s t : clen (s ++ t) = clen s + clen t.
Proof. unfold clen. rewrite length_app. lia. Qed.

Lemma clen_nonneg s : 0 <= clen s.
Proof. unfold clen. lia. Qed.

Lemma clen_nonempty s : nonempty s = true -> 0 < clen s.
Proof. destruct s; [done |]. unfold clen. simpl. lia. Qed.

Lemma lstrip_blank s : blank s -> lstrip s = [].
Proof.
  induction 1 as [|c s Hc Hs IH]; simpl; [done |]. by rewrite Hc.
Qed.

Lemma strip_blank s : blank s -> strip s = [].
Proof. intros Hs. unfold strip. by rewrite lstrip_blank. Qed.

Lemma lstrip_not_blank s : ~ blank s -> lstrip s <> [].
Proof.
  induction s as [|c s IH]; intros Hs; simpl.
  - destruct Hs. constructor.
  - destruct (is_space c) eqn:Hc; [| done].
    apply IH. intros Hb. apply Hs. by constructor.
Qed.

Lemma lstrip_suffix s : exists p, s = p ++ lstrip s /\ blank p.
Proof.
  induction s as [|c s (p & Hp & Hb)]; simpl.
  - exists []. split; [done | constructor].
  - destruct (is_space c) eqn:Hc.
    + exists (c :: p). split; [simpl; by f_equal | by constructor].
    + exists []. split; [done | constructor].
Qed.

Lemma blank_app s t : blank (s ++ t) <-> blank s /\ blank t.
Proof. unfold blank. apply Forall_app. Qed.

Lemma blank_rev s : blank (rev s) <-> blank s.
Proof.
  unfold blank. split; intros Hs.
  - rewrite <- (rev_involutive s). by apply List.Forall_rev.
  - by apply List.Forall_rev.
Qed.

Lemma strip_not_blank s : ~ blank s -> strip s <> [].
Proof.
  intros Hs. unfold strip, rstrip.
  destruct (lstrip_suffix s) as (p & Hp & Hb).
  assert (~ blank (lstrip s)) as Hl.
  { intros Hl. apply Hs. rewrite Hp. by apply blank_app. }
  intros Hnil. apply (f_equal (@rev ascii)) in Hnil.
  rewrite rev_involutive in Hnil. simpl in Hnil.
  apply (lstrip_not_blank (rev (lstrip s))); [| done].
  by rewrite blank_rev.
Qed.

Lemma blank_concat pieces : blank (concat pieces) <-> Forall blank pieces.
Proof.
  induction pieces as [|p pieces IH]; simpl.
  - split; constructor.
  - rewrite blank_app, IH, Forall_cons. done.
Qed.

Lemma cjoin_empty docs : cjoin [] docs = concat docs.
Proof.
  induction docs as [|d docs IH]; [done |].
  destruct docs as [|d' docs]; simpl in *; [by rewrite app_nil_r |].
  by rewrite IH.
Qed.

Lemma join_docs_blank docs : Forall blank docs -> join_docs docs [] = None.
Proof.
  intros Hd. unfold join_docs. rewrite cjoin_empty.
  rewrite strip_blank; [done |]. by apply blank_concat.
Qed.

Lemma join_docs_not_blank docs :
  ~ blank (concat docs) -> join_docs docs [] = Some (strip (concat docs)).
Proof.
  intros Hd. unfold join_docs. rewrite cjoin_empty.
  pose proof (strip_not_blank _ Hd). by destruct (strip (concat docs)).
Qed.

(** Splitting loses no character. *)
Lemma split_scan_concat sep skip piece text :
  concat (split_scan sep skip piece text) = piece ++ text.
Proof.
  revert skip piece. induction text as [|c text IH]; intros skip piece.
  - simpl. by rewrite app_nil_r.
  - cbn [split_scan]. destruct skip as [|skip].
    + destruct (starts_with sep (c :: text)).
      * cbn [concat]. by rewrite IH.
      * by rewrite IH, <- app_assoc.
    + by rewrite IH, <- app_assoc.
Qed.

Lemma concat_filter_nonempty pieces :
  concat (List.filter nonempty pieces) = concat pieces.
Proof.
  induction pieces as [|p pieces IH]; [done |]. simpl.
  destruct p; simpl; [done | by rewrite IH].
Qed.

Lemma concat_singletons (text : chars) :
  concat ((fun c => [c]) <$> text) = text.
Proof. induction text as [|c text IH]; [done |]. csimpl. by rewrite IH. Qed.

Lemma split_text_with_regex_concat text separator :
  concat (split_text_with_regex text separator) = text.
Proof.
  unfold split_text_with_regex. rewrite concat_filter_nonempty.
  destruct separator; [apply concat_singletons |].
  by rewrite split_scan_concat.
Qed.

Lemma split_text_with_regex_nonempty text separator :
  Forall (fun p => nonempty p = true) (split_text_with_regex text separator).
Proof.
  unfold split_text_with_regex. apply Forall_forall. intros p Hp.
  apply list_elem_of_In, List.filter_In in Hp. tauto.
Qed.

Lemma split_characters_short (text : chars) :
  Forall (fun p => clen p = 1) (split_text_with_regex text []).
Proof.
  unfold split_text_with_regex. apply Forall_forall. intros p Hp.
  apply list_elem_of_In, List.filter_In in Hp as [Hp _].
  apply list_elem_of_In, list_elem_of_fmap in Hp as (c & -> & _). done.
Qed.

(** Pieces that are not empty and add up to at most the chunk size are
    all shorter than it, unless there is one piece of exactly that
    size. *)
Lemma pieces_of_short_text (chunk_size : Z) pieces :
  Forall (fun p => nonempty p = true) pieces ->
  clen (concat pieces) <= chunk_size ->
  Forall (fun p => clen p < chunk_size) pieces
  \/ exists p, pieces = [p] /\ clen p = chunk_size.
Proof.
  intros Hne Hlen. destruct pieces as [|p [|p' pieces]].
  - left. constructor.
  - simpl in Hlen. rewrite app_nil_r in Hlen.
    destruct (decide (clen p < chunk_size)); [left | right].
    + by repeat constructor.
    + exists p. split; [done | lia].
  - left. apply Forall_forall. intros q Hq.
    apply list_elem_of_lookup in Hq as [i Hi].
    assert (exists pre post, p :: p' :: pieces = pre ++ q :: post
              /\ (pre <> [] \/ post <> [])) as (pre & post & Hsplit & Hother).
    { exists (take i (p :: p' :: pieces)), (drop (S i) (p :: p' :: pieces)).
      split; [by rewrite take_drop_middle |].
      destruct i as [|i]; [right | left]; simpl; done. }
    rewrite Hsplit in Hlen, Hne.
    rewrite concat_app in Hlen. simpl in Hlen. rewrite !clen_app in Hlen.
    apply Forall_app in Hne as [Hpre Hpost].
    apply Forall_cons in Hpost as [_ Hpost].
    pose proof (clen_nonneg (concat pre)). pose proof (clen_nonneg (concat post)).
    destruct Hother as [Hp|Hp].
    + destruct pre as [|x pre]; [done |].
      apply Forall_cons in Hpre as [Hx _]. apply clen_nonempty in Hx.
      simpl in *. rewrite clen_app in *. pose proof (clen_nonneg (concat pre)).
      lia.
    + destruct post as [|x post]; [done |].
      apply Forall_cons in Hpost as [Hx _]. apply clen_nonempty in Hx.
      simpl in *. rewrite clen_app in *. pose proof (clen_nonneg (concat post)).
      lia.
Qed.

Section Sized.
Variables chunk_size chunk_overlap : Z.
Hypothesis overlap_nonneg : 0 <= chunk_overlap.

Lemma sep_if_empty b : sep_if b (clen []) = 0.
Proof. by destruct b. Qed.

(** Popping from the front of [current_doc] cannot run off its end:
    [total] is the length of what [current_doc] holds. *)
Lemma pop_front_ok _len current_doc :
  exists rest,
    pop_front chunk_size chunk_overlap (clen []) _len current_doc
      (clen (concat current_doc))
    = Ok (rest, clen (concat rest))
    /\ rest `suffix_of` current_doc.
Proof.
  induction current_doc as [|d0 current_doc (rest & IH & Hsuffix)].
  - exists []. split; [| done]. simpl.
    destruct (chunk_overlap <? clen []) eqn:Ho; [| by rewrite andb_false_r].
    apply Z.ltb_lt in Ho. unfold clen in Ho. simpl in Ho. lia.
  - cbn [pop_front]. rewrite !sep_if_empty.
    destruct (_ || _).
    + exists rest. split; [| by apply suffix_cons_r].
      rewrite <- IH. f_equal. simpl. rewrite clen_app. lia.
    + exists (d0 :: current_doc). done.
Qed.

(** Merging pieces that fit in one chunk gives their concatenation,
    stripped. *)
Lemma merge_loop_fits splits docs current_doc :
  clen (concat current_doc) + clen (concat splits) <= chunk_size ->
  merge_loop chunk_size chunk_overlap [] splits docs current_doc
    (clen (concat current_doc))
  = Ok (append_doc docs (join_docs (current_doc ++ splits) [])).
Proof.
  revert current_doc.
  induction splits as [|d splits IH]; intros current_doc Hfits.
  - simpl. by rewrite app_nil_r.
  - cbn [merge_loop]. cbv zeta. rewrite !sep_if_empty.
    simpl in Hfits. rewrite clen_app in Hfits.
    pose proof (clen_nonneg (concat splits)).
    destruct (chunk_size <? _) eqn:Hbig.
    { apply Z.ltb_lt in Hbig. lia. }
    simpl. rewrite ?sep_if_empty.
    replace (clen (concat current_doc) + clen d + 0)
      with (clen (concat (current_doc ++ [d]))).
    2: { rewrite concat_app, clen_app. simpl. rewrite app_nil_r. lia. }
    rewrite IH.
    + by rewrite <- app_assoc.
    + rewrite concat_app, clen_app. simpl. rewrite app_nil_r. lia.
Qed.

Lemma merge_splits_fits splits :
  clen (concat splits) <= chunk_size ->
  _merge_splits chunk_size chunk_overlap splits []
  = Ok (append_doc [] (join_docs splits [])).
Proof.
  intros Hfits. unfold _merge_splits.
  by apply (merge_loop_fits splits [] []).
Qed.

(** Merging blank pieces emits nothing. *)
Lemma merge_loop_blank splits docs current_doc :
  Forall blank splits -> Forall blank current_doc ->
  merge_loop chunk_size chunk_overlap [] splits docs current_doc
    (clen (concat current_doc))
  = Ok docs.
Proof.
  revert docs current_doc.
  induction splits as [|d splits IH]; intros docs current_doc Hs Hc.
  - simpl. by rewrite join_docs_blank.
  - apply Forall_cons in Hs as [Hd Hs].
    cbn [merge_loop]. cbv zeta. rewrite !sep_if_empty.
    destruct (_ && _).
    + destruct (pop_front_ok (clen d) current_doc) as (rest & -> & Hsuffix).
      simpl. rewrite join_docs_blank by done. simpl.
      rewrite ?sep_if_empty.
      replace (clen (concat rest) + clen d + 0)
        with (clen (concat (rest ++ [d]))).
      2: { rewrite concat_app, clen_app. simpl. rewrite app_nil_r. lia. }
      apply IH; [done |]. apply Forall_app. split; [| by constructor].
      destruct Hsuffix as [pre ->]. by apply Forall_app in Hc as [_ ?].
    + simpl. rewrite ?sep_if_empty.
      replace (clen (concat current_doc) + clen d + 0)
        with (clen (concat (current_doc ++ [d]))).
      2: { rewrite concat_app, clen_app. simpl. rewrite app_nil_r. lia. }
      apply IH; [done |]. apply Forall_app. split; [done | by constructor].
Qed.

Lemma merge_splits_blank splits :
  Forall blank splits ->
  _merge_splits chunk_size chunk_overlap splits [] = Ok [].
Proof.
  intros Hs. unfold _merge_splits.
  by apply (merge_loop_blank splits [] []).
Qed.

(** When every remaining piece is shorter than the chunk size, the
    loop ends in one merge of all the kept pieces. *)
Lemma split_loop_all_short new_separators recurse splits good final :
  Forall (fun p => clen p < chunk_size) splits ->
  split_loop chunk_size chunk_overlap new_separators recurse
    splits good final
  = match good ++ splits with
    | [] => Ok final
    | kept =>
        result_bind (_merge_splits chunk_size chunk_overlap kept [])
          (fun merged_text => Ok (final ++ merged_text))
    end.
Proof.
  revert good. induction splits as [|s splits IH]; intros good Hshort.
  - simpl. rewrite app_nil_r. by destruct good.
  - apply Forall_cons in Hshort as [Hs Hshort].
    cbn [split_loop]. apply Z.ltb_lt in Hs. rewrite Hs.
    rewrite IH by done. by rewrite <- app_assoc.
Qed.

(** On blank pieces the loop emits nothing, when the recursion emits
    nothing on a blank piece and no piece is emitted as it is. *)
Lemma split_loop_blank new_separators recurse splits good :
  (new_separators <> [] -> forall s, blank s -> recurse s = Ok []) ->
  (new_separators = [] -> Forall (fun p => clen p < chunk_size) splits) ->
  Forall blank splits -> Forall blank good ->
  split_loop chunk_size chunk_overlap new_separators recurse
    splits good []
  = Ok [].
Proof.
  intros Hrec. revert good.
  induction splits as [|s splits IH]; intros good Hshort Hs Hg.
  - simpl. destruct good; [done |]. by rewrite merge_splits_blank.
  - apply Forall_cons in Hs as [Hb Hs].
    assert (new_separators = [] ->
            Forall (fun p => clen p < chunk_size) splits) as Hshort'.
    { intros Hn. by apply Hshort, Forall_cons in Hn as [_ ?]. }
    cbn [split_loop]. destruct (clen s <? chunk_size) eqn:Hlen.
    + apply IH; [done | done |]. apply Forall_app. by split; [| constructor].
    + assert (match good with
              | [] => Ok []
              | _ :: _ =>
                  result_bind
                    (_merge_splits chunk_size chunk_overlap good [])
                    (fun merged_text => Ok ([] ++ merged_text))
              end = Ok ([] : list chars)) as ->.
      { destruct good; [done |]. by rewrite merge_splits_blank. }
      simpl. destruct new_separators as [|n ns].
      * apply Z.ltb_ge in Hlen.
        specialize (Hshort eq_refl). apply Forall_cons in Hshort as [? _].
        lia.
      * rewrite Hrec by done. simpl. by apply IH.
Qed.

Lemma split_with_blank separator new_separators recurse text :
  1 < chunk_size ->
  (new_separators = [] -> separator = []) ->
  (new_separators <> [] -> forall s, blank s -> recurse s = Ok []) ->
  blank text ->
  split_with chunk_size chunk_overlap separator new_separators recurse text
  = Ok [].
Proof.
  intros Hsize Hlast Hrec Hblank. unfold split_with.
  apply split_loop_blank; [done | | | constructor].
  - intros ->. rewrite (Hlast eq_refl).
    eapply Forall_impl; [apply split_characters_short |].
    simpl. intros p Hp. lia.
  - apply blank_concat. by rewrite split_text_with_regex_concat.
Qed.

Lemma split_with_short separator new_separators recurse text :
  1 < chunk_size ->
  (new_separators = [] -> separator = []) ->
  (new_separators <> [] -> recurse text = Ok [strip text]) ->
  clen text <= chunk_size -> ~ blank text ->
  split_with chunk_size chunk_overlap separator new_separators recurse text
  = Ok [strip text].
Proof.
  intros Hsize Hlast Hrec Hlen Hblank. unfold split_with.
  pose proof (split_text_with_regex_concat text separator) as Hconcat.
  pose proof (split_text_with_regex_nonempty text separator) as Hne.
  remember (split_text_with_regex text separator) as pieces eqn:Hpieces.
  destruct (pieces_of_short_text chunk_size pieces) as [Hshort|(p & -> & Hp)];
    [done | by rewrite Hconcat | |].
  - rewrite split_loop_all_short by done. simpl.
    destruct pieces as [|p pieces].
    { destruct Hblank. rewrite <- Hconcat. constructor. }
    rewrite merge_splits_fits by (rewrite Hconcat; done).
    rewrite join_docs_not_blank by (by rewrite Hconcat).
    by rewrite Hconcat.
  - simpl in Hconcat. rewrite app_nil_r in Hconcat. subst p.
    cbn [split_loop].
    destruct (clen text <? chunk_size) eqn:Hlt; [apply Z.ltb_lt in Hlt; lia |].
    simpl. destruct new_separators as [|n ns].
    + rewrite (Hlast eq_refl) in Hpieces.
      pose proof (split_characters_short text) as Hone.
      rewrite <- Hpieces in Hone. apply Forall_cons in Hone as [Hone _]. lia.
    + rewrite Hrec by done. done.
Qed.
End Sized.

Section Recursion.
Variables chunk_size chunk_overlap : Z.
Hypothesis overlap_nonneg : 0 <= chunk_overlap.
Hypothesis size_above_one : 1 < chunk_size.

Lemma last_cons_nonempty (s : chars) rest :
  last (s :: rest) = Some [] -> s <> [] -> rest <> [] /\ last rest = Some [].
Proof.
  intros Hlast Hs. destruct rest as [|s' rest]; [simpl in Hlast; congruence |].
  split; [done |]. by rewrite last_cons_cons in Hlast.
Qed.

(** A blank text gives no chunk. *)
Lemma _split_text_blank separators text :
  last separators = Some [] -> blank text ->
  _split_text chunk_size chunk_overlap separators text = Ok [].
Proof.
  intros Hlast Hblank. revert text Hblank.
  induction separators as [|s rest IH]; intros text Hblank; [done |].
  cbn [_split_text]. destruct s as [|c s]; simpl negb; cbv iota.
  { by apply split_with_blank. }
  destruct (last_cons_nonempty _ _ Hlast) as [Hrest Hlast']; [done |].
  destruct (contains (c :: s) text).
  - apply split_with_blank; try done. intros _. by apply IH.
  - destruct rest as [|s' rest']; [done |]. by apply IH.
Qed.

(** A text with content that fits in one chunk gives that one chunk,
    stripped. *)
Lemma _split_text_short separators text :
  last separators = Some [] ->
  clen text <= chunk_size -> ~ blank text ->
  _split_text chunk_size chunk_overlap separators text = Ok [strip text].
Proof.
  intros Hlast Hlen Hblank.
  induction separators as [|s rest IH]; [done |].
  cbn [_split_text]. destruct s as [|c s]; simpl negb; cbv iota.
  { by apply split_with_short. }
  destruct (last_cons_nonempty _ _ Hlast) as [Hrest Hlast']; [done |].
  destruct (contains (c :: s) text).
  - apply split_with_short; try done. intros _. by apply IH.
  - destruct rest as [|s' rest']; [done |]. by apply IH.
Qed.
End Recursion.

(** The same on strings. *)
Lemma len_clen text : len text = clen (list_ascii_of_string text).
Proof.
  unfold len, clen. f_equal.
  induction text as [|c text IH]; simpl; [done | by rewrite IH].
Qed.

Lemma separators_end_empty :
  last (list_ascii_of_string <$> DocumentProcessor.separators) = Some [].
Proof. reflexivity. Qed.

Lemma split_text_whitespace_only s text :
  0 <= _chunk_overlap s -> 1 < _chunk_size s ->
  _separators s = DocumentProcessor.separators ->
  whitespace_only text -> split_text s text = Ok [].
Proof.
  intros Ho Hs Hseps Hblank. unfold split_text. rewrite Hseps.
  by rewrite _split_text_blank by (done || apply separators_end_empty).
Qed.

Lemma split_text_short s text :
  0 <= _chunk_overlap s -> 1 < _chunk_size s ->
  _separators s = DocumentProcessor.separators ->
  ~ whitespace_only text -> len text <= _chunk_size s ->
  split_text s text
  = Ok [string_of_list_ascii (strip (list_ascii_of_string text))].
Proof.
  intros Ho Hs Hseps Hblank Hlen. unfold split_text. rewrite Hseps.
  by rewrite _split_text_short
    by (done || apply separators_end_empty || by rewrite <- len_clen).
Qed.
End SplitterFacts.

(** ** The chunker and its cache *)

Lemma new_valid chunk_size chunk_overlap separators :
  valid_sizes chunk_size chunk_overlap ->
  TextSplitter.new chunk_size chunk_overlap separators
  = Ok {| _chunk_size := chunk_size; _chunk_overlap := chunk_overlap;
          _separators := separators |}.
Proof.
  intros [Ho Hs]. unfold TextSplitter.new.
  destruct (Z.ltb_spec 0 chunk_size); [| lia].
  destruct (Z.ltb_spec 0 chunk_overlap); [| lia].
  destruct (Z.ltb_spec chunk_overlap chunk_size); [| lia]. done.
Qed.

Lemma new_inv chunk_size chunk_overlap separators s :
  TextSplitter.new chunk_size chunk_overlap separators = Ok s ->
  s = {| _chunk_size := chunk_size; _chunk_overlap := chunk_overlap;
         _separators := separators |}
  /\ valid_sizes chunk_size chunk_overlap.
Proof.
  unfold TextSplitter.new, valid_sizes.
  destruct (Z.ltb_spec 0 chunk_size); [| done].
  destruct (Z.ltb_spec 0 chunk_overlap); [| done].
  destruct (Z.ltb_spec chunk_overlap chunk_size); [| done].
  simpl. intros [= <-]. done.
Qed.

Section Chunker.
Variable split : Splitter -> string -> result (list string).

(** What [chunk_text] returns and what it leaves in the cache, from a
    cache that [chunk_text] filled. *)
Lemma chunk_text_spec text chunk_size chunk_overlap w :
  cache_constructed w ->
  let (r, w') :=
    DocumentProcessor.chunk_text split text chunk_size chunk_overlap w in
  r = result_bind
        (TextSplitter.new chunk_size chunk_overlap
           DocumentProcessor.separators)
        (fun s => split s text)
  /\ cache_constructed w'.
Proof.
  intros Hcache.
  unfold DocumentProcessor.chunk_text, DocumentProcessor.rebuild, when,
    bind, gets, modify, lift, ret, raise.
  destruct (text_splitter w) as [s|] eqn:Hts.
  - destruct (bool_decide (_chunk_size s ≠ chunk_size)
              || bool_decide (_chunk_overlap s ≠ chunk_overlap)) eqn:Hdiff.
    + destruct (TextSplitter.new chunk_size chunk_overlap _) as [s'|e] eqn:Hnew;
        simpl.
      * split; [done |]. intros s0 Hs0. simpl in Hs0. injection Hs0 as <-.
        destruct (new_inv _ _ _ _ Hnew) as [-> _]. exact Hnew.
      * split; [done | exact Hcache].
    + rewrite Hts. apply orb_false_elim in Hdiff as [Hs Ho].
      apply bool_decide_eq_false in Hs, Ho.
      apply dec_stable in Hs, Ho. subst.
      rewrite (Hcache s Hts). split; [done | done].
  - destruct (TextSplitter.new chunk_size chunk_overlap _) as [s'|e] eqn:Hnew;
      simpl.
    + split; [done |]. intros s0 Hs0. simpl in Hs0. injection Hs0 as <-.
      destruct (new_inv _ _ _ _ Hnew) as [-> _]. exact Hnew.
    + split; [done | exact Hcache].
Qed.
End Chunker.

Import SplitterFacts.

Section ChunkerClaims.
Variable split : Splitter -> string -> result (list string).

Lemma processor_state_cache w :
  processor_state split w -> cache_constructed w.
Proof.
  induction 1 as [w Hnone|w text cs co Hstate IH].
  - intros s Hs. congruence.
  - pose proof (chunk_text_spec split text cs co w IH) as Hspec.
    destruct (DocumentProcessor.chunk_text split text cs co w) as [r w'].
    by destruct Hspec.
Qed.

Lemma chunk_text_result text chunk_size chunk_overlap w :
  processor_state split w ->
  fst (DocumentProcessor.chunk_text split text chunk_size chunk_overlap w)
  = result_bind
      (TextSplitter.new chunk_size chunk_overlap DocumentProcessor.separators)
      (fun s => split s text).
Proof.
  intros Hstate. apply processor_state_cache in Hstate.
  pose proof (chunk_text_spec split text chunk_size chunk_overlap w Hstate)
    as Hspec.
  destruct (DocumentProcessor.chunk_text split text chunk_size chunk_overlap w)
    as [r w'].
  by destruct Hspec.
Qed.

(** C7. Whatever splitter implementation [chunk_text] drives, as long as
    what the splitter returns depends on its attributes and the text
    only: in any two states of the document processor, whatever calls of
    [chunk_text] with whatever parameters led to them, two calls with the
    same text, chunk size and overlap return the same result; for valid
    sizes it is what a splitter constructed with these sizes returns on
    the text. *)
Theorem chunk_text_deterministic text chunk_size chunk_overlap w1 w2 :
  processor_state split w1 -> processor_state split w2 ->
  fst (DocumentProcessor.chunk_text split text chunk_size chunk_overlap w1)
  = fst (DocumentProcessor.chunk_text split text chunk_size chunk_overlap w2)
  /\ (valid_sizes chunk_size chunk_overlap ->
      fst (DocumentProcessor.chunk_text split text chunk_size chunk_overlap w1)
      = split {| _chunk_size := chunk_size; _chunk_overlap := chunk_overlap;
                 _separators := DocumentProcessor.separators |} text).
Proof.
  intros H1 H2. rewrite !chunk_text_result by done. split; [done |].
  intros Hvalid. by rewrite new_valid.
Qed.
End ChunkerClaims.

(** C8, as amended. For valid sizes ([0 < chunk_overlap < chunk_size]) and
    the recursive character splitter: a text with at least one character
    that is not white space, of length at most the chunk size, yields
    exactly one chunk, the text stripped of surrounding white space; an
    empty or whitespace-only text yields no chunk. *)
Theorem chunk_text_edge_cases text chunk_size chunk_overlap w :
  valid_sizes chunk_size chunk_overlap ->
  processor_state TextSplitter.split_text w ->
  (~ whitespace_only text -> (len text <= chunk_size)%Z ->
   fst (DocumentProcessor.chunk_text TextSplitter.split_text
          text chunk_size chunk_overlap w)
   = Ok [stripped text])
  /\ (whitespace_only text ->
      fst (DocumentProcessor.chunk_text TextSplitter.split_text
             text chunk_size chunk_overlap w)
      = Ok []).
Proof.
  intros Hvalid Hstate. rewrite chunk_text_result by done.
  rewrite new_valid by done. simpl. destruct Hvalid as [Ho Hs].
  split.
  - intros Hcontent Hlen. apply split_text_short; simpl; try done; lia.
  - intros Hblank. apply split_text_whitespace_only; simpl; try done; lia.
Qed.

(** * The claims on the concrete deployment *)

Section Deployment.
Import Scenario.

Lemma after_upload_consistent : consistent after_upload.
Proof. split; intros _; vm_compute; eauto. Qed.

(** C1 on the empty index: nothing is retrieved, the fixed answer comes
    back and no prompt was sent. *)
Lemma query_empty_retrieval_witness :
  fst (RAGService.query question 5 (fresh_world empty_store))
  = Ok {| answer :=
            "I don't have enough information in the knowledge base to answer this question. Please upload relevant documents first.";
          sources := []; context_used := false |}
  /\ llm_calls (snd (RAGService.query question 5 (fresh_world empty_store)))
     = [].
Proof.
  destruct (query_empty_retrieval question 5 (fresh_world empty_store)
              (snd (retrieve question 5 (fresh_world empty_store))))
    as [Hq Hcalls]; [vm_compute; reflexivity |].
  rewrite Hq. split; [reflexivity | exact Hcalls].
Defined.

(** C2 on the ranked store: distances 0.1, 0.3, 0.5 give scores 0.9, 0.7,
    0.5. *)
Lemma relevance_scores_witness :
  exists r,
    fst (RAGService.query question 5 (fresh_world ranked_store)) = Ok r
    /\ relevance_score <$> sources r = [0.9; 0.7; 0.5]%Q.
Proof.
  destruct (relevance_scores question 5 (fresh_world ranked_store)
              ranked_hits
              (snd (retrieve question 5 (fresh_world ranked_store)))
              "Twenty days.")
    as (r & Hq & _ & _ & Hscores);
    [apply fresh_world_consistent | vm_compute; reflexivity | discriminate
    | reflexivity |].
  exists r. rewrite Hq. split; [reflexivity |].
  apply Hscores. vm_compute. reflexivity.
Defined.

(** C6 on the ranked store: three sources, in rank order. *)
Lemma sources_follow_retrieval_witness :
  exists r,
    fst (RAGService.query question 5 (fresh_world ranked_store)) = Ok r
    /\ length (sources r) = 3%nat.
Proof.
  destruct (sources_follow_retrieval question 5 (fresh_world ranked_store)
              ranked_hits
              (snd (retrieve question 5 (fresh_world ranked_store)))
              "Twenty days.")
    as (r & Hq & Hlen & _);
    [apply fresh_world_consistent | vm_compute; reflexivity | discriminate
    | reflexivity |].
  exists r. rewrite Hq. split; [reflexivity | exact Hlen].
Defined.

(** C3 on a file of three spaces. *)
Lemma ingestion_without_chunks_fails_witness :
  fst (RAGService.add_document "blank.txt" upload_metadata
         (fresh_world empty_store))
  = Raise (ValueError "No text content could be extracted from the document")
  /\ documents_metadata
       (snd (extract_and_chunk "blank.txt" (fresh_world empty_store)))
     = ∅.
Proof.
  destruct (ingestion_without_chunks_fails "blank.txt" upload_metadata
              (fresh_world empty_store)
              {| dd_text := "   "; dd_filename := "blank.txt";
                 dd_file_type := ".txt"; dd_size := 3; dd_pages := None |}
              (snd (extract_and_chunk "blank.txt" (fresh_world empty_store))))
    as (Hadd & Hreg & _); [vm_compute; reflexivity |].
  rewrite Hadd. split; [reflexivity | exact Hreg].
Defined.

(** C4 as stated fails: a caller's [chunk_index] is what the second chunk
    of the handbook carries, not its position 1. *)
Lemma chunk_index_overridden_by_caller :
  exists w' r,
    RAGService.add_document "handbook.txt" {[ "chunk_index" := PInt 7 ]}
      (fresh_world empty_store) = (Ok "doc-0", w')
    /\ db_records (chroma w') !! 1%nat = Some r
    /\ rec_id r = "doc-0_chunk_1"
    /\ rec_metadata r !! "chunk_index" = Some (PInt 7)
    /\ rec_metadata r !! "chunk_index" <> Some (PInt 1).
Proof.
  eexists _, _. split; [vm_compute; reflexivity |].
  split; [vm_compute; reflexivity |].
  split; [vm_compute; reflexivity |].
  split; [vm_compute; reflexivity | vm_compute; discriminate].
Qed.

(** C4 as amended, on the handbook: three chunks, the second numbered 1
    of 3. *)
Lemma ingestion_numbers_chunks_witness :
  exists doc_data chunks w0 new r,
    extract_and_chunk "handbook.txt" (fresh_world empty_store)
    = (Ok (doc_data, chunks), w0)
    /\ length chunks = 3%nat
    /\ db_records (chroma after_upload) = new
    /\ length new = length chunks
    /\ new !! 1%nat = Some r
    /\ rec_id r = "doc-0_chunk_1"
    /\ rec_metadata r !! "chunk_index" = Some (PInt 1)
    /\ rec_metadata r !! "total_chunks" = Some (PInt 3).
Proof.
  destruct (ingestion_numbers_chunks "handbook.txt" upload_metadata
              (fresh_world empty_store) "doc-0" after_upload)
    as (d & chunks & w0 & new & Hchunk & _ & Hrecs & Hlen & Hnum & _);
    [vm_compute; reflexivity |].
  assert (length chunks = 3%nat) as Hthree.
  { vm_compute in Hchunk. injection Hchunk as <- <- <-. reflexivity. }
  destruct (Hnum 1%nat) as (r & Hr & Hid & _ & Hindex & Htotal);
    [rewrite Hthree; lia |].
  exists d, chunks, w0, new, r. split; [exact Hchunk |].
  split; [exact Hthree |]. split; [exact Hrecs |]. split; [exact Hlen |].
  split; [exact Hr |]. split; [exact Hid |].
  split; [apply Hindex; reflexivity |].
  rewrite Htotal, Hthree; reflexivity.
Defined.

(** C10 on the handbook, uploaded under a caller's [document_id]. *)
Lemma caller_metadata_overrides_witness :
  exists new,
    db_records
      (chroma (snd (RAGService.add_document "handbook.txt"
                      {[ "document_id" := PStr "custom" ]}
                      (fresh_world empty_store))))
    = new
    /\ forall r, r ∈ new ->
         rec_metadata r !! "document_id" = Some (PStr "custom").
Proof.
  destruct (caller_metadata_overrides "handbook.txt"
              {[ "document_id" := PStr "custom" ]}
              (fresh_world empty_store) "doc-0"
              (snd (RAGService.add_document "handbook.txt"
                      {[ "document_id" := PStr "custom" ]}
                      (fresh_world empty_store))))
    as (new & Hrecs & _ & _ & Hid); [vm_compute; reflexivity |].
  exists new. split; [exact Hrecs |].
  intros r Hr. apply (Hid r (PStr "custom") Hr). reflexivity.
Defined.

(** C5 on the uploaded handbook. *)
Lemma delete_document_complete_witness :
  exists w',
    RAGService.delete_document "doc-0" after_upload = (Ok tt, w')
    /\ chunks_of_document "doc-0" w'
       = Ok {| gr_ids := Some []; gr_metadatas := [] |}
    /\ documents_metadata w' !! "doc-0" = None.
Proof.
  destruct (delete_document_complete "doc-0" after_upload)
    as (w' & Hdel & _ & _ & Hget & Hgone & _);
    [apply after_upload_consistent | reflexivity |].
  exists w'. split; [exact Hdel |]. split; [exact Hget | exact Hgone].
Defined.

(** C9 on the services as imported. *)
Lemma operations_before_initialize_fail_witness :
  fails_not_initialized VectorStoreService.get_collection_info
    (fresh_world empty_store)
  /\ fails_not_initialized (VectorStoreService.delete_documents ["doc-0_chunk_0"])
       (fresh_world empty_store).
Proof.
  destruct (operations_before_initialize_fail (fresh_world empty_store))
    as (_ & _ & Hdelete & Hinfo & _); [reflexivity |].
  split; [exact Hinfo | apply Hdelete].
Defined.

(** C7 across a call with other sizes. *)
Lemma chunk_text_deterministic_witness :
  fst (DocumentProcessor.chunk_text TextSplitter.split_text
         handbook_text 16 2 (fresh_world empty_store))
  = fst (DocumentProcessor.chunk_text TextSplitter.split_text
           handbook_text 16 2
           (snd (DocumentProcessor.chunk_text TextSplitter.split_text
                   "another text" 50 10 (fresh_world empty_store)))).
Proof.
  destruct (chunk_text_deterministic TextSplitter.split_text
              handbook_text 16 2 (fresh_world empty_store)
              (snd (DocumentProcessor.chunk_text TextSplitter.split_text
                      "another text" 50 10 (fresh_world empty_store))))
    as [Hsame _].
  - apply processor_new. reflexivity.
  - apply processor_chunked, processor_new. reflexivity.
  - exact Hsame.
Defined.

(** C8 as stated fails: one space is a text that is not empty, of length
    at most the chunk size, and it yields no chunk. *)
Lemma one_space_yields_no_chunk :
  " " <> EmptyString
  /\ (len " " <= 1000)%Z
  /\ valid_sizes 1000 200
  /\ fst (DocumentProcessor.chunk_text TextSplitter.split_text
            " " 1000 200 (fresh_world empty_store))
     = Ok [].
Proof.
  split; [discriminate |]. split; [vm_compute; discriminate |].
  split; [unfold valid_sizes; lia | vm_compute; reflexivity].
Qed.

(** C8 as amended, on a short text and on a blank one. *)
Lemma chunk_text_edge_cases_witness :
  fst (DocumentProcessor.chunk_text TextSplitter.split_text
         " alpha beta " 1000 200 (fresh_world empty_store))
  = Ok ["alpha beta"]
  /\ fst (DocumentProcessor.chunk_text TextSplitter.split_text
            "   " 1000 200 (fresh_world empty_store))
     = Ok [].
Proof.
  split.
  - destruct (chunk_text_edge_cases " alpha beta " 1000 200
                (fresh_world empty_store)) as [Hshort _];
      [unfold valid_sizes; lia | apply processor_new; reflexivity |].
    rewrite Hshort; [reflexivity | | vm_compute; discriminate].
    unfold whitespace_only, blank. intros Hblank.
    apply Forall_cons in Hblank as [_ Hblank].
    apply Forall_cons in Hblank as [Ha _]. vm_compute in Ha. discriminate.
  - destruct (chunk_text_edge_cases "   " 1000 200
                (fresh_world empty_store)) as [_ Hblank];
      [unfold valid_sizes; lia | apply processor_new; reflexivity |].
    apply Hblank. unfold whitespace_only, blank. repeat constructor.
Defined.

End Deployment.

(** * Further properties *)

(** ** More on initialization *)

Section InitializationEffects.
Context `{Collaborators}.

Lemma ensure_initialized_flag w w' :
  RAGService.ensure_initialized w = (Ok tt, w') -> rag_initialized w' = true.
Proof.
  unfold RAGService.ensure_initialized, RAGService.initialize,
    VectorStoreService.initialize, when, bind, gets, modify, ret.
  destruct (rag_initialized w) eqn:Erag; simpl.
  { by intros [= <-]. }
  rewrite Erag. simpl.
  destruct (vs_initialized w) eqn:Evs; simpl.
  { by intros [= <-]. }
  destruct (Chroma.persistent_client _ _) as [[]|e]; simpl; [| done].
  destruct (Chroma.get_or_create_collection _ _ _) as [c|e]; simpl; [| done].
  by intros [= <-].
Qed.

(** A failed initialization leaves a consistent world too. *)
Lemma ensure_initialized_keeps_consistent w r w' :
  consistent w ->
  RAGService.ensure_initialized w = (r, w') -> consistent w'.
Proof.
  intros [Hvs Hrag].
  unfold RAGService.ensure_initialized, RAGService.initialize,
    VectorStoreService.initialize, when, bind, gets, modify, ret.
  destruct (rag_initialized w) eqn:Erag; simpl.
  { intros [= <- <-]. unfold consistent. rewrite Erag. intuition (eauto; congruence). }
  rewrite Erag. simpl.
  destruct (vs_initialized w) eqn:Evs; simpl.
  { intros [= <- <-]. unfold consistent. simpl. rewrite Evs.
    intuition (eauto; congruence). }
  destruct (Chroma.persistent_client _ _) as [[]|e]; simpl.
  - destruct (Chroma.get_or_create_collection _ _ _) as [c|e]; simpl;
      intros [= <- <-]; unfold consistent; simpl; rewrite ?Evs;
      intuition (eauto; congruence).
  - intros [= <- <-]. unfold consistent. simpl. rewrite Evs.
    intuition (eauto; congruence).
Qed.

End InitializationEffects.

(** ** Ingestion, step by step *)

Section IngestionSteps.
Context `{Collaborators}.

Lemma extract_and_chunk_inv document_path w doc_data chunks w0 :
  extract_and_chunk document_path w = (Ok (doc_data, chunks), w0) ->
  exists wi cached,
    RAGService.ensure_initialized w = (Ok tt, wi)
    /\ process_file document_path = Ok doc_data
    /\ w0 = set_text_splitter cached wi.
Proof.
  unfold extract_and_chunk, bind.
  destruct (RAGService.ensure_initialized w) as [[[]|e0] wi]; [| done].
  unfold lift. destruct (process_file document_path) as [d|e1]; [| done].
  unfold RAGService.document_processor_chunk_text.
  destruct (DocumentProcessor.chunk_text _ _ _ _ wi) as [r1 w1] eqn:Hchunk.
  apply chunk_text_frame in Hchunk as [cached ->].
  destruct r1 as [cs|e2]; [| done]. unfold ret. intros [= <- <- <-]. eauto.
Qed.

Lemma add_document_trace document_path metadata w doc_id w' :
  RAGService.add_document document_path metadata w = (Ok doc_id, w') ->
  exists doc_data chunks w0 embeddings db',
    extract_and_chunk document_path w = (Ok (doc_data, chunks), w0)
    /\ chunks <> []
    /\ doc_id = uuid4_str (uuid_count w0)
    /\ embed_documents chunks = Ok embeddings
    /\ Chroma.add chunks embeddings
         (imap (fun i _ =>
                  RAGService.chunk_metadata doc_data doc_id i
                    (length chunks) metadata) chunks)
         (imap (fun i _ => RAGService.chunk_id doc_id i) chunks)
         (chroma w0) = Ok db'
    /\ vs_initialized w0 = true /\ is_Some (vs_collection w0)
    /\ w' = ingested_world doc_data chunks metadata db' w0.
Proof.
  unfold RAGService.add_document, bind.
  destruct (extract_and_chunk document_path w) as [r0 w0] eqn:Hchunk.
  revert Hchunk. unfold extract_and_chunk, bind.
  destruct (RAGService.ensure_initialized w) as [[[]|e0] wi]; [| done].
  unfold lift. destruct (process_file document_path) as [d|e1]; [| done].
  destruct (RAGService.document_processor_chunk_text _ _ _ wi)
    as [[chunks|e2] w1]; [| done].
  unfold ret. intros [= <- <-].
  destruct chunks as [|c chunks]; [done |].
  assert (c :: chunks <> []) as Hne by done.
  remember (c :: chunks) as cs eqn:Hcs. clear Hcs.
  unfold RAGService.uuid4.
  unfold RAGService.embeddings_embed_documents, bind, gets, raise.
  cbn [rag_embeddings set_uuid_count]. destruct (rag_embeddings w1); [| done].
  destruct (embed_documents cs) as [embs|e3] eqn:Hemb; [| done].
  rewrite (metadata_loop_spec _ _ _ _ 0 cs [] []). simpl app.
  unfold VectorStoreService.add_documents,
    VectorStoreService.with_collection, VectorStoreService.not_initialized,
    Chroma.write, bind, gets, raise.
  cbn [vs_initialized vs_collection chroma set_uuid_count log_call].
  destruct (vs_initialized w1) eqn:Hvs, (vs_collection w1) eqn:Hcoll; try done.
  destruct (Chroma.add _ _ _ _ _) as [db'|e4] eqn:Hadd; [| done].
  unfold RAGService.datetime_now_isoformat, modify, ret.
  intros [= <- <-].
  exists d, cs, w1, embs, db'. repeat split; eauto.
Qed.

End IngestionSteps.

Lemma append_inj_r (p s t : string) : p +:+ s = p +:+ t -> s = t.
Proof.
  induction p as [|c p IH]; [done |].
  change (String c (p +:+ s) = String c (p +:+ t) -> s = t).
  intros [= Heq]. by apply IH.
Qed.

Lemma chunk_id_inj doc_id i j :
  RAGService.chunk_id doc_id i = RAGService.chunk_id doc_id j -> i = j.
Proof.
  unfold RAGService.chunk_id. intros Heq.
  apply append_inj_r, append_inj_r in Heq. by apply (inj pretty) in Heq.
Qed.

Lemma imap_index_only {A B} (g : nat -> B) (l : list A) :
  imap (fun i _ => g i) l = g <$> seq 0 (length l).
Proof.
  revert g. induction l as [|x l IH]; intros g; [done |].
  rewrite imap_cons. simpl. f_equal.
  rewrite <- fmap_S_seq, <- list_fmap_compose, <- (IH (g ∘ S)).
  by apply imap_ext.
Qed.

Lemma chunk_ids_NoDup doc_id (chunks : list string) :
  NoDup (imap (fun i _ => RAGService.chunk_id doc_id i) chunks).
Proof.
  rewrite (imap_index_only (RAGService.chunk_id doc_id)).
  apply NoDup_fmap_2_strong; [| apply NoDup_seq].
  intros i j _ _. apply chunk_id_inj.
Qed.

Lemma chroma_add_ok documents embeddings metadatas ids db :
  db_available db = true ->
  length documents = length ids -> length embeddings = length ids ->
  length metadatas = length ids ->
  NoDup ids ->
  (forall id, id ∈ ids -> id ∉ rec_id <$> db_records db) ->
  Chroma.add documents embeddings metadatas ids db
  = Ok {| db_available := true;
          db_records := db_records db
            ++ Chroma.make_records documents embeddings metadatas ids |}.
Proof.
  intros Hdb Hd He Hm Hnodup Hfresh. unfold Chroma.add. rewrite Hdb. simpl.
  unfold Chroma.same_lengths.
  rewrite !bool_decide_eq_true_2 by done. simpl.
  unfold Chroma.fresh_ids. rewrite bool_decide_eq_true_2 by done. simpl.
  assert (forallb (fun i => bool_decide (i ∉ rec_id <$> db_records db)) ids
          = true) as ->.
  { apply List.forallb_forall. intros id Hid.
    apply bool_decide_eq_true_2, Hfresh. by apply list_elem_of_In. }
  done.
Qed.

Section IngestionExtras.
Context `{Collaborators}.

(** X1. An ingestion that fails registers nothing: at whatever step it
    fails (initialization, extraction, chunking, embedding or the write to
    the index), the registry is the one before the call.  When it fails
    before the write to the index, so that no batch was handed to the
    index, the store behind the index is the one before the call too;
    nothing is said of the store after a write that failed. *)
Theorem failed_ingestion_registers_nothing document_path metadata w e w' :
  RAGService.add_document document_path metadata w = (Raise e, w') ->
  documents_metadata w' = documents_metadata w
  /\ (index_writes w' = index_writes w -> chroma w' = chroma w).
Proof.
  unfold RAGService.add_document, bind.
  destruct (RAGService.ensure_initialized w) as [r0 wi] eqn:Hinit.
  apply ensure_initialized_frame in Hinit as (Hdb & Hcalls & Hreg & _).
  destruct r0 as [[]|e0]; [| intros [= <- <-]; done].
  unfold lift. destruct (process_file document_path) as [d|e1];
    [| intros [= <- <-]; done].
  unfold RAGService.document_processor_chunk_text.
  destruct (DocumentProcessor.chunk_text _ _ _ _ wi) as [r1 w1] eqn:Hchunk.
  apply chunk_text_frame in Hchunk as [cached ->].
  destruct r1 as [chunks|e2]; [| intros [= <- <-]; simpl; done].
  destruct chunks as [|c chunks]; [intros [= <- <-]; simpl; done |].
  remember (c :: chunks) as cs eqn:Hcs. clear Hcs.
  unfold RAGService.uuid4.
  unfold RAGService.embeddings_embed_documents, bind, gets, raise.
  cbn [rag_embeddings set_uuid_count set_text_splitter].
  destruct (rag_embeddings wi); [| intros [= <- <-]; simpl; done].
  destruct (embed_documents cs) as [embs|e3];
    [| intros [= <- <-]; simpl; done].
  destruct (RAGService.metadata_loop _ _ _ _ _ _ _) as [ids metas].
  unfold VectorStoreService.add_documents,
    VectorStoreService.with_collection, VectorStoreService.not_initialized,
    Chroma.write, bind, gets, raise.
  cbn [vs_initialized vs_collection chroma set_uuid_count log_call
         set_text_splitter].
  destruct (vs_initialized wi), (vs_collection wi);
    try (intros [= <- <-]; simpl; done).
  destruct (Chroma.add _ _ _ _ _) as [db'|e4].
  - unfold RAGService.datetime_now_isoformat, modify, ret. done.
  - intros [= <- <-]. split; [done |].
    unfold index_writes. simpl. rewrite Hcalls. intros Hsame.
    apply (f_equal length) in Hsame. simpl in Hsame. lia.
Qed.

Lemma add_document_after_chunking document_path metadata w doc_data chunks w0 :
  extract_and_chunk document_path w = (Ok (doc_data, chunks), w0) ->
  chunks <> [] ->
  RAGService.add_document document_path metadata w
  = (doc_id <- RAGService.uuid4 ;;
     chunk_embeddings <- RAGService.embeddings_embed_documents chunks ;;
     VectorStoreService.add_documents chunks chunk_embeddings
       (imap (fun i _ =>
                RAGService.chunk_metadata doc_data doc_id i (length chunks)
                  metadata) chunks)
       (imap (fun i _ => RAGService.chunk_id doc_id i) chunks) ;;;
     upload_date <- RAGService.datetime_now_isoformat ;;
     modify (fun w =>
       set_documents_metadata
         (<[ doc_id := RAGService.document_record doc_data doc_id upload_date
                         (length chunks) metadata ]>
            (documents_metadata w)) w) ;;;
     ret doc_id) w0.
Proof.
  unfold extract_and_chunk, RAGService.add_document.
  intros Hchunk Hne. revert Hchunk. unfold bind at 1 2 3 4 5 6.
  destruct (RAGService.ensure_initialized w) as [[[]|e0] wi]; [| done].
  unfold lift. destruct (process_file document_path) as [d|e1]; [| done].
  destruct (RAGService.document_processor_chunk_text _ _ _ wi)
    as [[cs|e2] w1]; [| done].
  unfold ret at 1. intros [= -> -> ->].
  destruct chunks as [|c chunks]; [done |].
  remember (c :: chunks) as cs eqn:Hcs. clear Hcs.
  unfold bind. unfold RAGService.uuid4.
  destruct (RAGService.embeddings_embed_documents cs _) as [[embs|e3] w2];
    [| done].
  by rewrite (metadata_loop_spec _ _ _ _ 0 cs [] []).
Qed.

(** X2. Sufficient conditions for an ingestion to succeed: on a consistent
    world over an available store, when extraction and chunking give at
    least one chunk, the embedding client returns one vector per chunk and
    none of the ids "{document_id}_chunk_{i}" is in the index yet,
    [add_document] returns the generated document id. *)
Theorem ingestion_succeeds document_path metadata w doc_data chunks w0
    embeddings :
  consistent w -> db_available (chroma w) = true ->
  extract_and_chunk document_path w = (Ok (doc_data, chunks), w0) ->
  chunks <> [] ->
  embed_documents chunks = Ok embeddings ->
  length embeddings = length chunks ->
  (forall i, (i < length chunks)%nat ->
     RAGService.chunk_id (uuid4_str (uuid_count w)) i
     ∉ rec_id <$> db_records (chroma w)) ->
  exists w',
    RAGService.add_document document_path metadata w
    = (Ok (uuid4_str (uuid_count w)), w').
Proof.
  intros Hw Hdb Hchunk Hne Hemb Hlen Hfresh.
  rewrite (add_document_after_chunking _ _ _ _ _ _ Hchunk Hne).
  pose proof (extract_and_chunk_frame _ _ _ _ Hchunk)
    as (Hdb0 & _ & _ & Hu & _).
  apply extract_and_chunk_inv in Hchunk as (wi & cached & Hinit & _ & ->).
  destruct (ensure_initialized_consistent _ _ Hw Hinit) as [[Hvs Hrag] Hready].
  destruct (Hrag Hready) as ([[] Hemb'] & _ & Hvsi).
  destruct (Hvs Hvsi) as [c Hcoll].
  unfold bind, RAGService.uuid4.
  unfold RAGService.embeddings_embed_documents, bind, gets.
  cbn [rag_embeddings set_uuid_count set_text_splitter].
  rewrite Hemb', Hemb.
  unfold VectorStoreService.add_documents,
    VectorStoreService.with_collection, Chroma.write, bind, gets.
  cbn [vs_initialized vs_collection chroma set_uuid_count log_call
         set_text_splitter uuid_count].
  rewrite Hvsi, Hcoll.
  simpl in Hdb0, Hu. rewrite Hu.
  rewrite chroma_add_ok; rewrite ?length_imap; try done.
  - unfold RAGService.datetime_now_isoformat, modify, ret. eauto.
  - simpl. congruence.
  - apply chunk_ids_NoDup.
  - intros id Hid. apply list_elem_of_lookup in Hid as [i Hi].
    rewrite list_lookup_imap in Hi.
    destruct (chunks !! i) as [c'|] eqn:Hc; [| done].
    injection Hi as <-. simpl. rewrite Hdb0. apply Hfresh.
    by eapply lookup_lt_Some.
Qed.

(** X3. The chunk ids one ingestion builds are pairwise distinct, one per
    chunk, so a batch never collides with itself. *)
Theorem chunk_ids_distinct doc_data doc_id total_chunks metadata chunks :
  NoDup (fst (RAGService.metadata_loop doc_data doc_id total_chunks metadata
                (RAGService.enumerate 0 chunks) [] []))
  /\ length (fst (RAGService.metadata_loop doc_data doc_id total_chunks
                    metadata (RAGService.enumerate 0 chunks) [] []))
     = length chunks.
Proof.
  rewrite (metadata_loop_spec _ _ _ _ 0 chunks [] []). simpl.
  split; [apply chunk_ids_NoDup | by rewrite length_imap].
Qed.

Lemma add_document_flag document_path metadata w doc_id w' :
  RAGService.add_document document_path metadata w = (Ok doc_id, w') ->
  rag_initialized w' = true /\ vs_initialized w' = true
  /\ is_Some (vs_collection w') /\ db_available (chroma w') = true
  /\ (consistent w -> consistent w').
Proof.
  intros Hadd.
  apply add_document_trace in Hadd
    as (d & chunks & w0 & embs & db' & Hchunk & _ & _ & _ & Hadd & Hvs & Hcoll
        & ->).
  apply extract_and_chunk_inv in Hchunk as (wi & cached & Hinit & _ & ->).
  pose proof (ensure_initialized_flag _ _ Hinit) as Hready.
  assert (db_available db' = true) as Hdb'.
  { revert Hadd. unfold Chroma.add.
    destruct (db_available _) eqn:Hdb; simpl; [| done].
    destruct (negb _); [done |]. destruct (negb _); [done |].
    by intros [= <-]. }
  simpl in Hvs, Hcoll.
  split; [done |]. split; [done |]. split; [done |]. split; [done |].
  intros Hw. apply (ensure_initialized_consistent _ _ Hw) in Hinit as [Hwi _].
  exact Hwi.
Qed.

(** X4. After a successful ingestion [get_document_by_id] returns the
    registered document under the returned id: each of the six keys the
    orchestrator sets ([id], [filename], [file_type], [size],
    [upload_date], [chunks_count]) holds the caller's value when the caller
    metadata has that key and the generated value otherwise, every other
    key is the caller's; the other registry entries are what they were. *)
Theorem ingest_then_get document_path metadata w doc_id w' :
  RAGService.add_document document_path metadata w = (Ok doc_id, w') ->
  exists doc_data chunks w0 record,
    extract_and_chunk document_path w = (Ok (doc_data, chunks), w0)
    /\ RAGService.get_document_by_id doc_id w' = (Ok (Some record), w')
    /\ record !! "id" = Some (default (PStr doc_id) (metadata !! "id"))
    /\ record !! "filename"
       = Some (default (PStr (dd_filename doc_data)) (metadata !! "filename"))
    /\ record !! "file_type"
       = Some (default (PStr (dd_file_type doc_data))
                 (metadata !! "file_type"))
    /\ record !! "size"
       = Some (default (PInt (dd_size doc_data)) (metadata !! "size"))
    /\ record !! "upload_date"
       = Some (default (PStr (isoformat_now (clock w)))
                 (metadata !! "upload_date"))
    /\ record !! "chunks_count"
       = Some (default (PInt (Z.of_nat (length chunks)))
                 (metadata !! "chunks_count"))
    /\ (forall key,
          key ∉ ["id"; "filename"; "file_type"; "size"; "upload_date";
                 "chunks_count"] ->
          record !! key = metadata !! key)
    /\ (forall other,
          other <> doc_id ->
          RAGService.get_document_by_id other w'
          = (Ok (documents_metadata w !! other), w')).
Proof.
  intros Hadd.
  pose proof (add_document_flag _ _ _ _ _ Hadd) as (Hready & _).
  apply add_document_inv in Hadd
    as (d & chunks & w0 & embs & Hchunk & _ & -> & _ & _ & _ & Hreg).
  assert (forall id,
            RAGService.get_document_by_id id w'
            = (Ok (documents_metadata w' !! id), w')) as Hget.
  { intros id. unfold RAGService.get_document_by_id.
    rewrite (bind_ok _ _ _ _ _ (ensure_initialized_ready _ Hready)).
    reflexivity. }
  eexists d, chunks, w0, _. split; [done |].
  split; [rewrite Hget, Hreg, lookup_insert_eq; reflexivity |].
  assert (forall key sys,
            (<[ "chunks_count" := PInt (Z.of_nat (length chunks)) ]>
             (<[ "upload_date" := PStr (isoformat_now (clock w)) ]>
              (<[ "size" := PInt (dd_size d) ]>
               (<[ "file_type" := PStr (dd_file_type d) ]>
                (<[ "filename" := PStr (dd_filename d) ]>
                 (<[ "id" := PStr (uuid4_str (uuid_count w)) ]> ∅))))) : Dict)
              !! key = Some sys ->
            RAGService.document_record d (uuid4_str (uuid_count w))
              (isoformat_now (clock w)) (length chunks) metadata !! key
            = Some (default sys (metadata !! key))) as Hkey.
  { intros key sys Hsys. unfold RAGService.document_record.
    destruct (metadata !! key) as [v|] eqn:Hm; simpl.
    - by apply dict_merge_override.
    - by rewrite dict_merge_keep. }
  do 6 (split; [by apply Hkey |]).
  split.
  - intros key Hkeys. unfold RAGService.document_record, dict_merge.
    destruct (metadata !! key) as [v|] eqn:Hm.
    + by apply lookup_union_Some_l.
    + rewrite lookup_union_r by done.
      rewrite !lookup_insert_ne; [done | ..];
        intros <-; apply Hkeys; set_solver.
  - intros other Hother. rewrite Hget, Hreg. by rewrite lookup_insert_ne.
Qed.

End IngestionExtras.

(** ** Deletion, in full *)

Lemma matches_where_singleton key value r :
  Chroma.matches_where {[ key := value ]} r = true
  <-> rec_metadata r !! key = Some value.
Proof.
  unfold Chroma.matches_where. rewrite bool_decide_eq_true.
  by rewrite map_Forall_singleton.
Qed.

Lemma matches_where_empty r : Chroma.matches_where ∅ r = true.
Proof.
  unfold Chroma.matches_where. apply bool_decide_eq_true_2, map_Forall_empty.
Qed.

Lemma filter_not_in_nil (l : list ChunkRecord) :
  filter (fun r => rec_id r ∉ []) l = l.
Proof.
  induction l as [|r l IH]; [done |].
  rewrite filter_cons_True by set_solver. by rewrite IH.
Qed.

Lemma matching_ids_elem where_ db id :
  id ∈ matching_ids where_ db
  <-> exists r, r ∈ db_records db /\ Chroma.matches_where where_ r = true
                /\ rec_id r = id.
Proof.
  unfold matching_ids. rewrite list_elem_of_fmap. split.
  - intros (r & -> & Hr). apply list_elem_of_In, List.filter_In in Hr as [Hr Hm].
    exists r. by rewrite list_elem_of_In.
  - intros (r & Hr & Hm & <-). exists r. split; [done |].
    apply list_elem_of_In, List.filter_In. by rewrite <- list_elem_of_In.
Qed.

Section DeletionEffects.
Context `{Collaborators}.

Lemma delete_document_effect document_id w :
  consistent w -> db_available (chroma w) = true ->
  let where_ : Dict := {[ "document_id" := PStr document_id ]} in
  exists w',
    RAGService.delete_document document_id w = (Ok tt, w')
    /\ consistent w' /\ rag_initialized w' = true
    /\ db_available (chroma w') = true
    /\ db_records (chroma w')
       = filter (fun r => rec_id r ∉ matching_ids where_ (chroma w))
           (db_records (chroma w))
    /\ documents_metadata w' = delete document_id (documents_metadata w).
Proof.
  intros Hw Hdb where_.
  destruct (ensure_initialized_available w Hw Hdb) as [w0 Hinit].
  destruct (ensure_initialized_consistent _ _ Hw Hinit) as [Hw0 Hready].
  pose proof (ensure_initialized_frame _ _ _ Hinit) as (Hdb0 & _ & Hreg0 & _).
  destruct Hw0 as [Hvs0 Hrag0].
  destruct (Hrag0 Hready) as (Hemb & Hllm & Hvsi).
  destruct (Hvs0 Hvsi) as [c Hcoll].
  unfold RAGService.delete_document.
  rewrite (bind_ok _ _ _ _ _ Hinit).
  assert (RAGService.collection_get_by_document document_id w0
          = (Chroma.get where_ (chroma w0), log_call (EvGet where_) w0))
    as Hget.
  { unfold RAGService.collection_get_by_document, bind, gets.
    by rewrite Hcoll. }
  rewrite chroma_get_available in Hget by congruence.
  rewrite (bind_ok _ _ _ _ _ Hget). cbn [gr_ids].
  rewrite Hdb0.
  set (w1 := log_call (EvGet where_) w0).
  set (ids := matching_ids where_ (chroma w)).
  assert (exists w2,
            when (0 <? length ids)%nat
              (VectorStoreService.delete_documents ids) w1 = (Ok tt, w2)
            /\ vs_initialized w2 = true /\ vs_collection w2 = Some c
            /\ rag_initialized w2 = true
            /\ rag_embeddings w2 = rag_embeddings w0
            /\ rag_llm w2 = rag_llm w0
            /\ db_available (chroma w2) = true
            /\ db_records (chroma w2)
               = filter (fun r => rec_id r ∉ ids) (db_records (chroma w))
            /\ documents_metadata w2 = documents_metadata w)
    as (w2 & Hdel & Hvs2 & Hcoll2 & Hrag2 & Hemb2 & Hllm2 & Hdb2 & Hrecs
        & Hreg2).
  { destruct ids as [|id ids'] eqn:Hids.
    - exists w1. simpl. unfold ret. repeat split; try done.
      + simpl. congruence.
      + simpl. rewrite Hdb0. by rewrite filter_not_in_nil.
    - exists (log_call (EvDelete (id :: ids'))
                (set_chroma
                   {| db_available := true;
                      db_records :=
                        filter (fun r => rec_id r ∉ id :: ids')
                          (db_records (chroma w)) |} w1)).
      split.
      { simpl. apply (delete_documents_available _ _ c); try done.
        simpl. unfold Chroma.delete. rewrite Hdb0, Hdb. done. }
      repeat split; done. }
  rewrite (bind_ok _ _ _ _ _ Hdel).
  unfold bind, gets, when, modify, ret.
  assert (forall w3, rag_initialized w3 = true ->
            rag_embeddings w3 = rag_embeddings w0 ->
            rag_llm w3 = rag_llm w0 -> vs_initialized w3 = true ->
            vs_collection w3 = Some c -> consistent w3) as Hcons.
  { intros w3 E1 E2 E3 E4 E5. unfold consistent.
    rewrite E2, E3, E4, E5. eauto. }
  destruct (bool_decide (is_Some (documents_metadata w2 !! document_id)))
    eqn:Hin.
  - eexists. split; [done |]. simpl.
    split; [by apply Hcons |]. repeat split; try done. by rewrite Hreg2.
  - exists w2. split; [done |].
    split; [by apply Hcons |]. repeat split; try done.
    apply bool_decide_eq_false in Hin.
    rewrite Hreg2 in *. symmetry. apply delete_id.
    by apply eq_None_not_Some.
Qed.

End DeletionEffects.

Lemma chroma_add_fresh documents embeddings metadatas ids db db' :
  Chroma.add documents embeddings metadatas ids db = Ok db' ->
  forall id, id ∈ ids -> id ∉ rec_id <$> db_records db.
Proof.
  unfold Chroma.add.
  destruct (db_available db); simpl; [| done].
  destruct (Chroma.same_lengths _ _ _ _); simpl; [| done].
  destruct (Chroma.fresh_ids _ _) eqn:Hfresh; simpl; [| done].
  intros _ id Hid. unfold Chroma.fresh_ids in Hfresh.
  apply andb_prop in Hfresh as [_ Hfresh].
  rewrite List.forallb_forall in Hfresh.
  apply list_elem_of_In, Hfresh in Hid. by apply bool_decide_eq_true in Hid.
Qed.

Lemma filter_all {A} (P : A -> Prop) `{forall x, Decision (P x)} (l : list A) :
  (forall x, x ∈ l -> P x) -> filter P l = l.
Proof.
  induction l as [|x l IH]; intros Hl; [done |].
  rewrite filter_cons_True by (apply Hl; left).
  rewrite IH; [done |]. intros y Hy. apply Hl. by right.
Qed.

Lemma filter_none {A} (P : A -> Prop) `{forall x, Decision (P x)} (l : list A) :
  (forall x, x ∈ l -> ~ P x) -> filter P l = [].
Proof.
  induction l as [|x l IH]; intros Hl; [done |].
  rewrite filter_cons_False by (apply Hl; left).
  apply IH. intros y Hy. apply Hl. by right.
Qed.

Lemma ingested_records_elem doc_data doc_id metadata chunks embeddings r :
  length embeddings = length chunks ->
  r ∈ ingested_records doc_data doc_id metadata chunks embeddings ->
  exists i,
    (i < length chunks)%nat
    /\ rec_id r = RAGService.chunk_id doc_id i
    /\ rec_metadata r
       = RAGService.chunk_metadata doc_data doc_id i (length chunks) metadata.
Proof.
  intros Hlen Hr. apply list_elem_of_lookup in Hr as [i Hi].
  assert (i < length chunks)%nat as Hlt.
  { rewrite <- (ingested_records_length doc_data doc_id metadata chunks
                  embeddings Hlen).
    by eapply lookup_lt_Some. }
  destruct (ingested_records_lookup doc_data doc_id metadata chunks embeddings
              i Hlen Hlt) as (c & e & _ & _ & Hr).
  rewrite Hi in Hr. injection Hr as ->. exists i. done.
Qed.

Section DeletionExtras.
Context `{Collaborators}.

Lemma add_document_store document_path metadata w doc_id w' :
  RAGService.add_document document_path metadata w = (Ok doc_id, w') ->
  exists doc_data chunks embeddings,
    chunks <> [] /\ length embeddings = length chunks
    /\ db_records (chroma w')
       = db_records (chroma w)
         ++ ingested_records doc_data doc_id metadata chunks embeddings
    /\ (forall i, (i < length chunks)%nat ->
          RAGService.chunk_id doc_id i ∉ rec_id <$> db_records (chroma w)).
Proof.
  intros Hadd.
  pose proof (add_document_inv _ _ _ _ _ Hadd)
    as (d & chunks & w0 & embs & Hchunk & Hne & Hid & Hemb & Hlen & Hrecs & _).
  apply add_document_trace in Hadd
    as (d' & chunks' & w0' & embs' & db' & Hchunk' & _ & Hid' & _ & Hadd & _).
  rewrite Hchunk in Hchunk'. injection Hchunk' as <- <- <-.
  pose proof (extract_and_chunk_frame _ _ _ _ Hchunk) as (Hdb & _).
  exists d, chunks, embs. split; [done |]. split; [done |]. split; [done |].
  intros i Hi. rewrite <- Hdb.
  eapply chroma_add_fresh; [exact Hadd |].
  apply list_elem_of_lookup. exists i. rewrite list_lookup_imap.
  destruct (lookup_lt_is_Some_2 chunks i Hi) as [c ->]. done.
Qed.

(** X5. Ingestion followed by deletion is a round trip: when the caller
    metadata has no [document_id] key, the returned id was not registered
    before and no stored record carried it as its [document_id], deleting
    the returned id brings the index records and the registry back to what
    they were before the ingestion. *)
Theorem ingest_then_delete_restores document_path metadata w doc_id w1 :
  consistent w ->
  RAGService.add_document document_path metadata w = (Ok doc_id, w1) ->
  metadata !! "document_id" = None ->
  documents_metadata w !! doc_id = None ->
  (forall r, r ∈ db_records (chroma w) ->
     rec_metadata r !! "document_id" <> Some (PStr doc_id)) ->
  exists w2,
    RAGService.delete_document doc_id w1 = (Ok tt, w2)
    /\ db_records (chroma w2) = db_records (chroma w)
    /\ documents_metadata w2 = documents_metadata w.
Proof.
  intros Hw Hadd Hkey Hnew Hold.
  pose proof (add_document_flag _ _ _ _ _ Hadd) as (_ & _ & _ & Hdb1 & Hw1).
  pose proof (add_document_store _ _ _ _ _ Hadd)
    as (d & chunks & embs & Hne & Hlen & Hrecs & Hfresh).
  apply add_document_inv in Hadd
    as (d' & chunks' & w0 & embs' & _ & _ & _ & _ & _ & _ & Hreg).
  destruct (delete_document_effect doc_id w1 (Hw1 Hw) Hdb1)
    as (w2 & Hdel & _ & _ & _ & Hrecs2 & Hreg2).
  exists w2. split; [done |]. split.
  - rewrite Hrecs2, Hrecs, filter_app.
    set (where_ := {[ "document_id" := PStr doc_id ]} : Dict).
    assert (forall r,
              r ∈ ingested_records d doc_id metadata chunks embs ->
              rec_metadata r !! "document_id" = Some (PStr doc_id)) as Hmeta.
    { intros r Hr.
      apply ingested_records_elem in Hr as (i & _ & _ & ->); [| done].
      unfold RAGService.chunk_metadata. rewrite dict_merge_keep by done.
      by simplify_map_eq. }
    rewrite filter_all, filter_none; [by rewrite app_nil_r | |].
    + intros r Hr Hnot. apply Hnot. apply matching_ids_elem.
      exists r. split; [rewrite Hrecs; set_solver |].
      split; [| done]. apply matches_where_singleton. by apply Hmeta.
    + intros r Hr Hin. apply matching_ids_elem in Hin as (r' & Hr' & Hm & Hid).
      apply matches_where_singleton in Hm.
      rewrite Hrecs in Hr'. apply elem_of_app in Hr' as [Hr'|Hr'].
      * by apply (Hold r').
      * apply ingested_records_elem in Hr' as (i & Hi & Hid' & _); [| done].
        apply (Hfresh i Hi). rewrite <- Hid', Hid.
        apply list_elem_of_fmap. by exists r.
  - rewrite Hreg2, Hreg. rewrite delete_insert_eq. by apply delete_id.
Qed.

(** X6. A caller's [document_id] detaches the chunks from their document:
    when the caller metadata sets [document_id] to something other than the
    generated id, and no stored record carried the generated id, deleting
    the document succeeds and removes its registry entry, and every chunk
    record of the document is still in the index. *)
Theorem delete_misses_relabelled_chunks document_path metadata w doc_id w1
    label :
  consistent w ->
  RAGService.add_document document_path metadata w = (Ok doc_id, w1) ->
  metadata !! "document_id" = Some label -> label <> PStr doc_id ->
  (forall r, r ∈ db_records (chroma w) ->
     rec_metadata r !! "document_id" <> Some (PStr doc_id)) ->
  exists w2 new,
    RAGService.delete_document doc_id w1 = (Ok tt, w2)
    /\ documents_metadata w2 !! doc_id = None
    /\ db_records (chroma w2) = db_records (chroma w1)
    /\ db_records (chroma w1) = db_records (chroma w) ++ new
    /\ new <> []
    /\ forall r, r ∈ new -> exists i, rec_id r = RAGService.chunk_id doc_id i.
Proof.
  intros Hw Hadd Hkey Hlabel Hold.
  pose proof (add_document_flag _ _ _ _ _ Hadd) as (_ & _ & _ & Hdb1 & Hw1).
  pose proof (add_document_store _ _ _ _ _ Hadd)
    as (d & chunks & embs & Hne & Hlen & Hrecs & Hfresh).
  destruct (delete_document_effect doc_id w1 (Hw1 Hw) Hdb1)
    as (w2 & Hdel & _ & _ & _ & Hrecs2 & Hreg2).
  exists w2, (ingested_records d doc_id metadata chunks embs).
  split; [done |]. split; [rewrite Hreg2; apply lookup_delete_eq |].
  split.
  - rewrite Hrecs2. apply filter_all. intros r Hr Hin.
    apply matching_ids_elem in Hin as (r' & Hr' & Hm & _).
    apply matches_where_singleton in Hm.
    rewrite Hrecs in Hr'. apply elem_of_app in Hr' as [Hr'|Hr'].
    + by apply (Hold r').
    + apply ingested_records_elem in Hr' as (i & _ & _ & Hmeta); [| done].
      rewrite Hmeta in Hm. unfold RAGService.chunk_metadata in Hm.
      rewrite (dict_merge_override _ _ _ _ Hkey) in Hm. congruence.
  - split; [done |]. split.
    + intros Hnil. apply (f_equal length) in Hnil.
      rewrite ingested_records_length in Hnil by done.
      destruct chunks; [done | simpl in Hnil; lia].
    + intros r Hr.
      apply ingested_records_elem in Hr as (i & _ & Hid & _); [| done].
      by exists i.
Qed.

(** X7. A deletion that fails keeps the registry entry: at whatever step
    it fails (initialization, the lookup of the chunks or their deletion),
    the registry is the one before the call.  When it fails before the
    deletion was asked of the index, the store behind the index is the one
    before the call too; nothing is said of the store after a deletion
    that failed. *)
Theorem failed_deletion_keeps_registry document_id w e w' :
  RAGService.delete_document document_id w = (Raise e, w') ->
  documents_metadata w' = documents_metadata w
  /\ (index_deletes w' = index_deletes w -> chroma w' = chroma w).
Proof.
  unfold RAGService.delete_document, bind.
  destruct (RAGService.ensure_initialized w) as [r0 w0] eqn:Hinit.
  apply ensure_initialized_frame in Hinit as (Hdb & Hcalls & Hreg & _).
  destruct r0 as [[]|e0]; [| by intros [= <- <-]].
  unfold RAGService.collection_get_by_document, bind, gets, raise, Chroma.read.
  destruct (vs_collection w0) eqn:Hcoll; [| by intros [= <- <-]].
  destruct (Chroma.get _ _) as [all_data|e1]; [| by intros [= <- <-]].
  destruct (gr_ids all_data) as [ids|].
  - unfold when. destruct (0 <? length ids)%nat.
    + unfold VectorStoreService.delete_documents,
        VectorStoreService.with_collection,
        VectorStoreService.not_initialized, try_except, Chroma.write,
        bind, gets, raise.
      cbn [vs_initialized vs_collection chroma log_call].
      rewrite Hcoll.
      destruct (vs_initialized w0); [| by intros [= <- <-]].
      destruct (Chroma.delete _ _) as [db'|e2].
      * unfold modify, ret. simpl. destruct (bool_decide _); done.
      * intros [= <- <-]. split; [done |].
        unfold index_deletes. simpl. rewrite Hcalls. intros Hsame.
        apply (f_equal length) in Hsame. simpl in Hsame. lia.
    + unfold modify, ret. simpl. destruct (bool_decide _); done.
  - unfold when, modify, ret. simpl. destruct (bool_decide _); done.
Qed.

End DeletionExtras.

(** ** The access layer, once initialized *)

Lemma ingested_records_ids doc_data doc_id metadata chunks embeddings :
  length embeddings = length chunks ->
  rec_id <$> ingested_records doc_data doc_id metadata chunks embeddings
  = imap (fun i _ => RAGService.chunk_id doc_id i) chunks.
Proof.
  intros Hlen. apply list_eq. intros i.
  rewrite list_lookup_fmap, list_lookup_imap.
  destruct (decide (i < length chunks)%nat) as [Hi|Hi].
  - destruct (ingested_records_lookup doc_data doc_id metadata chunks
                embeddings i Hlen Hi) as (c & e & -> & _ & ->). done.
  - rewrite !lookup_ge_None_2; [done | lia |].
    rewrite ingested_records_length by done. lia.
Qed.

Lemma filter_every_id (l : list ChunkRecord) :
  filter (fun r => rec_id r ∉ rec_id <$> l) l = [].
Proof.
  apply filter_none. intros r Hr Hnot. apply Hnot.
  apply list_elem_of_fmap. by exists r.
Qed.

Lemma matching_ids_all db : matching_ids ∅ db = rec_id <$> db_records db.
Proof.
  unfold matching_ids. f_equal.
  induction (db_records db) as [|r l IH]; [done |].
  simpl. by rewrite matches_where_empty, IH.
Qed.

Lemma matching_ids_app where_ a l1 l2 :
  matching_ids where_ {| db_available := a; db_records := l1 ++ l2 |}
  = matching_ids where_ {| db_available := a; db_records := l1 |}
    ++ matching_ids where_ {| db_available := a; db_records := l2 |}.
Proof.
  unfold matching_ids. simpl. by rewrite List.filter_app, fmap_app.
Qed.

Lemma list_filter_all {A} (f : A -> bool) (l : list A) :
  (forall x, x ∈ l -> f x = true) -> List.filter f l = l.
Proof.
  induction l as [|x l IH]; intros Hl; [done |]. simpl.
  rewrite Hl by left. rewrite IH; [done |]. intros y Hy. apply Hl. by right.
Qed.

Section AccessLayerExtras.
Context `{Collaborators}.

Lemma get_all_document_ids_ready w c :
  vs_initialized w = true -> vs_collection w = Some c ->
  db_available (chroma w) = true ->
  VectorStoreService.get_all_document_ids w
  = (Ok (rec_id <$> db_records (chroma w)), log_call (EvGet ∅) w).
Proof.
  intros Hinit Hcoll Hdb. unfold VectorStoreService.get_all_document_ids.
  rewrite (with_collection_ready _ _ _ Hinit Hcoll).
  unfold bind, Chroma.read, ret. rewrite chroma_get_available by done.
  simpl. by rewrite matching_ids_all.
Qed.

Lemma get_documents_by_source_ready source_filename w c :
  vs_initialized w = true -> vs_collection w = Some c ->
  db_available (chroma w) = true ->
  VectorStoreService.get_documents_by_source source_filename w
  = (Ok (matching_ids {[ "source" := PStr source_filename ]} (chroma w)),
     log_call (EvGet {[ "source" := PStr source_filename ]}) w).
Proof.
  intros Hinit Hcoll Hdb. unfold VectorStoreService.get_documents_by_source.
  rewrite (with_collection_ready _ _ _ Hinit Hcoll).
  unfold bind, Chroma.read, ret. by rewrite chroma_get_available by done.
Qed.

(** X8. On an initialized access layer over an available store,
    [clear_collection] succeeds and leaves no record in the index, and does
    not touch the document registry: every id listing and every similarity
    search afterwards is empty while the documents stay registered. *)
Theorem clear_collection_empties_index w c :
  vs_initialized w = true -> vs_collection w = Some c ->
  db_available (chroma w) = true ->
  exists w',
    VectorStoreService.clear_collection w = (Ok tt, w')
    /\ db_records (chroma w') = []
    /\ documents_metadata w' = documents_metadata w
    /\ fst (VectorStoreService.get_all_document_ids w') = Ok []
    /\ forall query_embedding top_k filter_dict,
         fst (VectorStoreService.similarity_search
                query_embedding top_k filter_dict w') = Ok [].
Proof.
  intros Hinit Hcoll Hdb.
  assert (exists w',
            VectorStoreService.clear_collection w = (Ok tt, w')
            /\ db_records (chroma w') = []
            /\ documents_metadata w' = documents_metadata w
            /\ vs_initialized w' = true /\ vs_collection w' = Some c
            /\ db_available (chroma w') = true)
    as (w' & Hclear & Hrecs & Hreg & Hinit' & Hcoll' & Hdb').
  { unfold VectorStoreService.clear_collection.
    rewrite (with_collection_ready _ _ _ Hinit Hcoll).
    unfold bind, Chroma.read. rewrite chroma_get_available by done.
    cbn [gr_ids]. rewrite matching_ids_all.
    destruct (db_records (chroma w)) as [|r l] eqn:Hl.
    - simpl. unfold ret. eexists. split; [done |]. simpl. by rewrite Hl.
    - change (0 <? length (rec_id <$> r :: l))%nat with true.
      unfold when, Chroma.write, Chroma.delete. simpl.
      rewrite Hdb. simpl. eexists. split; [done |]. simpl.
      split; [| done]. rewrite Hl. apply (filter_every_id (r :: l)). }
  exists w'. split; [done |]. split; [done |]. split; [done |]. split.
  - rewrite (get_all_document_ids_ready _ c) by done. simpl. by rewrite Hrecs.
  - intros q k f. rewrite (similarity_search_ready _ _ _ _ c) by done.
    simpl. unfold Chroma.nearest. rewrite Hrecs. simpl. by rewrite take_nil.
Qed.

(** X9. After a successful ingestion the ids the index lists are, in
    some order, the ids it held before together with the chunk ids
    "{document_id}_chunk_0" to "{document_id}_chunk_{n-1}" of the new
    document; and, when the caller metadata has no [source] key, the ids
    listed for the document's file name are, in some order, those listed
    for it before together with these chunk ids. *)
Theorem ingest_then_list_ids document_path metadata w doc_id w1 :
  RAGService.add_document document_path metadata w = (Ok doc_id, w1) ->
  exists doc_data chunks w0 ids,
    extract_and_chunk document_path w = (Ok (doc_data, chunks), w0)
    /\ fst (VectorStoreService.get_all_document_ids w1) = Ok ids
    /\ ids ≡ₚ (rec_id <$> db_records (chroma w))
               ++ imap (fun i _ => doc_id +:+ "_chunk_" +:+ pretty i) chunks
    /\ (metadata !! "source" = None ->
        exists found,
          fst (VectorStoreService.get_documents_by_source
                 (dd_filename doc_data) w1) = Ok found
          /\ found ≡ₚ matching_ids
                        {[ "source" := PStr (dd_filename doc_data) ]}
                        (chroma w)
                      ++ imap (fun i _ => doc_id +:+ "_chunk_" +:+ pretty i)
                           chunks).
Proof.
  intros Hadd.
  pose proof (add_document_flag _ _ _ _ _ Hadd)
    as (_ & Hinit & [c Hcoll] & Hdb1 & _).
  apply add_document_inv in Hadd
    as (d & chunks & w0 & embs & Hchunk & _ & _ & _ & Hlen & Hrecs & _).
  exists d, chunks, w0. eexists. split; [done |]. split; [| split].
  - rewrite (get_all_document_ids_ready _ c) by done. simpl.
    by rewrite Hrecs, fmap_app, ingested_records_ids.
  - done.
  - intros Hkey. eexists. split; [| reflexivity].
    rewrite (get_documents_by_source_ready _ _ c) by done. simpl.
    destruct (chroma w1) as [a1 l1] eqn:Hc1. simpl in Hrecs, Hdb1. subst.
    rewrite matching_ids_app.
    change (imap (fun i _ => doc_id +:+ "_chunk_" +:+ pretty i) chunks)
      with (imap (fun i _ => RAGService.chunk_id doc_id i) chunks).
    rewrite <- (ingested_records_ids d doc_id metadata chunks embs Hlen).
    unfold matching_ids at 2. simpl. rewrite list_filter_all; [done |].
    intros r Hr. apply matches_where_singleton.
    apply ingested_records_elem in Hr as (i & _ & _ & ->); [| done].
    unfold RAGService.chunk_metadata. rewrite dict_merge_keep by done.
    by simplify_map_eq.
Qed.

End AccessLayerExtras.

Section StatisticsExtras.
Context `{Collaborators}.

Lemma get_collection_info_ready w c :
  vs_initialized w = true -> vs_collection w = Some c ->
  db_available (chroma w) = true ->
  VectorStoreService.get_collection_info w
  = (Ok {| VectorStoreService.info_name := coll_name c;
           VectorStoreService.info_count :=
             Z.of_nat (length (db_records (chroma w)));
           VectorStoreService.info_metadata := coll_metadata c |},
     log_call EvCount w).
Proof.
  intros Hinit Hcoll Hdb. unfold VectorStoreService.get_collection_info.
  rewrite (with_collection_ready _ _ _ Hinit Hcoll).
  unfold bind, Chroma.read, Chroma.count, ret. by rewrite Hdb.
Qed.

(** X10. The statistics after a successful ingestion of a document whose
    id was not registered: one more document than the registry held, as
    many more chunks in the index as the document has, under the name of
    the collection the access layer holds. *)
Theorem ingest_then_stats document_path metadata w doc_id w1 :
  RAGService.add_document document_path metadata w = (Ok doc_id, w1) ->
  documents_metadata w !! doc_id = None ->
  exists doc_data chunks w0 c,
    extract_and_chunk document_path w = (Ok (doc_data, chunks), w0)
    /\ vs_collection w1 = Some c
    /\ fst (RAGService.get_collection_stats w1)
       = Ok {| RAGService.total_documents := S (size (documents_metadata w));
               RAGService.total_chunks :=
                 Z.of_nat (length (db_records (chroma w)) + length chunks);
               RAGService.stats_collection_name := coll_name c |}.
Proof.
  intros Hadd Hnew.
  pose proof (add_document_flag _ _ _ _ _ Hadd)
    as (Hready & Hinit & [c Hcoll] & Hdb1 & _).
  apply add_document_inv in Hadd
    as (d & chunks & w0 & embs & Hchunk & _ & _ & _ & Hlen & Hrecs & Hreg).
  exists d, chunks, w0, c. split; [done |]. split; [done |].
  unfold RAGService.get_collection_stats.
  rewrite (bind_ok _ _ _ _ _ (ensure_initialized_ready _ Hready)).
  rewrite (bind_ok _ _ _ _ _ (get_collection_info_ready _ _ Hinit Hcoll Hdb1)).
  unfold bind, gets, ret. simpl. rewrite Hreg, Hrecs.
  rewrite map_size_insert_None by done.
  by rewrite length_app, ingested_records_length.
Qed.

(** X11. The access layer sets its flag last.  A call of [initialize] on
    an uninitialized access layer that fails leaves it uninitialized, so
    the guarded operations keep raising "Vector store not initialized";
    one that succeeds leaves it initialized and holding a collection, and
    from then on every [initialize], with whatever directory and name,
    returns at once and changes nothing. *)
Theorem initialize_once persist_directory name w r w1 :
  vs_initialized w = false ->
  VectorStoreService.initialize persist_directory name w = (r, w1) ->
  (forall e, r = Raise e ->
     vs_initialized w1 = false
     /\ fails_not_initialized VectorStoreService.get_collection_info w1)
  /\ (r = Ok tt ->
      vs_initialized w1 = true /\ is_Some (vs_collection w1)
      /\ forall other_directory other_name,
           VectorStoreService.initialize other_directory other_name w1
           = (Ok tt, w1)).
Proof.
  intros Hinit.
  unfold VectorStoreService.initialize at 1.
  unfold bind, gets, modify. rewrite Hinit. simpl.
  destruct (Chroma.persistent_client _ _) as [[]|e1]; simpl.
  - destruct (Chroma.get_or_create_collection _ _ _) as [c|e2]; simpl.
    + intros [= <- <-]. split; [done |]. intros _.
      split; [done |]. split; [by eexists |]. intros d n. reflexivity.
    + intros [= <- <-]. split; [| done]. intros e _. split; [done |].
      by apply with_collection_uninitialized.
  - intros [= <- <-]. split; [| done]. intros e _. split; [done |].
    by apply with_collection_uninitialized.
Qed.

End StatisticsExtras.

(** ** Formatting raw query results *)

Lemma format_hit_cases results i :
  (exists hit, VectorStoreService.format_hit results i = Ok hit)
  \/ VectorStoreService.format_hit results i = Raise out_of_range.
Proof.
  unfold VectorStoreService.format_hit, index, out_of_range.
  destruct (qr_documents results !! 0%nat) as [docs0|]; simpl; [| by right].
  destruct (docs0 !! i); simpl; [| by right].
  destruct (qr_metadatas results !! 0%nat) as [metas0|]; simpl; [| by right].
  destruct (metas0 !! i); simpl; [| by right].
  destruct (qr_distances results !! 0%nat) as [dists0|]; simpl; [| by right].
  destruct (dists0 !! i); simpl; [| by right].
  destruct (qr_ids results) as [ids|]; simpl; [| by eauto].
  destruct (ids !! 0%nat) as [ids0|]; simpl; [| by right].
  destruct (ids0 !! i); simpl; [by eauto | by right].
Qed.

Lemma format_loop_fails results i n j acc :
  (i <= j < i + n)%nat ->
  VectorStoreService.format_hit results j = Raise out_of_range ->
  VectorStoreService.format_loop results (seq i n) acc = Raise out_of_range.
Proof.
  revert i acc. induction n as [|n IH]; intros i acc Hj Hfail; [lia |].
  simpl. destruct (decide (i = j)) as [->|Hne].
  - by rewrite Hfail.
  - destruct (format_hit_cases results i) as [[hit ->]| ->]; [| done].
    simpl. apply IH; [lia | done].
Qed.

Lemma format_loop_positional results i n acc :
  (forall j, (i <= j < i + n)%nat ->
     exists hit, VectorStoreService.format_hit results j = Ok hit) ->
  exists hits,
    VectorStoreService.format_loop results (seq i n) acc = Ok (acc ++ hits)
    /\ length hits = n
    /\ forall j, (j < n)%nat ->
         exists hit, hits !! j = Some hit
                     /\ VectorStoreService.format_hit results (i + j) = Ok hit.
Proof.
  revert i acc. induction n as [|n IH]; intros i acc Hok.
  - exists []. simpl. rewrite app_nil_r.
    split; [done |]. split; [done |]. intros j Hj. lia.
  - destruct (Hok i) as [hit Hhit]; [lia |].
    destruct (IH (S i) (acc ++ [hit])) as (hits & Hloop & Hlen & Hpos).
    { intros j Hj. apply Hok. lia. }
    exists (hit :: hits). simpl. rewrite Hhit. simpl.
    rewrite Hloop, <- app_assoc. split; [done |]. split; [by rewrite Hlen |].
    intros [|j] Hj.
    + exists hit. by rewrite Nat.add_0_r.
    + destruct (Hpos j) as (hit' & Hj' & Hfmt); [lia |].
      exists hit'. split; [done |]. by rewrite Nat.add_succ_r.
Qed.

(** X12. On a result dictionary whose inner lists run in parallel (as many
    metadatas and distances as documents, and as many ids when the [ids]
    key is present), [format_results] returns one hit per document, in
    order, each with the document, metadata and distance at its position
    and the id at its position, or no id when the key is absent. *)
Theorem format_results_positional ids documents metadatas distances :
  length metadatas = length documents ->
  length distances = length documents ->
  (forall l, ids = Some l -> length l = length documents) ->
  exists hits,
    VectorStoreService.format_results
      {| qr_ids := (fun l => [l]) <$> ids; qr_documents := [documents];
         qr_metadatas := [metadatas]; qr_distances := [distances] |}
    = Ok hits
    /\ length hits = length documents
    /\ forall i document,
         documents !! i = Some document ->
         exists metadata dist,
           metadatas !! i = Some metadata /\ distances !! i = Some dist
           /\ hits !! i
              = Some {| hit_document := document; hit_metadata := metadata;
                        hit_distance := dist;
                        hit_id := ids ≫= (fun l => l !! i) |}.
Proof.
  intros Hm Hd Hi.
  set (results := {| qr_ids := (fun l => [l]) <$> ids;
                     qr_documents := [documents];
                     qr_metadatas := [metadatas];
                     qr_distances := [distances] |}).
  assert (forall i document,
            documents !! i = Some document ->
            exists metadata dist,
              metadatas !! i = Some metadata /\ distances !! i = Some dist
              /\ VectorStoreService.format_hit results i
                 = Ok {| hit_document := document; hit_metadata := metadata;
                         hit_distance := dist;
                         hit_id := ids ≫= (fun l => l !! i) |}) as Hhit.
  { intros i document Hdoc.
    pose proof (lookup_lt_Some _ _ _ Hdoc) as Hlt.
    destruct (lookup_lt_is_Some_2 metadatas i) as [m Hmi]; [lia |].
    destruct (lookup_lt_is_Some_2 distances i) as [x Hxi]; [lia |].
    exists m, x. split; [done |]. split; [done |].
    unfold VectorStoreService.format_hit, index. simpl.
    rewrite Hdoc, Hmi, Hxi. simpl.
    destruct ids as [l|]; simpl; [| done].
    destruct (lookup_lt_is_Some_2 l i) as [id Hid];
      [rewrite (Hi l eq_refl); lia |].
    by rewrite Hid. }
  unfold VectorStoreService.format_results.
  change (qr_documents results) with [documents].
  destruct documents as [|d0 documents'] eqn:Hdocs.
  { exists []. simpl. split; [done |]. split; [done |]. intros i d. done. }
  rewrite <- Hdocs in *.
  assert ((0 <? length documents)%nat = true) as ->
    by (rewrite Hdocs; done).
  destruct (format_loop_positional results 0 (length documents) [])
    as (hits & Hloop & Hlen & Hpos).
  { intros j Hj. destruct (lookup_lt_is_Some_2 documents j) as [d Hdj]; [lia |].
    destruct (Hhit j d Hdj) as (m & x & _ & _ & Hfmt). eauto. }
  exists hits. split; [done |]. split; [done |].
  intros i document Hdoc.
  destruct (Hhit i document Hdoc) as (m & x & Hmi & Hxi & Hfmt).
  exists m, x. split; [done |]. split; [done |].
  destruct (Hpos i) as (hit & Hhi & Hfmt'); [by eapply lookup_lt_Some |].
  simpl in Hfmt'. rewrite Hfmt in Hfmt'. injection Hfmt' as <-. done.
Qed.

(** X13. On a result dictionary with fewer metadatas, distances or ids
    than documents, [format_results] raises [IndexError] and returns no
    hit at all. *)
Theorem format_results_ragged ids documents metadatas distances :
  (length metadatas < length documents)%nat
  \/ (length distances < length documents)%nat
  \/ (exists l, ids = Some l /\ (length l < length documents)%nat) ->
  VectorStoreService.format_results
    {| qr_ids := (fun l => [l]) <$> ids; qr_documents := [documents];
       qr_metadatas := [metadatas]; qr_distances := [distances] |}
  = Raise (IndexError "list index out of range").
Proof.
  intros Hshort.
  set (results := {| qr_ids := (fun l => [l]) <$> ids;
                     qr_documents := [documents];
                     qr_metadatas := [metadatas];
                     qr_distances := [distances] |}).
  assert (exists j, (j < length documents)%nat
                    /\ VectorStoreService.format_hit results j
                       = Raise out_of_range) as (j & Hj & Hfail).
  { destruct Hshort as [Hs|[Hs|(l & -> & Hs)]].
    - exists (length metadatas). split; [done |].
      destruct (format_hit_cases results (length metadatas))
        as [[hit Hhit]|Hfail]; [| done].
      exfalso. revert Hhit.
      unfold VectorStoreService.format_hit, index. simpl.
      destruct (documents !! length metadatas); simpl; [| done].
      by rewrite (lookup_ge_None_2 metadatas).
    - exists (length distances). split; [done |].
      destruct (format_hit_cases results (length distances))
        as [[hit Hhit]|Hfail]; [| done].
      exfalso. revert Hhit.
      unfold VectorStoreService.format_hit, index. simpl.
      destruct (documents !! length distances); simpl; [| done].
      destruct (metadatas !! length distances); simpl; [| done].
      by rewrite (lookup_ge_None_2 distances).
    - exists (length l). split; [done |].
      destruct (format_hit_cases results (length l))
        as [[hit Hhit]|Hfail]; [| done].
      exfalso. revert Hhit.
      unfold VectorStoreService.format_hit, index. simpl.
      destruct (documents !! length l); simpl; [| done].
      destruct (metadatas !! length l); simpl; [| done].
      destruct (distances !! length l); simpl; [| done].
      by rewrite (lookup_ge_None_2 l). }
  unfold VectorStoreService.format_results.
  change (qr_documents results) with [documents].
  destruct documents as [|d0 documents'] eqn:Hdocs; [simpl in Hj; lia |].
  rewrite <- Hdocs in *.
  assert ((0 <? length documents)%nat = true) as -> by (rewrite Hdocs; done).
  apply (format_loop_fails results 0 (length documents) j); [lia | done].
Qed.

(** ** Queries, in full *)

Lemma insert_ranked_perm x l : Chroma.insert_ranked x l ≡ₚ x :: l.
Proof.
  induction l as [|y l IH]; simpl; [done |].
  destruct (Qle_bool (fst x) (fst y)); [done |].
  rewrite IH. apply Permutation_swap.
Qed.

Lemma rank_perm l : Chroma.rank l ≡ₚ l.
Proof.
  induction l as [|x l IH]; simpl; [done |].
  by rewrite insert_ranked_perm, IH.
Qed.

Lemma substring_length n s :
  (String.length (String.substring 0 n s) <= n)%nat.
Proof.
  revert s. induction n as [|n IH]; intros [|c s]; simpl; try lia.
  specialize (IH s). lia.
Qed.

Lemma length_append s t :
  String.length (s +:+ t) = (String.length s + String.length t)%nat.
Proof.
  induction s as [|c s IH]; [done |].
  change (S (String.length (s +:+ t)) = S (String.length s + String.length t)).
  by rewrite IH.
Qed.

Lemma preview_bounded document :
  (String.length (RAGService.preview document) <= 203)%nat.
Proof.
  unfold RAGService.preview, len.
  destruct (Z.ltb_spec 200 (Z.of_nat (String.length document))).
  - rewrite length_append. pose proof (substring_length 200 document).
    simpl. lia.
  - lia.
Qed.

Section QueryExtras.
Context `{Collaborators}.

Lemma nearest_length q n where_ db :
  length (Chroma.nearest q n where_ db)
  = Nat.min n (length (List.filter (Chroma.matches_where where_)
                         (db_records db))).
Proof.
  unfold Chroma.nearest. rewrite length_take, rank_perm, length_fmap. done.
Qed.

Lemma nearest_elem q n where_ db h :
  h ∈ Chroma.nearest q n where_ db ->
  snd h ∈ db_records db /\ Chroma.matches_where where_ (snd h) = true
  /\ fst h = distance q (rec_embedding (snd h)).
Proof.
  unfold Chroma.nearest. intros Hh.
  apply (subseteq_take n) in Hh. rewrite rank_perm in Hh.
  apply list_elem_of_fmap in Hh as (r & -> & Hr).
  apply list_elem_of_In, List.filter_In in Hr as [Hr Hm].
  simpl. by rewrite list_elem_of_In.
Qed.

(** What a query that returns has done. *)
Lemma query_ok_inv question top_k w r w' :
  RAGService.query question top_k w = (Ok r, w') ->
  (retrieve question top_k w = (Ok [], w')
   /\ r = RAGService.insufficient_answer)
  \/ exists hits w1 a,
       retrieve question top_k w = (Ok hits, w1) /\ hits <> []
       /\ llm_invoke (prompt_of question hits) = Ok a
       /\ w' = log_call (EvInvoke (prompt_of question hits)) w1
       /\ r = {| answer := a; sources := RAGService.source_entry <$> hits;
                 context_used := true |}.
Proof.
  unfold retrieve, RAGService.query, bind.
  destruct (RAGService.ensure_initialized w) as [[[]|e0] w0]; [| done].
  destruct (RAGService.embeddings_embed_query question w0)
    as [[qe|e1] w1]; [| done].
  destruct (VectorStoreService.similarity_search qe top_k None w1)
    as [[hits|e2] w2]; [| done].
  destruct hits as [|hit hits].
  { unfold ret. intros [= <- <-]. by left. }
  rewrite (context_loop_spec _ 1 (hit :: hits)) by done.
  unfold try_except, RAGService.llm_invoke_content, bind, gets, ret, raise.
  destruct (rag_llm w2); [| done].
  change (fun i => RAGService.context_part (1 + i))
    with (fun i => RAGService.context_part (S i)).
  cbn [app].
  fold (context_of (hit :: hits)). fold (prompt_of question (hit :: hits)).
  destruct (llm_invoke (prompt_of question (hit :: hits))) as [a|e3] eqn:Hllm;
    [| done].
  intros [= <- <-]. right. exists (hit :: hits), w2, a.
  repeat split; done.
Qed.

(** X14. On an initialized orchestrator a query only reads: whatever its
    outcome, the state it leaves is the state before with nothing but the
    record of collaborator calls extended, by at most one call to each of
    the embedding client, the index and the generative model, in this
    order. *)
Theorem query_only_reads question top_k w r w' :
  rag_initialized w = true ->
  RAGService.query question top_k w = (r, w') ->
  w' = w
  \/ w' = log_call (EvEmbedQuery question) w
  \/ w' = log_call (EvQuery top_k) (log_call (EvEmbedQuery question) w)
  \/ exists prompt,
       w' = log_call (EvInvoke prompt)
              (log_call (EvQuery top_k) (log_call (EvEmbedQuery question) w)).
Proof.
  intros Hready. unfold RAGService.query.
  rewrite (bind_ok _ _ _ _ _ (ensure_initialized_ready _ Hready)).
  unfold bind.
  unfold RAGService.embeddings_embed_query, bind, gets, raise.
  destruct (rag_embeddings w); simpl.
  2: { intros [= <- <-]. by left. }
  destruct (embed_query_vector question) as [qe|e1]; simpl.
  2: { intros [= <- <-]. right. by left. }
  unfold VectorStoreService.similarity_search,
    VectorStoreService.with_collection, VectorStoreService.not_initialized,
    Chroma.read, bind, gets, raise, lift.
  cbn [vs_initialized vs_collection chroma log_call].
  destruct (vs_initialized w), (vs_collection w); simpl;
    try (intros [= <- <-]; right; by left).
  destruct (Chroma.query _ _ _ _) as [results|e2]; simpl.
  2: { intros [= <- <-]. right. right. by left. }
  destruct (VectorStoreService.format_results results) as [hits|e3]; simpl.
  2: { intros [= <- <-]. right. right. by left. }
  destruct hits as [|hit hits]; simpl.
  { intros [= <- <-]. right. right. by left. }
  destruct (RAGService.context_loop _ _ _) as [parts srcs].
  unfold try_except, RAGService.llm_invoke_content, bind, gets, ret, raise.
  cbn [rag_llm log_call].
  destruct (rag_llm w); simpl.
  - destruct (llm_invoke _); simpl; intros [= <- <-];
      right; right; right; by eexists.
  - intros [= <- <-]. right. right. by left.
Qed.

(** X15. What a query returns is bounded: at most [top_k] sources, each
    with a content of at most 203 characters, and it is marked
    [context_used] exactly when it has a source. *)
Theorem query_answer_bounded question top_k w r w' :
  RAGService.query question top_k w = (Ok r, w') ->
  (length (sources r) <= top_k)%nat
  /\ (forall src, src ∈ sources r -> (String.length (content src) <= 203)%nat)
  /\ (context_used r = true <-> sources r <> []).
Proof.
  intros Hq. apply query_ok_inv in Hq
    as [[_ ->]|(hits & w1 & a & Hret & Hne & _ & _ & ->)]; simpl.
  - split; [lia |]. split; [intros src Hsrc; by apply elem_of_nil in Hsrc |].
    split; [done | intros Hn; by destruct Hn].
  - apply retrieve_inv in Hret as (w0 & qe & _ & _ & Hhits & _).
    split; [| split].
    + rewrite length_fmap, Hhits, length_fmap, nearest_length. lia.
    + intros src Hsrc. apply list_elem_of_fmap in Hsrc as (hit & -> & _).
      apply preview_bounded.
    + split; [| done]. intros _ Hnil. apply fmap_nil_inv in Hnil. done.
Qed.

(** X16. When the generative model raises on the prompt of a query whose
    retrieval found chunks, the query raises
    "Error generating response: " followed by the cause, returns no
    source, and has sent the prompt exactly once. *)
Theorem generation_failure_is_wrapped question top_k w hits w1 e :
  consistent w ->
  retrieve question top_k w = (Ok hits, w1) -> hits <> [] ->
  llm_invoke (prompt_of question hits) = Raise e ->
  RAGService.query question top_k w
  = (Raise (Exception ("Error generating response: " +:+ str_exn e)),
     log_call (EvInvoke (prompt_of question hits)) w1)
  /\ llm_calls (log_call (EvInvoke (prompt_of question hits)) w1)
     = EvInvoke (prompt_of question hits) :: llm_calls w.
Proof.
  intros Hw Hret Hne Hllm.
  rewrite (query_grounded _ _ _ _ _ Hw Hret Hne), Hllm. split; [done |].
  apply retrieve_calls in Hret as (Hcalls & _).
  unfold llm_calls in *. simpl. by rewrite Hcalls.
Qed.

End QueryExtras.

Section RoundTrip.
Context `{Collaborators}.

Lemma retrieve_ready question top_k w qe c :
  consistent w -> rag_initialized w = true ->
  vs_collection w = Some c ->
  db_available (chroma w) = true ->
  embed_query_vector question = Ok qe ->
  retrieve question top_k w
  = (Ok (hit_of <$> Chroma.nearest qe top_k ∅ (chroma w)),
     log_call (EvQuery top_k) (log_call (EvEmbedQuery question) w)).
Proof.
  intros [Hvs Hrag] Hready Hcoll Hdb Hqe.
  destruct (Hrag Hready) as ([[] Hemb] & _ & Hinit).
  unfold retrieve.
  rewrite (bind_ok _ _ _ _ _ (ensure_initialized_ready _ Hready)).
  assert (RAGService.embeddings_embed_query question w
          = (Ok qe, log_call (EvEmbedQuery question) w)) as Hembed.
  { unfold RAGService.embeddings_embed_query, bind, gets.
    by rewrite Hemb, Hqe. }
  rewrite (bind_ok _ _ _ _ _ Hembed).
  by rewrite (similarity_search_ready _ _ _ _ c).
Qed.

(** X17. Ingestion followed by a query is a round trip: after a document
    was ingested into an empty index with caller metadata that has no
    [source] key, a query with [top_k >= 1] whose question the embedding
    client embeds retrieves [min(top_k, n)] of its [n] chunks, each a chunk
    of the document carrying its file name; and when the model answers,
    the answer is marked [context_used] and every source names the
    document's file. *)
Theorem ingest_then_query document_path metadata w doc_id w1
    question top_k qe :
  consistent w -> db_records (chroma w) = [] ->
  RAGService.add_document document_path metadata w = (Ok doc_id, w1) ->
  metadata !! "source" = None ->
  embed_query_vector question = Ok qe -> (0 < top_k)%nat ->
  exists doc_data chunks w0 hits w2,
    extract_and_chunk document_path w = (Ok (doc_data, chunks), w0)
    /\ retrieve question top_k w1 = (Ok hits, w2)
    /\ length hits = Nat.min top_k (length chunks)
    /\ hits <> []
    /\ (forall hit, hit ∈ hits ->
          hit_document hit ∈ chunks
          /\ hit_metadata hit !! "source" = Some (PStr (dd_filename doc_data)))
    /\ forall a,
         llm_invoke (prompt_of question hits) = Ok a ->
         exists r,
           fst (RAGService.query question top_k w1) = Ok r
           /\ answer r = a /\ context_used r = true
           /\ length (sources r) = Nat.min top_k (length chunks)
           /\ forall src, src ∈ sources r ->
                document_name src = PStr (dd_filename doc_data).
Proof.
  intros Hw Hempty Hadd Hkey Hqe Hk.
  pose proof (add_document_flag _ _ _ _ _ Hadd)
    as (Hready & Hinit & [c Hcoll] & Hdb1 & Hw1).
  specialize (Hw1 Hw).
  apply add_document_inv in Hadd
    as (d & chunks & w0 & embs & Hchunk & Hne & _ & _ & Hlen & Hrecs & _).
  rewrite Hempty in Hrecs. simpl in Hrecs.
  set (hits := hit_of <$> Chroma.nearest qe top_k ∅ (chroma w1)).
  pose proof (retrieve_ready question top_k w1 qe c Hw1 Hready Hcoll Hdb1 Hqe)
    as Hret. fold hits in Hret.
  assert (length hits = Nat.min top_k (length chunks)) as Hhits.
  { unfold hits. rewrite length_fmap, nearest_length, Hrecs.
    rewrite list_filter_all by (intros; apply matches_where_empty).
    by rewrite ingested_records_length. }
  assert (hits <> []) as Hsome.
  { intros Hnil. rewrite Hnil in Hhits. simpl in Hhits.
    destruct chunks; [done | simpl in Hhits; lia]. }
  assert (forall hit, hit ∈ hits ->
            hit_document hit ∈ chunks
            /\ hit_metadata hit !! "source" = Some (PStr (dd_filename d)))
    as Hfrom.
  { intros hit Hhit. unfold hits in Hhit.
    apply list_elem_of_fmap in Hhit as (h & -> & Hh).
    apply nearest_elem in Hh as (Hr & _ & _). rewrite Hrecs in Hr.
    apply list_elem_of_lookup in Hr as [i Hi].
    assert (i < length chunks)%nat as Hlt.
    { rewrite <- (ingested_records_length d doc_id metadata chunks embs Hlen).
      by eapply lookup_lt_Some. }
    destruct (ingested_records_lookup d doc_id metadata chunks embs i Hlen Hlt)
      as (chunk & e & Hc & _ & Hr).
    rewrite Hi in Hr. injection Hr as Hr. simpl. rewrite Hr. simpl. split.
    - by eapply list_elem_of_lookup_2.
    - unfold RAGService.chunk_metadata. rewrite dict_merge_keep by done.
      by simplify_map_eq. }
  exists d, chunks, w0, hits,
    (log_call (EvQuery top_k) (log_call (EvEmbedQuery question) w1)).
  split; [done |]. split; [exact Hret |].
  split; [done |]. split; [done |]. split; [done |].
  intros a Hllm.
  rewrite (query_grounded _ _ _ _ _ Hw1 Hret Hsome), Hllm. simpl.
  eexists. split; [done |]. simpl. split; [done |]. split; [done |].
  split; [by rewrite length_fmap |].
  intros src Hsrc. apply list_elem_of_fmap in Hsrc as (hit & -> & Hhit).
  simpl. unfold dict_get. destruct (Hfrom hit Hhit) as [_ ->]. done.
Qed.

End RoundTrip.

(** ** The text extractor *)

Lemma has_text_blank text :
  whitespace_only text -> FileExtraction.has_text text = false.
Proof.
  intros Hb. unfold FileExtraction.has_text.
  by rewrite SplitterFacts.strip_blank.
Qed.

Lemma has_text_content text :
  ~ whitespace_only text -> FileExtraction.has_text text = true.
Proof.
  intros Hb. unfold FileExtraction.has_text.
  pose proof (SplitterFacts.strip_not_blank _ Hb).
  by destruct (TextSplitter.strip _).
Qed.

Lemma filter_blank (texts : list string) :
  Forall whitespace_only texts -> List.filter FileExtraction.has_text texts = [].
Proof.
  induction 1 as [|t texts Ht _ IH]; simpl; [done |].
  by rewrite has_text_blank.
Qed.

Lemma list_ascii_append s t :
  list_ascii_of_string (s +:+ t)
  = list_ascii_of_string s ++ list_ascii_of_string t.
Proof.
  induction s as [|c s IH]; [done |].
  change (String c s +:+ t) with (String c (s +:+ t)). simpl. by rewrite IH.
Qed.

Lemma content_not_blank s c t :
  TextSplitter.is_space c = false ->
  ~ whitespace_only (s +:+ String c t).
Proof.
  intros Hc Hb. unfold whitespace_only in Hb.
  rewrite list_ascii_append in Hb. apply SplitterFacts.blank_app in Hb as [_ Hb].
  simpl in Hb. apply Forall_cons in Hb as [Hb _]. congruence.
Qed.

Lemma row_with_two_cells (row : list string) :
  (2 <= length row)%nat -> FileExtraction.has_text (join " | " row) = true.
Proof.
  destruct row as [|a [|b rest]]; simpl length; [lia | lia |]. intros _.
  apply has_text_content.
  change (join " | " (a :: b :: rest))
    with (a +:+ " | " +:+ join " | " (b :: rest)).
  assert (a +:+ " | " +:+ join " | " (b :: rest)
          = (a +:+ " ") +:+ String "|"%char (" " +:+ join " | " (b :: rest)))
    as ->.
  { induction a as [|c a IH]; [done |].
    change (String c a +:+ ?x) with (String c (a +:+ x)).
    change ((String c a +:+ " ") +:+ ?x) with (String c ((a +:+ " ") +:+ x)).
    by rewrite IH. }
  by apply content_not_blank.
Qed.

Lemma filter_keeps_all {A} (f : A -> bool) l :
  Forall (fun x => f x = true) l -> List.filter f l = l.
Proof.
  induction 1 as [|x l Hx _ IH]; simpl; [done |]. by rewrite Hx, IH.
Qed.

Lemma supported_dispatch fs file_path ext :
  ext ∉ supported_extensions ->
  FileExtraction.extract fs file_path ext
  = Raise (FileExtraction.unsupported ext).
Proof.
  intros Hext. unfold FileExtraction.extract.
  assert (forall e, e ∈ supported_extensions -> ext <> e) as Hne
    by (intros e He ->; done).
  rewrite !bool_decide_eq_false_2; [done | ..];
    try (apply Hne; unfold supported_extensions; by repeat constructor).
  intros [-> | [-> | []%elem_of_nil]%elem_of_cons]%elem_of_cons;
    apply Hext; unfold supported_extensions; by repeat constructor.
Qed.

Section Extraction.
Context (C : Collaborators) (fs : FileSystem).

(** Ingestion with the repository's extractor, up to the chunks. *)
Lemma extract_and_chunk_reading file_path w :
  consistent w -> db_available (chroma w) = true ->
  cache_constructed w ->
  valid_sizes (chunk_size (@settings C)) (chunk_overlap (@settings C)) ->
  exists w' s,
    @extract_and_chunk (reading fs C) file_path w
    = (result_bind (FileExtraction.process_file fs file_path) (fun doc_data =>
       result_bind (TextSplitter.split_text s (dd_text doc_data)) (fun chunks =>
       Ok (doc_data, chunks))), w')
    /\ _chunk_size s = chunk_size (@settings C)
    /\ _chunk_overlap s = chunk_overlap (@settings C)
    /\ _separators s = DocumentProcessor.separators.
Proof.
  intros Hw Hdb Hcache Hsizes.
  destruct (@ensure_initialized_available (reading fs C) w Hw Hdb) as [w0 Hinit].
  pose proof (@ensure_initialized_frame (reading fs C) _ _ _ Hinit)
    as (_ & _ & _ & Hts & _).
  assert (cache_constructed w0) as Hcache0.
  { unfold cache_constructed in *. by rewrite Hts. }
  unfold extract_and_chunk. rewrite (bind_ok _ _ _ _ _ Hinit).
  unfold bind at 1, lift. cbn [process_file reading].
  destruct (FileExtraction.process_file fs file_path) as [d|e];
    [| by exists w0, {| _chunk_size := chunk_size (@settings C);
            _chunk_overlap := chunk_overlap (@settings C);
            _separators := DocumentProcessor.separators |}].
  unfold bind, RAGService.document_processor_chunk_text. cbn [settings reading].
  pose proof (chunk_text_spec TextSplitter.split_text (dd_text d)
                (chunk_size (@settings C)) (chunk_overlap (@settings C))
                w0 Hcache0) as Hspec.
  destruct (DocumentProcessor.chunk_text _ _ _ _ w0) as [r w1] eqn:Hchunk.
  destruct Hspec as [-> _]. rewrite (new_valid _ _ _ Hsizes).
  exists w1, {| _chunk_size := chunk_size (@settings C);
            _chunk_overlap := chunk_overlap (@settings C);
            _separators := DocumentProcessor.separators |}.
  split; [| done]. simpl. by destruct (TextSplitter.split_text _ _).
Qed.

End Extraction.

Section ExtractionProperties.
Context (C : Collaborators) (fs : FileSystem).

(** X18. A file whose extension, lowercased, is none of the six the
    extractor reads is refused by ingestion with a plain [Exception]
    "Error processing file <name>: Unsupported file format: <ext>" (the
    [ValueError] raised by the dispatch does not escape [process_file]);
    index, registry and the record of collaborator calls stay as they
    were. *)
Theorem unsupported_format_rejected file_path metadata w :
  consistent w -> db_available (chroma w) = true ->
  FileExtraction.lower (path_suffix fs file_path) ∉ supported_extensions ->
  exists w',
    @RAGService.add_document (reading fs C) file_path metadata w
    = (Raise (Exception
               ("Error processing file " +:+ path_name fs file_path
                +:+ ": Unsupported file format: "
                +:+ FileExtraction.lower (path_suffix fs file_path))), w')
    /\ documents_metadata w' = documents_metadata w
    /\ chroma w' = chroma w /\ calls w' = calls w.
Proof.
  intros Hw Hdb Hext.
  destruct (@ensure_initialized_available (reading fs C) w Hw Hdb) as [w0 Hinit].
  pose proof (@ensure_initialized_frame (reading fs C) _ _ _ Hinit)
    as (Hc & Hcalls & Hreg & _).
  exists w0. split; [| done].
  unfold RAGService.add_document. rewrite (bind_ok _ _ _ _ _ Hinit).
  unfold bind at 1, lift. cbn [process_file reading].
  unfold FileExtraction.process_file.
  by rewrite (supported_dispatch _ _ _ Hext).
Qed.

Lemma process_file_without_text file_path size :
  without_text fs file_path -> st_size fs file_path = Ok size ->
  exists doc_data,
    FileExtraction.process_file fs file_path = Ok doc_data
    /\ dd_text doc_data = EmptyString.
Proof.
  intros Hcase Hsize. unfold FileExtraction.process_file.
  destruct Hcase as [(-> & text & Hread & Hb)
                    |[(-> & pages & Hread & Hb)
                    |[(-> & paragraphs & Hread & Hb)
                    |(-> & rows & Hread & Hb)]]];
    unfold FileExtraction.extract; simpl.
  - unfold FileExtraction._process_txt. rewrite Hread. simpl.
    rewrite (has_text_blank _ Hb). simpl. rewrite Hsize. simpl. by eexists.
  - unfold FileExtraction._process_pdf. rewrite Hread. simpl.
    rewrite (filter_blank _ Hb). simpl. rewrite Hsize. simpl. by eexists.
  - unfold FileExtraction._process_docx. rewrite Hread. simpl.
    rewrite (filter_blank _ Hb). simpl. rewrite Hsize. simpl. by eexists.
  - unfold FileExtraction._process_csv. rewrite Hread. simpl.
    rewrite filter_blank by (by apply Forall_fmap).
    simpl. rewrite Hsize. simpl. by eexists.
Qed.

(** X19. A file the readers find no text in (a text file of white space
    only, a PDF, Word or CSV file whose pages, paragraphs or rows all are)
    is extracted to the empty text, and its ingestion fails with
    [ValueError] "No text content could be extracted from the document";
    index, registry and the record of collaborator calls stay as they
    were. *)
Theorem document_without_text_rejected file_path metadata w size :
  consistent w -> db_available (chroma w) = true ->
  cache_constructed w ->
  valid_sizes (chunk_size (@settings C)) (chunk_overlap (@settings C)) ->
  without_text fs file_path -> st_size fs file_path = Ok size ->
  exists doc_data w',
    FileExtraction.process_file fs file_path = Ok doc_data
    /\ dd_text doc_data = EmptyString
    /\ @RAGService.add_document (reading fs C) file_path metadata w
       = (Raise RAGService.no_content_error, w')
    /\ documents_metadata w' = documents_metadata w
    /\ chroma w' = chroma w /\ calls w' = calls w.
Proof.
  intros Hw Hdb Hcache Hsizes Hcase Hsize.
  destruct (process_file_without_text _ _ Hcase Hsize) as (d & Hd & Htext).
  destruct (extract_and_chunk_reading C fs file_path w Hw Hdb Hcache Hsizes)
    as (w' & s & Hchunk & Hcs & Hco & Hseps).
  rewrite Hd in Hchunk. simpl in Hchunk. rewrite Htext in Hchunk.
  destruct Hsizes as [Ho Hs].
  rewrite SplitterFacts.split_text_whitespace_only in Hchunk
    by (rewrite ?Hcs, ?Hco; (lia || done || constructor)).
  simpl in Hchunk.
  pose proof (@extract_and_chunk_frame (reading fs C) _ _ _ _ Hchunk)
    as (Hdb' & Hcalls & Hreg & _).
  exists d, w'. split; [done |]. split; [done |]. split; [| done].
  by apply (@add_document_no_chunks (reading fs C)) with (doc_data := d).
Qed.

End ExtractionProperties.



Section WorkbookAndTables.
Context (C : Collaborators) (fs : FileSystem).


(** X21. What a successful extraction returns: the file type is the
    lowercased suffix of the path and one of the six supported extensions,
    the file name is the name of the path and the size the one the file
    system reports; the page count is absent for every format but PDF, and
    for a PDF it counts the pages that have text (blank pages are neither
    counted nor part of the text). *)
Theorem extraction_result_shape file_path doc_data :
  FileExtraction.process_file fs file_path = Ok doc_data ->
  dd_file_type doc_data = FileExtraction.lower (path_suffix fs file_path)
  /\ dd_file_type doc_data ∈ supported_extensions
  /\ dd_filename doc_data = path_name fs file_path
  /\ st_size fs file_path = Ok (dd_size doc_data)
  /\ (dd_file_type doc_data <> ".pdf" -> dd_pages doc_data = None)
  /\ (dd_file_type doc_data = ".pdf" ->
      exists pages,
        pdf_pages fs file_path = Ok pages
        /\ dd_pages doc_data
           = Some (Z.of_nat (length (List.filter FileExtraction.has_text pages)))
        /\ (length (List.filter FileExtraction.has_text pages) <= length pages)%nat
        /\ dd_text doc_data
           = join (RAGService.nl +:+ RAGService.nl)
               (List.filter FileExtraction.has_text pages)).
Proof.
  unfold FileExtraction.process_file.
  destruct (decide (FileExtraction.lower (path_suffix fs file_path)
                    ∈ supported_extensions)) as [Hin | Hout];
    [| by rewrite (supported_dispatch _ _ _ Hout)].
  destruct (FileExtraction.extract fs file_path _) as [content|e] eqn:Hcontent;
    [| done].
  simpl. destruct (st_size fs file_path) as [size|e]; [| done].
  simpl. intros [= <-]. simpl.
  split; [done |]. split; [done |]. split; [done |]. split; [done |]. split.
  - intros Hpdf. by rewrite bool_decide_eq_false_2.
  - intros Hpdf. rewrite Hpdf in Hcontent |- *.
    unfold FileExtraction.extract, FileExtraction._process_pdf in Hcontent.
    simpl in Hcontent.
    destruct (pdf_pages fs file_path) as [pages|e]; [| done].
    simpl in Hcontent. injection Hcontent as <-.
    exists pages. split; [done |]. split; [done |]. split; [| done].
    apply List.filter_length_le.
Qed.

(** X22. The CSV reader loses no row that has at least two columns, a row
    of empty cells included: the separator " | " between the cells keeps
    the joined row from being blank.  The text of such a file is its rows,
    cells joined by " | ", one row per line. *)
Theorem csv_rows_with_columns_kept file_path rows size :
  FileExtraction.lower (path_suffix fs file_path) = ".csv" ->
  csv_rows fs file_path = Ok rows ->
  Forall (fun row => (2 <= length row)%nat) rows ->
  st_size fs file_path = Ok size ->
  FileExtraction.process_file fs file_path
  = Ok {| dd_text := join RAGService.nl (join " | " <$> rows);
          dd_filename := path_name fs file_path;
          dd_file_type := ".csv"; dd_size := size; dd_pages := None |}.
Proof.
  intros Hext Hrows Hcols Hsize.
  unfold FileExtraction.process_file. rewrite Hext.
  unfold FileExtraction.extract. simpl.
  unfold FileExtraction._process_csv. rewrite Hrows. simpl.
  rewrite Hsize. simpl.
  rewrite filter_keeps_all; [done |].
  apply Forall_fmap. eapply Forall_impl; [exact Hcols |].
  intros row Hrow. by apply row_with_two_cells.
Qed.

End WorkbookAndTables.

(** * The further properties on the concrete deployment *)

Section FurtherDeployment.
Import Scenario.

Lemma handbook_uploaded :
  RAGService.add_document "handbook.txt" upload_metadata
    (fresh_world empty_store)
  = (Ok "doc-0", after_upload).
Proof. vm_compute. reflexivity. Qed.

(** X1 on a path the file system does not hold. *)
Lemma failed_ingestion_registers_nothing_witness :
  documents_metadata
    (snd (RAGService.add_document "missing.txt" upload_metadata after_upload))
  = documents_metadata after_upload
  /\ chroma
       (snd (RAGService.add_document "missing.txt" upload_metadata
               after_upload))
     = chroma after_upload.
Proof.
  destruct (failed_ingestion_registers_nothing "missing.txt" upload_metadata
              after_upload (Exception "Error processing file")
              (snd (RAGService.add_document "missing.txt" upload_metadata
                      after_upload)))
    as [Hreg Hdb]; [vm_compute; reflexivity |].
  split; [exact Hreg |]. apply Hdb. vm_compute. reflexivity.
Defined.

(** X2 on the handbook. *)
Lemma ingestion_succeeds_witness :
  exists w',
    RAGService.add_document "handbook.txt" upload_metadata
      (fresh_world empty_store)
    = (Ok "doc-0", w').
Proof.
  destruct (ingestion_succeeds "handbook.txt" upload_metadata
              (fresh_world empty_store)
              {| dd_text := handbook_text; dd_filename := "handbook.txt";
                 dd_file_type := ".txt"; dd_size := 37; dd_pages := None |}
              ["alpha beta"; "gamma delta"; "epsilon zeta"]
              (snd (extract_and_chunk "handbook.txt" (fresh_world empty_store)))
              [[10%Q]; [11%Q]; [12%Q]])
    as [w' Hadd].
  - apply fresh_world_consistent.
  - reflexivity.
  - vm_compute. reflexivity.
  - discriminate.
  - vm_compute. reflexivity.
  - reflexivity.
  - intros i _. apply not_elem_of_nil.
  - exists w'. exact Hadd.
Defined.

(** X4 on the handbook: the caller's upload date is the one registered. *)
Lemma ingest_then_get_witness :
  exists record,
    RAGService.get_document_by_id "doc-0" after_upload
    = (Ok (Some record), after_upload)
    /\ record !! "id" = Some (PStr "doc-0")
    /\ record !! "upload_date" = Some (PStr "2024-01-01T00:00:00")
    /\ record !! "status" = Some (PStr "active").
Proof.
  destruct (ingest_then_get "handbook.txt" upload_metadata
              (fresh_world empty_store) "doc-0" after_upload)
    as (d & chunks & w0 & record & _ & Hget & Hid & _ & _ & _ & Hdate & _
        & Hrest & _);
    [vm_compute; reflexivity |].
  exists record. split; [exact Hget |]. split; [exact Hid |].
  split; [exact Hdate |].
  rewrite Hrest; [reflexivity |].
  intros Hin. repeat (apply elem_of_cons in Hin as [Hin | Hin];
                      [discriminate |]).
  by apply elem_of_nil in Hin.
Defined.

(** X5 on the handbook: upload, then delete. *)
Lemma ingest_then_delete_restores_witness :
  exists w2,
    RAGService.delete_document "doc-0" after_upload = (Ok tt, w2)
    /\ db_records (chroma w2) = []
    /\ documents_metadata w2 = ∅.
Proof.
  destruct (ingest_then_delete_restores "handbook.txt" upload_metadata
              (fresh_world empty_store) "doc-0" after_upload)
    as (w2 & Hdel & Hrecs & Hreg).
  - apply fresh_world_consistent.
  - vm_compute. reflexivity.
  - reflexivity.
  - reflexivity.
  - intros r Hr. by apply elem_of_nil in Hr.
  - exists w2. split; [exact Hdel |]. split; [exact Hrecs | exact Hreg].
Defined.

(** X6 on the handbook, uploaded under a caller's [document_id]. *)
Lemma delete_misses_relabelled_chunks_witness :
  exists w2,
    RAGService.delete_document "doc-0"
      (snd (RAGService.add_document "handbook.txt"
              {[ "document_id" := PStr "custom" ]} (fresh_world empty_store)))
    = (Ok tt, w2)
    /\ documents_metadata w2 !! "doc-0" = None
    /\ db_records (chroma w2) <> [].
Proof.
  destruct (delete_misses_relabelled_chunks "handbook.txt"
              {[ "document_id" := PStr "custom" ]}
              (fresh_world empty_store) "doc-0"
              (snd (RAGService.add_document "handbook.txt"
                      {[ "document_id" := PStr "custom" ]}
                      (fresh_world empty_store)))
              (PStr "custom"))
    as (w2 & new & Hdel & Hreg & Hkept & Hnew & Hsome & _).
  - apply fresh_world_consistent.
  - vm_compute. reflexivity.
  - reflexivity.
  - discriminate.
  - intros r Hr. by apply elem_of_nil in Hr.
  - exists w2. split; [exact Hdel |]. split; [exact Hreg |].
    rewrite Hkept, Hnew. exact Hsome.
Defined.

(** X7 on the uploaded handbook while the storage is unreachable. *)
Lemma failed_deletion_keeps_registry_witness :
  documents_metadata
    (snd (RAGService.delete_document "doc-0" (Outage.unreachable after_upload)))
  = documents_metadata (Outage.unreachable after_upload)
  /\ chroma
       (snd (RAGService.delete_document "doc-0"
               (Outage.unreachable after_upload)))
     = chroma (Outage.unreachable after_upload).
Proof.
  destruct (failed_deletion_keeps_registry "doc-0"
              (Outage.unreachable after_upload)
              (ServiceError "vector index storage unavailable")
              (snd (RAGService.delete_document "doc-0"
                      (Outage.unreachable after_upload))))
    as [Hreg Hdb]; [vm_compute; reflexivity |].
  split; [exact Hreg |]. apply Hdb. vm_compute. reflexivity.
Defined.

(** X8 on the uploaded handbook. *)
Lemma clear_collection_empties_index_witness :
  exists w',
    VectorStoreService.clear_collection after_upload = (Ok tt, w')
    /\ db_records (chroma w') = []
    /\ size (documents_metadata w') = 1%nat.
Proof.
  destruct (clear_collection_empties_index after_upload
              {| coll_name := "company_documents";
                 coll_metadata := {[ "hnsw:space" := PStr "cosine" ]} |})
    as (w' & Hclear & Hrecs & Hreg & _);
    [reflexivity | vm_compute; reflexivity | reflexivity |].
  exists w'. split; [exact Hclear |]. split; [exact Hrecs |].
  rewrite Hreg. vm_compute. reflexivity.
Defined.

(** X9 on the uploaded handbook. *)
Lemma ingest_then_list_ids_witness :
  exists ids,
    fst (VectorStoreService.get_all_document_ids after_upload) = Ok ids
    /\ ids ≡ₚ ["doc-0_chunk_0"; "doc-0_chunk_1"; "doc-0_chunk_2"].
Proof.
  destruct (ingest_then_list_ids "handbook.txt" upload_metadata
              (fresh_world empty_store) "doc-0" after_upload)
    as (d & chunks & w0 & ids & Hchunk & Hids & Hperm & _);
    [vm_compute; reflexivity |].
  exists ids. split; [exact Hids |].
  vm_compute in Hchunk. injection Hchunk as <- <- <-.
  rewrite Hperm. vm_compute. reflexivity.
Defined.

(** X10 on the uploaded handbook: one document, three chunks. *)
Lemma ingest_then_stats_witness :
  exists stats,
    fst (RAGService.get_collection_stats after_upload) = Ok stats
    /\ RAGService.total_documents stats = 1%nat
    /\ RAGService.total_chunks stats = 3%Z.
Proof.
  destruct (ingest_then_stats "handbook.txt" upload_metadata
              (fresh_world empty_store) "doc-0" after_upload)
    as (d & chunks & w0 & c & Hchunk & _ & Hstats);
    [vm_compute; reflexivity | reflexivity |].
  eexists. split; [exact Hstats |]. split; [reflexivity |].
  vm_compute in Hchunk. injection Hchunk as <- <- <-. reflexivity.
Defined.

(** X11 on the services as imported. *)
Lemma initialize_once_witness :
  exists w1,
    VectorStoreService.initialize "./chroma_db" "company_documents"
      (fresh_world ranked_store) = (Ok tt, w1)
    /\ vs_initialized w1 = true
    /\ VectorStoreService.initialize "./elsewhere" "other" w1 = (Ok tt, w1).
Proof.
  destruct (initialize_once "./chroma_db" "company_documents"
              (fresh_world ranked_store) (Ok tt)
              (snd (VectorStoreService.initialize "./chroma_db"
                      "company_documents" (fresh_world ranked_store))))
    as [_ Hok]; [reflexivity | vm_compute; reflexivity |].
  destruct (Hok eq_refl) as (Hflag & _ & Hagain).
  eexists. split; [vm_compute; reflexivity |].
  split; [exact Hflag | apply Hagain].
Defined.

(** X12 on two results without ids. *)
Lemma format_results_positional_witness :
  exists hits,
    VectorStoreService.format_results
      {| qr_ids := None; qr_documents := [["first"; "second"]];
         qr_metadatas := [[∅; ∅]]; qr_distances := [[0.1%Q; 0.2%Q]] |}
    = Ok hits
    /\ length hits = 2%nat.
Proof.
  destruct (format_results_positional None ["first"; "second"] [∅; ∅]
              [0.1%Q; 0.2%Q])
    as (hits & Hfmt & Hlen & _); [reflexivity | reflexivity | discriminate |].
  exists hits. split; [exact Hfmt | exact Hlen].
Defined.

(** X13 on two documents with one distance. *)
Lemma format_results_ragged_witness :
  VectorStoreService.format_results
    {| qr_ids := None; qr_documents := [["first"; "second"]];
       qr_metadatas := [[∅; ∅]]; qr_distances := [[0.1%Q]] |}
  = Raise (IndexError "list index out of range").
Proof.
  apply (format_results_ragged None ["first"; "second"] [∅; ∅] [0.1%Q]).
  right. left. simpl. lia.
Defined.

(** X14 on the uploaded handbook. *)
Lemma query_only_reads_witness :
  chroma (snd (RAGService.query question 5 after_upload)) = chroma after_upload
  /\ documents_metadata (snd (RAGService.query question 5 after_upload))
     = documents_metadata after_upload.
Proof.
  destruct (query_only_reads question 5 after_upload
              (fst (RAGService.query question 5 after_upload))
              (snd (RAGService.query question 5 after_upload)))
    as [Hw | [Hw | [Hw | [prompt Hw]]]];
    [vm_compute; reflexivity | apply surjective_pairing | ..];
    rewrite Hw; split; reflexivity.
Defined.

(** X15 on the ranked store with [top_k = 2]. *)
Lemma query_answer_bounded_witness :
  exists r,
    fst (RAGService.query question 2 (fresh_world ranked_store)) = Ok r
    /\ (length (sources r) <= 2)%nat.
Proof.
  destruct (RAGService.query question 2 (fresh_world ranked_store))
    as [[r|e] w'] eqn:Hq; [| vm_compute in Hq; discriminate].
  destruct (query_answer_bounded question 2 (fresh_world ranked_store) r w' Hq)
    as [Hlen _].
  exists r. split; [reflexivity | exact Hlen].
Defined.

(** X16 on the ranked store while the model is out of quota. *)
Lemma generation_failure_is_wrapped_witness :
  fst (@RAGService.query Outage.collaborators question 5
         (fresh_world ranked_store))
  = Raise (Exception "Error generating response: 429 quota exceeded").
Proof.
  destruct (@generation_failure_is_wrapped Outage.collaborators question 5
              (fresh_world ranked_store) ranked_hits
              (snd (@retrieve Outage.collaborators question 5
                      (fresh_world ranked_store)))
              Outage.quota_exceeded)
    as [Hq _];
    [apply fresh_world_consistent | vm_compute; reflexivity | discriminate
    | reflexivity |].
  rewrite Hq. reflexivity.
Defined.

(** X17 on the uploaded handbook: a query for two results finds two of its
    three chunks. *)
Lemma ingest_then_query_witness :
  exists hits w2,
    retrieve question 2 after_upload = (Ok hits, w2)
    /\ length hits = 2%nat
    /\ forall hit, hit ∈ hits ->
         hit_metadata hit !! "source" = Some (PStr "handbook.txt").
Proof.
  destruct (ingest_then_query "handbook.txt" upload_metadata
              (fresh_world empty_store) "doc-0" after_upload question 2 [0%Q])
    as (d & chunks & w0 & hits & w2 & Hchunk & Hret & Hlen & _ & Hfrom & _).
  - apply fresh_world_consistent.
  - reflexivity.
  - vm_compute. reflexivity.
  - reflexivity.
  - reflexivity.
  - lia.
  - vm_compute in Hchunk. injection Hchunk as <- <- <-.
    exists hits, w2. split; [exact Hret |]. split; [exact Hlen |].
    intros hit Hhit. apply (Hfrom hit Hhit).
Defined.

End FurtherDeployment.

Section ExtractionDeployment.
Import Disk.

(** X18 on a Word 97 file. *)
Lemma unsupported_format_rejected_witness :
  exists w',
    RAGService.add_document "legacy.doc" ∅ (fresh_world Scenario.empty_store)
    = (Raise (Exception
               "Error processing file legacy.doc: Unsupported file format: .doc"),
       w').
Proof.
  destruct (unsupported_format_rejected Scenario.collaborators disk
              "legacy.doc" ∅ (fresh_world Scenario.empty_store))
    as (w' & Hadd & _).
  - apply fresh_world_consistent.
  - reflexivity.
  - intros Hin. vm_compute in Hin.
    repeat (apply elem_of_cons in Hin as [Hin | Hin]; [discriminate |]).
    by apply elem_of_nil in Hin.
  - exists w'. exact Hadd.
Defined.

(** X19 on a text file of two spaces around a line break. *)
Lemma document_without_text_rejected_witness :
  exists w',
    RAGService.add_document "blank.TXT" ∅ (fresh_world Scenario.empty_store)
    = (Raise (ValueError
                "No text content could be extracted from the document"), w').
Proof.
  destruct (document_without_text_rejected Scenario.collaborators disk
              "blank.TXT" ∅ (fresh_world Scenario.empty_store) 3)
    as (d & w' & _ & _ & Hadd & _).
  - apply fresh_world_consistent.
  - reflexivity.
  - intros s Hs. discriminate.
  - unfold valid_sizes. simpl. lia.
  - left. split; [reflexivity |].
    exists (" " +:+ RAGService.nl +:+ " "). split; [reflexivity |].
    unfold whitespace_only, blank. repeat constructor.
  - reflexivity.
  - exists w'. exact Hadd.
Defined.


(** X21 on a scan of three pages, the second blank. *)
Lemma extraction_result_shape_witness :
  exists doc_data,
    FileExtraction.process_file disk "scan.pdf" = Ok doc_data
    /\ dd_file_type doc_data = ".pdf"
    /\ dd_pages doc_data = Some 2%Z.
Proof.
  destruct (FileExtraction.process_file disk "scan.pdf") as [d|e] eqn:Hfile;
    [| vm_compute in Hfile; discriminate].
  destruct (extraction_result_shape disk "scan.pdf" d Hfile)
    as (Htype & _ & _ & _ & _ & Hpdf).
  exists d. split; [reflexivity |]. split; [exact Htype |].
  destruct (Hpdf Htype) as (pages & Hpages & -> & _).
  vm_compute in Hpages. injection Hpages as <-. reflexivity.
Defined.

(** X22 on a table whose second row is empty. *)
Lemma csv_rows_with_columns_kept_witness :
  FileExtraction.process_file disk "table.csv"
  = Ok {| dd_text := "name | days" +:+ RAGService.nl +:+ " | "
                     +:+ RAGService.nl +:+ "leave | 20";
          dd_filename := "table.csv"; dd_file_type := ".csv";
          dd_size := 3; dd_pages := None |}.
Proof.
  rewrite (csv_rows_with_columns_kept disk "table.csv"
             [["name"; "days"]; [EmptyString; EmptyString]; ["leave"; "20"]] 3);
    [reflexivity | reflexivity | reflexivity | | reflexivity].
  repeat constructor.
Defined.

End ExtractionDeployment.
